(** * Data Vault: the storage and versioning engine of [Data_Vault.py]

    A shallow embedding of class [DataVault] (the presentation class
    [DataVaultGUI] only calls it) together with the small part of the
    Python runtime it drives: [pathlib] paths, the file system as seen
    through [os] and [shutil], [hashlib.sha256] and the [json] codec.

    Layout: library models first ([Hashlib], [Pathlib], [Fs], [Json]), then
    the engine inside [Section Engine], then the facts proved about it. *)

From Stdlib Require Import ZArith List String Ascii Bool Lia.
From Stdlib Require Import Strings.Byte.
From Stdlib Require Import DecimalString DecimalZ DecimalPos.
Import ListNotations.

Local Open Scope Z_scope.
Local Open Scope string_scope.
Local Open Scope list_scope.

Set Implicit Arguments.
Set Warnings "-register-all".

(* ================================================================== *)
(** ** Python outcomes *)

(** The exceptions the engine's library calls can raise. *)
Inductive exn : Type :=
| FileNotFoundError
| IsADirectoryError
| NotADirectoryError
| FileExistsError
| SameFileError
| PermissionError
| OSError
| JSONDecodeError
| IndexError
| KeyError
| ValueError.

(** A call either returns a value or raises. *)
Inductive outcome (A : Type) : Type :=
| Return (a : A)
| Raise (e : exn).
Arguments Return {A} a.
Arguments Raise {A} e.

Definition is_raise {A} (o : outcome A) : bool :=
  match o with Raise _ => true | Return _ => false end.

(** [str(n)] for a Python [int]. *)
Definition str_int (z : Z) : string := NilZero.string_of_int (Z.to_int z).

(* ================================================================== *)
(** ** hashlib.sha256 (FIPS 180-4), on 32-bit words kept in [Z] *)

Module Hashlib.

Definition w32 (x : Z) : Z := x mod 2 ^ 32.
Definition add32 (x y : Z) : Z := w32 (x + y).
Definition rotr (n x : Z) : Z :=
  Z.lor (Z.shiftr x n) (w32 (Z.shiftl x (32 - n))).
Definition shr (n x : Z) : Z := Z.shiftr x n.
Definition not32 (x : Z) : Z := Z.lxor x (2 ^ 32 - 1).

Definition Ch (x y z : Z) : Z := Z.lxor (Z.land x y) (Z.land (not32 x) z).
Definition Maj (x y z : Z) : Z :=
  Z.lxor (Z.land x y) (Z.lxor (Z.land x z) (Z.land y z)).
Definition Sigma0 (x : Z) : Z := Z.lxor (rotr 2 x) (Z.lxor (rotr 13 x) (rotr 22 x)).
Definition Sigma1 (x : Z) : Z := Z.lxor (rotr 6 x) (Z.lxor (rotr 11 x) (rotr 25 x)).
Definition sigma0 (x : Z) : Z := Z.lxor (rotr 7 x) (Z.lxor (rotr 18 x) (shr 3 x)).
Definition sigma1 (x : Z) : Z := Z.lxor (rotr 17 x) (Z.lxor (rotr 19 x) (shr 10 x)).

Definition K : list Z :=
  [ 1116352408; 1899447441; 3049323471; 3921009573; 961987163; 1508970993; 2453635748; 2870763221;
    3624381080; 310598401; 607225278; 1426881987; 1925078388; 2162078206; 2614888103; 3248222580;
    3835390401; 4022224774; 264347078; 604807628; 770255983; 1249150122; 1555081692; 1996064986;
    2554220882; 2821834349; 2952996808; 3210313671; 3336571891; 3584528711; 113926993; 338241895;
    666307205; 773529912; 1294757372; 1396182291; 1695183700; 1986661051; 2177026350; 2456956037;
    2730485921; 2820302411; 3259730800; 3345764771; 3516065817; 3600352804; 4094571909; 275423344;
    430227734; 506948616; 659060556; 883997877; 958139571; 1322822218; 1537002063; 1747873779;
    1955562222; 2024104815; 2227730452; 2361852424; 2428436474; 2756734187; 3204031479; 3329325298 ].

(** The eight chaining words. *)
Record words8 : Type := W8 { h0 : Z; h1 : Z; h2 : Z; h3 : Z; h4 : Z; h5 : Z; h6 : Z; h7 : Z }.

Definition H_init : words8 :=
  W8 1779033703 3144134277 1013904242 2773480762 1359893119 2600822924 528734635 1541459225.

(** Padding: the message, one [0x80], zero bytes up to 56 mod 64, then the
    bit length on eight bytes, most significant first. *)
Definition be_bytes (n : nat) (x : Z) : list Z :=
  map (fun i => Z.shiftr x (8 * Z.of_nat i) mod 256) (rev (seq 0 n)).

Definition pad (msg : list byte) : list Z :=
  let l := Z.of_nat (List.length msg) in
  map (fun b => Z.of_N (Byte.to_N b)) msg
    ++ [128] ++ repeat 0 (Z.to_nat ((55 - l) mod 64)) ++ be_bytes 8 (8 * l).

Fixpoint words_of_bytes (fuel : nat) (bs : list Z) : list Z :=
  match fuel, bs with
  | S fuel', a :: b :: c :: d :: rest =>
      (Z.shiftl a 24 + Z.shiftl b 16 + Z.shiftl c 8 + d) :: words_of_bytes fuel' rest
  | _, _ => []
  end.

Fixpoint blocks_of_words (fuel : nat) (ws : list Z) : list (list Z) :=
  match fuel, ws with
  | S fuel', _ :: _ => firstn 16 ws :: blocks_of_words fuel' (skipn 16 ws)
  | _, _ => []
  end.

(** The message schedule, newest word first while it is built. *)
Fixpoint extend (n : nat) (rev_w : list Z) : list Z :=
  match n with
  | O => rev_w
  | S n' =>
      let w := add32 (add32 (sigma1 (nth 1 rev_w 0)) (nth 6 rev_w 0))
                     (add32 (sigma0 (nth 14 rev_w 0)) (nth 15 rev_w 0)) in
      extend n' (w :: rev_w)
  end.

Definition schedule (block : list Z) : list Z := rev (extend 48 (rev block)).

Definition round (s : words8) (kw : Z * Z) : words8 :=
  let '(W8 a b c d e f g h) := s in
  let t1 := add32 (add32 (add32 h (Sigma1 e)) (add32 (Ch e f g) (fst kw))) (snd kw) in
  let t2 := add32 (Sigma0 a) (Maj a b c) in
  W8 (add32 t1 t2) a b c (add32 d t1) e f g.

Definition compress (s : words8) (block : list Z) : words8 :=
  let '(W8 a b c d e f g h) := fold_left round (combine K (schedule block)) s in
  W8 (add32 (h0 s) a) (add32 (h1 s) b) (add32 (h2 s) c) (add32 (h3 s) d)
     (add32 (h4 s) e) (add32 (h5 s) f) (add32 (h6 s) g) (add32 (h7 s) h).

Definition digest_words (msg : list byte) : words8 :=
  let bs := pad msg in
  let ws := words_of_bytes (List.length bs) bs in
  fold_left compress (blocks_of_words (List.length ws) ws) H_init.

Definition nibble (x : Z) : ascii :=
  match String.get (Z.to_nat (x mod 16)) "0123456789abcdef" with
  | Some c => c
  | None => "0"%char
  end.

Definition hex8 (w : Z) (tail : string) : string :=
  String (nibble (Z.shiftr w 28)) (String (nibble (Z.shiftr w 24))
  (String (nibble (Z.shiftr w 20)) (String (nibble (Z.shiftr w 16))
  (String (nibble (Z.shiftr w 12)) (String (nibble (Z.shiftr w 8))
  (String (nibble (Z.shiftr w 4)) (String (nibble w) tail))))))).

(** [hashlib.sha256(msg).hexdigest()]: 64 lower-case hexadecimal characters. *)
Definition sha256_hex (msg : list byte) : string :=
  let '(W8 a b c d e f g h) := digest_words msg in
  hex8 a (hex8 b (hex8 c (hex8 d (hex8 e (hex8 f (hex8 g (hex8 h "")))))))%string.

(** The hash object, kept as the calls of [update] made on it, oldest
    first: one chunk per call. [hexdigest] is the digest of the chunks put
    end to end, as the digest does not depend on where the calls cut. *)
Record sha256 : Type := Hasher { updates : list (list byte) }.
Definition new : sha256 := Hasher [].
Definition update (h : sha256) (chunk : list byte) : sha256 :=
  Hasher (updates h ++ [chunk]).
Definition hexdigest (h : sha256) : string := sha256_hex (List.concat (updates h)).

End Hashlib.

(* ================================================================== *)
(** ** pathlib: pure paths (POSIX flavour) *)

Module Pathlib.

(** [s.split("/")]. *)
Fixpoint split_slash (s : string) : list string :=
  match s with
  | EmptyString => [EmptyString]
  | String c s' =>
      if Ascii.eqb c "/" then EmptyString :: split_slash s'
      else match split_slash s' with
           | w :: ws => String c w :: ws
           | [] => [String c EmptyString]
           end
  end.

(** Empty components and ["."] are dropped when a path is built; [".."] is
    kept, as pathlib does not resolve it. *)
Definition is_part (w : string) : bool := negb (w =? "") && negb (w =? ".").

Record PurePath : Type := { absolute : bool; parts : list string }.

Definition Path (s : string) : PurePath :=
  {| absolute := match s with String c _ => Ascii.eqb c "/" | EmptyString => false end;
     parts := filter is_part (split_slash s) |}.

(** [p / s]: an absolute right operand replaces the left one. *)
Definition joinpath (p : PurePath) (s : string) : PurePath :=
  let q := Path s in
  if absolute q then q
  else {| absolute := absolute p; parts := parts p ++ parts q |}.

(** [p.name]: the final component, [""] when there is none. *)
Definition name (p : PurePath) : string := last (parts p) "".

(** [str(p)]. *)
Definition str (p : PurePath) : string :=
  match absolute p, parts p with
  | false, [] => "."
  | false, ps => String.concat "/" ps
  | true, ps => String "/" (String.concat "/" ps)
  end.

Fixpoint strip_prefix (base ps : list string) : option (list string) :=
  match base, ps with
  | [], _ => Some ps
  | b :: base', x :: ps' => if b =? x then strip_prefix base' ps' else None
  | _ :: _, [] => None
  end.

(** [p.relative_to(base)]: lexical, [ValueError] when [base] is no prefix. *)
Definition relative_to (p base : PurePath) : outcome PurePath :=
  if Bool.eqb (absolute p) (absolute base) then
    match strip_prefix (parts base) (parts p) with
    | Some rest => Return {| absolute := false; parts := rest |}
    | None => Raise ValueError
    end
  else Raise ValueError.

(** No ["/"] in it. *)
Fixpoint slashless (w : string) : bool :=
  match w with
  | EmptyString => true
  | String c w' => negb (Ascii.eqb c "/") && slashless w'
  end.

(** A component that names a directory entry of its own: not empty, not
    ["."], not [".."], no ["/"] in it. *)
Definition plain (w : string) : bool :=
  is_part w && negb (w =? "..") && slashless w.

End Pathlib.

Declare Scope path_scope.
Delimit Scope path_scope with path.
Notation "p / s" := (Pathlib.joinpath p s) : path_scope.

(* ================================================================== *)
(** ** The file system, as [os], [pathlib.Path] and [shutil] see it

    Regular files and directories under keys (component lists from the
    root). No symbolic or hard links, no permissions: a fault of that
    kind is an [env]'s business (see [Section Engine]). *)

Module Fs.
Import Pathlib.

Definition key : Type := list string.

Inductive node : Type :=
| File (content : list byte)
| Dir.

Record world : Type := { cwd : key; nodes : key -> option node }.

Fixpoint key_eqb (a b : key) : bool :=
  match a, b with
  | [], [] => true
  | x :: a', y :: b' => (x =? y) && key_eqb a' b'
  | _, _ => false
  end.

Fixpoint is_prefix (p k : key) : bool :=
  match p, k with
  | [], _ => true
  | x :: p', y :: k' => (x =? y) && is_prefix p' k'
  | _ :: _, [] => false
  end.

Definition put (k : key) (n : node) (w : world) : world :=
  {| cwd := cwd w;
     nodes := fun k' => if key_eqb k' k then Some n else nodes w k' |}.

(** Everything at or below [k] goes. *)
Definition prune (k : key) (w : world) : world :=
  {| cwd := cwd w;
     nodes := fun k' => if is_prefix k k' then None else nodes w k' |}.

Definition is_dir_at (w : world) (k : key) : bool :=
  match nodes w k with Some Dir => true | _ => false end.

Definition not_a_dir (w : world) (k : key) : exn :=
  match nodes w k with
  | Some (File _) => NotADirectoryError
  | _ => FileNotFoundError
  end.

(** One step of path resolution: [cur] must be a directory; [".."] goes to
    the parent (the root is its own parent), which is a directory too. *)
Definition enter (w : world) (cur : key) (c : string) : outcome key :=
  if negb (is_dir_at w cur) then Raise (not_a_dir w cur)
  else if c =? ".." then
         if is_dir_at w (removelast cur) then Return (removelast cur)
         else Raise FileNotFoundError
       else Return (cur ++ [c]).

Fixpoint walk (w : world) (cur : key) (comps : list string) : outcome key :=
  match comps with
  | [] => Return cur
  | c :: rest =>
      match enter w cur c with
      | Return nxt => walk w nxt rest
      | Raise e => Raise e
      end
  end.

Definition start (w : world) (p : PurePath) : key :=
  if absolute p then [] else cwd w.

(** The key a path resolves to; the node there may be missing. The walk
    sets out from a directory: the root, or the working directory. *)
Definition locate (w : world) (p : PurePath) : outcome key :=
  if is_dir_at w (start w p) then walk w (start w p) (parts p)
  else Raise (not_a_dir w (start w p)).

Definition lookup (w : world) (p : PurePath) : option node :=
  match locate w p with
  | Return k => nodes w k
  | Raise _ => None
  end.

(** [Path.exists()] and [os.path.isdir]. *)
Definition exists_ (w : world) (p : PurePath) : bool :=
  match lookup w p with Some _ => true | None => false end.

Definition is_dir (w : world) (p : PurePath) : bool :=
  match lookup w p with Some Dir => true | _ => false end.

(** [open(p, 'rb').read()], whole file. *)
Definition read_bytes (w : world) (p : PurePath) : outcome (list byte) :=
  match locate w p with
  | Raise e => Raise e
  | Return k =>
      match nodes w k with
      | Some (File b) => Return b
      | Some Dir => Raise IsADirectoryError
      | None => Raise FileNotFoundError
      end
  end.

(** [open(p, 'wb')] or [open(p, 'w')], then the whole content written. *)
Definition write_bytes (w : world) (p : PurePath) (b : list byte) : outcome world :=
  match locate w p with
  | Raise e => Raise e
  | Return k =>
      match nodes w k with
      | Some Dir => Raise IsADirectoryError
      | _ => Return (put k (File b) w)
      end
  end.

(** [Path.mkdir(parents=..., exist_ok=True)]. *)
Fixpoint mkdir_from (parents : bool) (w : world) (cur : key) (comps : list string)
  : outcome world :=
  match comps with
  | [] => Return w
  | c :: rest =>
      match enter w cur c with
      | Raise e => Raise e
      | Return nxt =>
          match nodes w nxt, rest with
          | Some Dir, _ => mkdir_from parents w nxt rest
          | Some (File _), [] => Raise FileExistsError
          | Some (File _), _ :: _ => Raise NotADirectoryError
          | None, [] => Return (put nxt Dir w)
          | None, _ :: _ =>
              if parents then mkdir_from parents (put nxt Dir w) nxt rest
              else Raise FileNotFoundError
          end
      end
  end.

Definition mkdir (parents : bool) (w : world) (p : PurePath) : outcome world :=
  if is_dir_at w (start w p) then mkdir_from parents w (start w p) (parts p)
  else Raise (not_a_dir w (start w p)).

(** [os.path.samefile] on two paths that both exist. *)
Definition same_file (w : world) (a b : PurePath) : bool :=
  match locate w a, locate w b with
  | Return ka, Return kb =>
      key_eqb ka kb && match nodes w ka with Some _ => true | None => false end
  | _, _ => false
  end.

(** Where [shutil.copy2(src, dst)] writes: into [dst] when it is a directory. *)
Definition copy2_target (w : world) (src dst : PurePath) : PurePath :=
  if is_dir w dst then (dst / name src)%path else dst.

(** [shutil.copy2(src, dst)]: content only; the file times it also copies
    are not part of the model. *)
Definition copy2 (w : world) (src dst : PurePath) : outcome world :=
  let dst := copy2_target w src dst in
  if same_file w src dst then Raise SameFileError
  else match read_bytes w src with
       | Raise e => Raise e
       | Return b => write_bytes w dst b
       end.

(** [shutil.copy2(src, dst)] with [dst] given as a [str]: the empty string
    names nothing, and a trailing slash on anything but a directory cannot
    be opened for writing. *)
Fixpoint trailing_slash (s : string) : bool :=
  match s with
  | EmptyString => false
  | String c EmptyString => Ascii.eqb c "/"
  | String _ s' => trailing_slash s'
  end.

Definition copy2_str (w : world) (src : PurePath) (dst : string) : outcome world :=
  if (dst =? "") || (trailing_slash dst && negb (is_dir w (Path dst))) then
    match read_bytes w src with
    | Raise e => Raise e
    | Return _ =>
        Raise (if dst =? "" then FileNotFoundError
               else if exists_ w (Path dst) then NotADirectoryError
               else IsADirectoryError)
    end
  else copy2 w src (Path dst).

(** [p.stat().st_size]. The size of a directory depends on the platform;
    the engine never asks for one. *)
Definition st_size (w : world) (p : PurePath) : outcome Z :=
  match locate w p with
  | Raise e => Raise e
  | Return k =>
      match nodes w k with
      | Some (File b) => Return (Z.of_nat (List.length b))
      | Some Dir => Return 4096
      | None => Raise FileNotFoundError
      end
  end.

(** Whether [open(p, 'w')] can succeed: the path resolves and does not
    name a directory. *)
Definition writable (w : world) (p : PurePath) : bool :=
  match locate w p with
  | Return k => negb (is_dir_at w k)
  | Raise _ => false
  end.

(** [shutil.rmtree(p)]. *)
Definition rmtree (w : world) (p : PurePath) : outcome world :=
  match locate w p with
  | Raise e => Raise e
  | Return k =>
      match nodes w k with
      | Some Dir => Return (prune k w)
      | Some (File _) => Raise NotADirectoryError
      | None => Raise FileNotFoundError
      end
  end.

End Fs.

(* ================================================================== *)
(** ** Python [dict] with [str] keys: insertion-ordered *)

Module Dict.
Section Ops.
Variable V : Type.

Definition t : Type := list (string * V).

Fixpoint get (k : string) (d : t) : option V :=
  match d with
  | [] => None
  | (k', v) :: d' => if k' =? k then Some v else get k d'
  end.

(** [k in d]. *)
Definition contains (k : string) (d : t) : bool :=
  match get k d with Some _ => true | None => false end.

(** [d[k] = v]: in place when [k] is a key, else appended. *)
Fixpoint set (k : string) (v : V) (d : t) : t :=
  match d with
  | [] => [(k, v)]
  | (k', v') :: d' => if k' =? k then (k', v) :: d' else (k', v') :: set k v d'
  end.

(** [del d[k]]. *)
Definition del (k : string) (d : t) : t :=
  filter (fun kv => negb (fst kv =? k)) d.

(** [list(d.keys())]. *)
Definition keys (d : t) : list string := map fst d.

End Ops.
End Dict.

(* ================================================================== *)
(** ** json: values, and a reference codec for documents without
    fractions, exponents or [\u] escapes *)

Module Json.

Inductive value : Type :=
| Null
| Bool (b : bool)
| Int (z : Z)
| Float (text : string)
| Str (s : string)
| Arr (items : list value)
| Obj (members : list (string * value)).

Definition dquote : ascii := ascii_of_nat 34.
Definition backslash : ascii := ascii_of_nat 92.
Definition newline : ascii := ascii_of_nat 10.

Definition hex2 (n : nat) : string :=
  String (Hashlib.nibble (Z.of_nat (n / 16))) (String (Hashlib.nibble (Z.of_nat n)) "").

Definition escape_char (c : ascii) : string :=
  let n := nat_of_ascii c in
  if Ascii.eqb c dquote then String backslash (String dquote "")
  else if Ascii.eqb c backslash then String backslash (String backslash "")
  else if (n =? 10)%nat then String backslash "n"
  else if (n =? 13)%nat then String backslash "r"
  else if (n =? 9)%nat then String backslash "t"
  else if (n =? 8)%nat then String backslash "b"
  else if (n =? 12)%nat then String backslash "f"
  else if ((n <? 32) || (127 <? n))%nat then (String backslash "u00" ++ hex2 n)%string
  else String c "".

Fixpoint escape (s : string) : string :=
  match s with
  | EmptyString => ""
  | String c s' => (escape_char c ++ escape s')%string
  end.

Definition quote (s : string) : string :=
  (String dquote (escape s) ++ String dquote "")%string.

Fixpoint spaces (n : nat) : string :=
  match n with O => "" | S n' => String " " (spaces n') end.

Definition nl (lvl : nat) : string := String newline (spaces (2 * lvl)).

(** [json.dumps(v, indent=2)], at nesting depth [lvl]. *)
Fixpoint dump (lvl : nat) (v : value) : string :=
  match v with
  | Null => "null"
  | Bool true => "true"
  | Bool false => "false"
  | Int z => str_int z
  | Float t => t
  | Str s => quote s
  | Arr [] => "[]"
  | Arr items =>
      ("[" ++ nl (S lvl)
       ++ String.concat ("," ++ nl (S lvl)) (map (dump (S lvl)) items)
       ++ nl lvl ++ "]")%string
  | Obj [] => "{}"
  | Obj members =>
      ("{" ++ nl (S lvl)
       ++ String.concat ("," ++ nl (S lvl))
            (map (fun kv => quote (fst kv) ++ ": " ++ dump (S lvl) (snd kv)) members)
       ++ nl lvl ++ "}")%string
  end.

Definition dumps (v : value) : list byte := list_byte_of_string (dump 0 v).

Definition is_ws (c : ascii) : bool :=
  let n := nat_of_ascii c in
  ((n =? 32) || (n =? 10) || (n =? 13) || (n =? 9))%nat.

Fixpoint skip_ws (s : string) : string :=
  match s with
  | String c s' => if is_ws c then skip_ws s' else s
  | EmptyString => s
  end.

Definition digit (c : ascii) : option Z :=
  let n := nat_of_ascii c in
  if ((48 <=? n) && (n <=? 57))%nat then Some (Z.of_nat n - 48) else None.

Fixpoint digits (s : string) (acc : Z) : Z * string :=
  match s with
  | String c s' =>
      match digit c with
      | Some d => digits s' (10 * acc + d)
      | None => (acc, s)
      end
  | EmptyString => (acc, s)
  end.

(** An integer literal; a fraction or an exponent is outside the fragment. *)
Definition unsigned (s : string) : option (Z * string) :=
  match s with
  | String c s' =>
      match digit c with
      | Some d =>
          let '(n, rest) := if (d =? 0)%Z then (0, s') else digits s' d in
          match rest with
          | String c' _ =>
              if Ascii.eqb c' "." || Ascii.eqb c' "e" || Ascii.eqb c' "E"
                 || match digit c' with Some _ => true | None => false end
              then None else Some (n, rest)
          | EmptyString => Some (n, rest)
          end
      | None => None
      end
  | EmptyString => None
  end.

(** The rest of a string literal, after its opening quote. *)
Fixpoint string_body (s : string) : option (string * string) :=
  match s with
  | EmptyString => None
  | String c s' =>
      if Ascii.eqb c dquote then Some ("", s')
      else if Ascii.eqb c backslash then
        match s' with
        | String e s'' =>
            let out (x : ascii) :=
              match string_body s'' with
              | Some (body, rest) => Some (String x body, rest)
              | None => None
              end in
            if Ascii.eqb e dquote then out dquote
            else if Ascii.eqb e backslash then out backslash
            else if Ascii.eqb e "/" then out "/"%char
            else if Ascii.eqb e "n" then out newline
            else if Ascii.eqb e "r" then out (ascii_of_nat 13)
            else if Ascii.eqb e "t" then out (ascii_of_nat 9)
            else if Ascii.eqb e "b" then out (ascii_of_nat 8)
            else if Ascii.eqb e "f" then out (ascii_of_nat 12)
            else None
        | EmptyString => None
        end
      else if (nat_of_ascii c <? 32)%nat then None
      else match string_body s' with
           | Some (body, rest) => Some (String c body, rest)
           | None => None
           end
  end.

Definition literal (word : string) (v : value) (s : string) : option (value * string) :=
  if String.prefix word s
  then Some (v, substring (String.length word) (String.length s - String.length word) s)
  else None.

Fixpoint parse_value (fuel : nat) (s : string) {struct fuel} : option (value * string) :=
  match fuel with
  | O => None
  | S fuel' =>
      match skip_ws s with
      | EmptyString => None
      | String c rest =>
          if Ascii.eqb c "{" then
            match skip_ws rest with
            | String "}" rest' => Some (Obj [], rest')
            | _ => parse_members fuel' rest []
            end
          else if Ascii.eqb c "[" then
            match skip_ws rest with
            | String "]" rest' => Some (Arr [], rest')
            | _ => parse_items fuel' rest []
            end
          else if Ascii.eqb c dquote then
            match string_body rest with
            | Some (body, rest') => Some (Str body, rest')
            | None => None
            end
          else if Ascii.eqb c "-" then
            match unsigned rest with
            | Some (n, rest') => Some (Int (- n), rest')
            | None => None
            end
          else if Ascii.eqb c "t" then literal "true" (Bool true) (String c rest)
          else if Ascii.eqb c "f" then literal "false" (Bool false) (String c rest)
          else if Ascii.eqb c "n" then literal "null" Null (String c rest)
          else match unsigned (String c rest) with
               | Some (n, rest') => Some (Int n, rest')
               | None => None
               end
      end
  end
with parse_items (fuel : nat) (s : string) (acc : list value) {struct fuel}
  : option (value * string) :=
  match fuel with
  | O => None
  | S fuel' =>
      match parse_value fuel' s with
      | Some (v, s1) =>
          match skip_ws s1 with
          | String c s2 =>
              if Ascii.eqb c "," then parse_items fuel' s2 (v :: acc)
              else if Ascii.eqb c "]" then Some (Arr (rev (v :: acc)), s2)
              else None
          | EmptyString => None
          end
      | None => None
      end
  end
with parse_members (fuel : nat) (s : string) (acc : list (string * value)) {struct fuel}
  : option (value * string) :=
  match fuel with
  | O => None
  | S fuel' =>
      match skip_ws s with
      | String q s0 =>
          if Ascii.eqb q dquote then
            match string_body s0 with
            | Some (k, s1) =>
                match skip_ws s1 with
                | String colon s2 =>
                    if Ascii.eqb colon ":" then
                      match parse_value fuel' s2 with
                      | Some (v, s3) =>
                          match skip_ws s3 with
                          | String c s4 =>
                              if Ascii.eqb c "," then parse_members fuel' s4 (Dict.set k v acc)
                              else if Ascii.eqb c "}" then Some (Obj (Dict.set k v acc), s4)
                              else None
                          | EmptyString => None
                          end
                      | None => None
                      end
                    else None
                | EmptyString => None
                end
            | None => None
            end
          else None
      | EmptyString => None
      end
  end.

(** [json.loads] on the fragment: [None] for a [JSONDecodeError]. *)
Definition loads (doc : list byte) : option value :=
  let s := string_of_list_byte doc in
  match parse_value (S (String.length s)) s with
  | Some (v, rest) =>
      match skip_ws rest with
      | EmptyString => Some v
      | String _ _ => None
      end
  | None => None
  end.

End Json.

(* ================================================================== *)
(** ** The catalog: what [self.metadata] holds *)

(** One element of ["versions"]. *)
Record version_info : Type := {
  version : Z;
  timestamp : string;
  size : Z;
  hash : string;
  path : string
}.

(** One value of [self.metadata]. *)
Record entry : Type := {
  name : string;
  versions : list version_info;
  current_version : Z
}.

Definition catalog : Type := Dict.t entry.

(** The engine object. [metadata_file] and [files_dir] are set once in
    [__init__] from [vault_dir] and never assigned again: they are read
    off [vault_dir] here. *)
Record DataVault : Type := {
  vault_dir : Pathlib.PurePath;
  metadata : catalog
}.

Definition metadata_file (v : DataVault) : Pathlib.PurePath :=
  (vault_dir v / "metadata.json")%path.
Definition files_dir (v : DataVault) : Pathlib.PurePath :=
  (vault_dir v / "files")%path.

(** The catalog as the value [json.dump] is given. *)
Definition version_info_to_json (r : version_info) : Json.value :=
  Json.Obj [ ("version", Json.Int (version r));
             ("timestamp", Json.Str (timestamp r));
             ("size", Json.Int (size r));
             ("hash", Json.Str (hash r));
             ("path", Json.Str (path r)) ].

Definition entry_to_json (e : entry) : Json.value :=
  Json.Obj [ ("name", Json.Str (name e));
             ("versions", Json.Arr (map version_info_to_json (versions e)));
             ("current_version", Json.Int (current_version e)) ].

Definition catalog_to_json (c : catalog) : Json.value :=
  Json.Obj (map (fun kv => (fst kv, entry_to_json (snd kv))) c).

(** [l[i]] on a Python list: a negative index counts from the end. *)
Definition py_index {A} (l : list A) (i : Z) : outcome A :=
  let n := Z.of_nat (List.length l) in
  let j := if (i <? 0)%Z then i + n else i in
  if (j <? 0)%Z || (n <=? j)%Z then Raise IndexError
  else match nth_error l (Z.to_nat j) with
       | Some x => Return x
       | None => Raise IndexError
       end.

(** The argument of [f.read(4096)]. *)
Definition chunk_size : nat := 4096.

(** [for chunk in iter(lambda: f.read(4096), b""): sha256.update(chunk)]:
    [rest] is what the file object has not handed out yet. Every turn
    takes a non-empty chunk, so [fuel] above the length of [rest] is never
    used up. *)
Fixpoint feed_chunks (fuel : nat) (rest : list byte) (sha256 : Hashlib.sha256)
  : Hashlib.sha256 :=
  match fuel with
  | O => sha256
  | S fuel' =>
      match firstn chunk_size rest with
      | [] => sha256
      | chunk => feed_chunks fuel' (skipn chunk_size rest) (Hashlib.update sha256 chunk)
      end
  end.

(** The hash object of [calculate_hash] when its loop is over, for a file
    object that hands out [content]. *)
Definition hashed (content : list byte) : Hashlib.sha256 :=
  feed_chunks (S (List.length content)) content Hashlib.new.

(** The hashing of [calculate_hash], once the file is open. *)
Definition hash_content (content : list byte) : string :=
  let sha256 := hashed content in
  substring 0 16 (Hashlib.hexdigest sha256).

(* ================================================================== *)
(** ** The engine *)

(** The places where an operation calls into the operating system. *)
Inductive io_point : Type :=
| io_open_rb      (* the source of add_file: the stat of source.exists(), then
                     calculate_hash: open(file_path, 'rb') and its reads *)
| io_mkdir        (* add_file: version_dir.mkdir *)
| io_copy2        (* add_file, export_file: shutil.copy2 *)
| io_stat         (* add_file: source.stat() *)
| io_open_w       (* save_metadata: open(metadata_file, 'w') and json.dump *)
| io_rmtree       (* delete_file: shutil.rmtree *)
| io_open_r       (* load_metadata: open(metadata_file, 'r') and json.load *)
| io_mkdir_vault  (* __init__: vault_dir.mkdir *)
| io_mkdir_files. (* __init__: files_dir.mkdir *)

(** What one call gets from outside: the unexpected I/O fault, if any,
    each system call of the operation meets (disk full, permission denied),
    and the wall clock. *)
Record env : Type := {
  fault : io_point -> option exn;
  now : string  (* datetime.now().isoformat() *)
}.

Definition quiet (timestamp : string) : env :=
  {| fault := fun _ => None; now := timestamp |}.

(** The engine object and the file system it works on. *)
Record state : Type := { self : DataVault; disk : Fs.world }.

Definition with_metadata (s : state) (m : catalog) : state :=
  {| self := {| vault_dir := vault_dir (self s); metadata := m |}; disk := disk s |}.
Definition with_disk (s : state) (w : Fs.world) : state :=
  {| self := self s; disk := w |}.

(** Computations that read and write the state and may raise; what was
    written before a raise stays written. *)
Definition M (A : Type) : Type := state -> outcome A * state.

Definition ret {A} (a : A) : M A := fun s => (Return a, s).
Definition raise {A} (e : exn) : M A := fun s => (Raise e, s).
Definition bind {A B} (m : M A) (k : A -> M B) : M B :=
  fun s => match m s with
           | (Return a, s') => k a s'
           | (Raise e, s') => (Raise e, s')
           end.

Notation "x <- m ;; k" := (bind m (fun x => k))
  (at level 61, m at next level, right associativity).
Notation "m ;;; k" := (bind m (fun _ => k))
  (at level 61, right associativity).

Definition lift {A} (o : outcome A) : M A := fun s => (o, s).
Definition get_metadata : M catalog := fun s => (Return (metadata (self s)), s).
Definition set_metadata (m : catalog) : M unit := fun s => (Return tt, with_metadata s m).

(** What a system call comes to at [pt]: the fault it meets there, else
    what the file system makes of it. *)
Definition sys {A} (ev : env) (pt : io_point) (r : outcome A) : outcome A :=
  match fault ev pt with
  | Some e => Raise e
  | None => r
  end.

(** A system call that only reads. *)
Definition io_get {A} (ev : env) (pt : io_point) (f : Fs.world -> outcome A) : M A :=
  fun s => (sys ev pt (f (disk s)), s).

(** A system call that changes the file system. *)
Definition io_do (ev : env) (pt : io_point) (f : Fs.world -> outcome Fs.world) : M unit :=
  fun s => match sys ev pt (f (disk s)) with
           | Return w => (Return tt, with_disk s w)
           | Raise e => (Raise e, s)
           end.

(** [Path.exists()] swallows the errors of its [stat] that say nothing is
    there ([ENOENT], [ENOTDIR]; [EBADF] and [ELOOP] have no counterpart
    here) and [ValueError]; it raises any other again. *)
Definition ignore_error (e : exn) : bool :=
  match e with
  | FileNotFoundError | NotADirectoryError | ValueError | JSONDecodeError => true
  | _ => false
  end.

(** [p.exists()], given the fault its [stat] meets, if any (a name too
    long, no permission to search a directory above). *)
Definition stat_exists (stat_fault : option exn) (w : Fs.world) (p : Pathlib.PurePath)
  : outcome bool :=
  match stat_fault with
  | Some e => if ignore_error e then Return false else Raise e
  | None => Return (Fs.exists_ w p)
  end.

(** On the paths the engine builds under its own directory no fault of
    the [stat] is considered: the callers pass [None] there. *)
Definition path_exists (stat_fault : option exn) (p : Pathlib.PurePath) : M bool :=
  fun s => (stat_exists stat_fault (disk s) p, s).

(** [self.metadata[file_name]]. *)
Definition getitem (file_name : string) : M entry :=
  fun s => match Dict.get file_name (metadata (self s)) with
           | Some e => (Return e, s)
           | None => (Raise KeyError, s)
           end.

(** [self.metadata[file_name][field] = ...], through [update]. *)
Definition setitem (file_name : string) (update : entry -> entry) : M unit :=
  e <- getitem file_name ;;
  m <- get_metadata ;;
  set_metadata (Dict.set file_name (update e) m).

(** One call on the engine, as the presentation layer makes them. *)
Inductive call : Type :=
| AddFile (ev : env) (source_path : string)
| RollbackVersion (ev : env) (file_name : string) (version_index : Z)
| ExportFile (ev : env) (file_name dest_path : string)
| DeleteFile (ev : env) (file_name : string).

Section Engine.

(** The text codec of the [json] module: [json.dump(obj, f, indent=2)] as
    the bytes that reach the file, and [json.load] with [None] for a
    [JSONDecodeError]. No operation depends on the concrete syntax. *)
Variable json_dumps : Json.value -> list byte.
Variable json_loads : list byte -> option Json.value.

(** [load_metadata], on the file system alone: the engine object is not
    built yet. Whatever value the document decodes to is returned. *)
Definition load_metadata (ev : env) (metadata_file : Pathlib.PurePath) (w : Fs.world)
  : outcome Json.value :=
  if Fs.exists_ w metadata_file then
    match sys ev io_open_r (Fs.read_bytes w metadata_file) with
    | Raise e => Raise e
    | Return doc =>
        match json_loads doc with
        | Some j => Return j
        | None => Raise JSONDecodeError
        end
    end
  else Return (Json.Obj []).

(** [DataVault.__init__]: the two directories, then the catalog as loaded.
    Returns the attributes of the new object. *)
Definition init (ev : env) (vault_dir : string) (w : Fs.world)
  : outcome (Pathlib.PurePath * Json.value) * Fs.world :=
  let vault_dir := Pathlib.Path vault_dir in
  match sys ev io_mkdir_vault (Fs.mkdir false w vault_dir) with
  | Raise e => (Raise e, w)
  | Return w1 =>
      let metadata_file := (vault_dir / "metadata.json")%path in
      let files_dir := (vault_dir / "files")%path in
      match sys ev io_mkdir_files (Fs.mkdir false w1 files_dir) with
      | Raise e => (Raise e, w1)
      | Return w2 =>
          match load_metadata ev metadata_file w2 with
          | Raise e => (Raise e, w2)
          | Return j => (Return (vault_dir, j), w2)
          end
      end
  end.

Definition save_metadata (ev : env) : M unit :=
  fun s =>
    io_do ev io_open_w
      (fun w => Fs.write_bytes w (metadata_file (self s))
                  (json_dumps (catalog_to_json (metadata (self s))))) s.

Definition calculate_hash (ev : env) (file_path : Pathlib.PurePath) : M string :=
  content <- io_get ev io_open_rb (fun w => Fs.read_bytes w file_path) ;;
  ret (hash_content content).

Definition add_file (ev : env) (source_path : string) : M (bool * string) :=
  let source := Pathlib.Path source_path in
  found <- path_exists (fault ev io_open_rb) source ;;
  if negb found then ret (false, "File does not exist")
  else
    let file_name := Pathlib.name source in
    file_hash <- calculate_hash ev source ;;
    let timestamp := now ev in
    m <- get_metadata ;;
    (if negb (Dict.contains file_name m)
     then set_metadata
            (Dict.set file_name
               {| name := file_name; versions := []; current_version := 0 |} m)
     else ret tt) ;;;
    e <- getitem file_name ;;
    let version_num := Z.of_nat (List.length (versions e)) + 1 in
    v <- (fun s => (Return (self s), s)) ;;
    let version_dir := (files_dir v / file_name / ("v" ++ str_int version_num)%string)%path in
    io_do ev io_mkdir (fun w => Fs.mkdir true w version_dir) ;;;
    let dest := (version_dir / file_name)%path in
    io_do ev io_copy2 (fun w => Fs.copy2 w source dest) ;;;
    st_size <- io_get ev io_stat (fun w => Fs.st_size w source) ;;
    rel <- lift (Pathlib.relative_to dest (vault_dir v)) ;;
    let version_info :=
      {| version := version_num;
         timestamp := timestamp;
         size := st_size;
         hash := file_hash;
         path := Pathlib.str rel |} in
    setitem file_name
      (fun e => {| name := name e;
                   versions := versions e ++ [version_info];
                   current_version := current_version e |}) ;;;
    setitem file_name
      (fun e => {| name := name e;
                   versions := versions e;
                   current_version := version_num - 1 |}) ;;;
    save_metadata ev ;;;
    ret (true, ("File '" ++ file_name ++ "' added as version " ++ str_int version_num)%string).

Definition get_file_list (v : DataVault) : list string := Dict.keys (metadata v).

Definition get_versions (v : DataVault) (file_name : string) : list version_info :=
  match Dict.get file_name (metadata v) with
  | Some e => versions e
  | None => []
  end.

Definition get_current_version_index (v : DataVault) (file_name : string) : Z :=
  match Dict.get file_name (metadata v) with
  | Some e => current_version e
  | None => -1
  end.

Definition rollback_version (ev : env) (file_name : string) (version_index : Z)
  : M (bool * string) :=
  m <- get_metadata ;;
  if negb (Dict.contains file_name m) then ret (false, "File not found")
  else
    e <- getitem file_name ;;
    let versions' := versions e in
    if (version_index <? 0)%Z || (version_index >=? Z.of_nat (List.length versions'))%Z
    then ret (false, "Invalid version index")
    else
      setitem file_name
        (fun e => {| name := name e;
                     versions := versions e;
                     current_version := version_index |}) ;;;
      save_metadata ev ;;;
      ret (true, ("Rolled back to version " ++ str_int (version_index + 1))%string).

Definition export_file (ev : env) (file_name : string) (dest_path : string)
  : M (bool * string) :=
  m <- get_metadata ;;
  if negb (Dict.contains file_name m) then ret (false, "File not found")
  else
    e <- getitem file_name ;;
    let current_version := current_version e in
    version_info <- lift (py_index (versions e) current_version) ;;
    v <- (fun s => (Return (self s), s)) ;;
    let source := (vault_dir v / path version_info)%path in
    found <- path_exists None source ;;
    if negb found then ret (false, "Source file not found")
    else
      io_do ev io_copy2 (fun w => Fs.copy2_str w source dest_path) ;;;
      ret (true, ("File exported to " ++ dest_path)%string).

Definition delete_file (ev : env) (file_name : string) : M (bool * string) :=
  m <- get_metadata ;;
  if negb (Dict.contains file_name m) then ret (false, "File not found")
  else
    v <- (fun s => (Return (self s), s)) ;;
    let file_dir := (files_dir v / file_name)%path in
    found <- path_exists None file_dir ;;
    (if found then io_do ev io_rmtree (fun w => Fs.rmtree w file_dir) else ret tt) ;;;
    m <- get_metadata ;;
    set_metadata (Dict.del file_name m) ;;;
    save_metadata ev ;;;
    ret (true, ("File '" ++ file_name ++ "' deleted")%string).

Definition run (c : call) : M (bool * string) :=
  match c with
  | AddFile ev source_path => add_file ev source_path
  | RollbackVersion ev file_name version_index => rollback_version ev file_name version_index
  | ExportFile ev file_name dest_path => export_file ev file_name dest_path
  | DeleteFile ev file_name => delete_file ev file_name
  end.

End Engine.

(* ================================================================== *)
(** ** Vocabulary of the statements *)

(** The entry [add_file] creates for a file name it has not seen. *)
Definition new_entry (file_name : string) : entry :=
  {| name := file_name; versions := []; current_version := 0 |}.

(** The entry [add_file] works on: the one in the catalog, else a new one. *)
Definition entry_or_new (file_name : string) (m : catalog) : entry :=
  match Dict.get file_name m with
  | Some e => e
  | None => new_entry file_name
  end.

(** The catalog once [add_file] is past [if file_name not in self.metadata]. *)
Definition with_entry (file_name : string) (m : catalog) : catalog :=
  if Dict.contains file_name m then m else Dict.set file_name (new_entry file_name) m.

Definition next_version (file_name : string) (m : catalog) : Z :=
  Z.of_nat (List.length (versions (entry_or_new file_name m))) + 1.

(** An entry after [append] and the move of the pointer. *)
Definition with_new_version (e : entry) (r : version_info) : entry :=
  {| name := name e;
     versions := versions e ++ [r];
     current_version := Z.of_nat (List.length (versions e)) + 1 - 1 |}.

(** [files/<file_name>/v<n>] and the content file in it, under the vault. *)
Definition version_dir_of (v : DataVault) (file_name : string) (n : Z) : Pathlib.PurePath :=
  (files_dir v / file_name / ("v" ++ str_int n)%string)%path.

Definition content_file (v : DataVault) (file_name : string) (n : Z) : Pathlib.PurePath :=
  (version_dir_of v file_name n / file_name)%path.

(** The record [add_file] appends. *)
Definition new_record (ev : env) (n : Z) (st_size : Z) (content : list byte)
           (rel : Pathlib.PurePath) : version_info :=
  {| version := n;
     timestamp := now ev;
     size := st_size;
     hash := hash_content content;
     path := Pathlib.str rel |}.

(** The file system once the tree at [p], if there is one, is gone. *)
Definition without (w : Fs.world) (p : Pathlib.PurePath) : Fs.world :=
  match Fs.locate w p with
  | Return k => match Fs.nodes w k with Some _ => Fs.prune k w | None => w end
  | Raise _ => w
  end.

(** What [open(file_path, 'rb')] and the reads that follow it come to in
    [calculate_hash]: the content, or the exception raised. *)
Definition opened (ev : env) (s : state) (source : Pathlib.PurePath) : outcome (list byte) :=
  sys ev io_open_rb (Fs.read_bytes (disk s) source).

(** The document [save_metadata] writes for a catalog. *)
Definition document (json_dumps : Json.value -> list byte) (m : catalog) : Fs.node :=
  Fs.File (json_dumps (catalog_to_json m)).

(** A call that leaves the versions of [file_name] alone: one on another
    file name, or one that never touches [versions]. *)
Definition beside (file_name : string) (c : call) : Prop :=
  match c with
  | AddFile _ source_path => Pathlib.name (Pathlib.Path source_path) <> file_name
  | DeleteFile _ other => other <> file_name
  | RollbackVersion _ _ _ | ExportFile _ _ _ => True
  end.

(** [history file_name s n s']: from [s] the engine was driven to [s'], with
    [n] successful [add_file] calls whose source is named [file_name]. In
    between come calls {!beside} that name, [add_file] calls for it that
    are turned down, and changes to the file system made from outside. *)
Inductive history (json_dumps : Json.value -> list byte) (file_name : string) (s : state)
  : nat -> state -> Prop :=
| history_start : history json_dumps file_name s 0 s
| history_add n s1 ev source_path msg s2 :
    history json_dumps file_name s n s1 ->
    Pathlib.name (Pathlib.Path source_path) = file_name ->
    add_file json_dumps ev source_path s1 = (Return (true, msg), s2) ->
    history json_dumps file_name s (S n) s2
| history_turned_down n s1 ev source_path msg s2 :
    history json_dumps file_name s n s1 ->
    add_file json_dumps ev source_path s1 = (Return (false, msg), s2) ->
    history json_dumps file_name s n s2
| history_beside n s1 c o s2 :
    history json_dumps file_name s n s1 ->
    beside file_name c ->
    run json_dumps c s1 = (o, s2) ->
    history json_dumps file_name s n s2
| history_outside n s1 w :
    history json_dumps file_name s n s1 ->
    history json_dumps file_name s n (with_disk s1 w).

(** *** The schema of the persisted catalog, as the specification words it

    Section 6 of the specification: the document is an object mapping each
    file name to [{ name, versions: [ { version: integer, timestamp:
    string, size: integer, hash: string, path: string }, ... ],
    current_version: integer }]. [schema_catalog] reads a JSON value
    against that description; the code has no such step. *)

Definition field (k : string) (j : Json.value) : option Json.value :=
  match j with
  | Json.Obj members => Dict.get k members
  | _ => None
  end.

Fixpoint all_some {A : Type} (l : list (option A)) : option (list A) :=
  match l with
  | [] => Some []
  | Some a :: l' => option_map (cons a) (all_some l')
  | None :: _ => None
  end.

Definition schema_version_info (j : Json.value) : option version_info :=
  match field "version" j, field "timestamp" j, field "size" j,
        field "hash" j, field "path" j with
  | Some (Json.Int v), Some (Json.Str t), Some (Json.Int sz),
    Some (Json.Str h), Some (Json.Str p) =>
      Some {| version := v; timestamp := t; size := sz; hash := h; path := p |}
  | _, _, _, _, _ => None
  end.

Definition schema_entry (j : Json.value) : option entry :=
  match field "name" j, field "versions" j, field "current_version" j with
  | Some (Json.Str n), Some (Json.Arr vs), Some (Json.Int cv) =>
      option_map (fun vs' => {| name := n; versions := vs'; current_version := cv |})
                 (all_some (map schema_version_info vs))
  | _, _, _ => None
  end.

Definition schema_catalog (j : Json.value) : option catalog :=
  match j with
  | Json.Obj members =>
      all_some (map (fun kv => option_map (pair (fst kv)) (schema_entry (snd kv))) members)
  | _ => None
  end.

(** [extends w w']: every node of [w] is in [w'], unchanged. *)
Definition extends (w w' : Fs.world) : Prop :=
  Fs.cwd w' = Fs.cwd w /\
  forall k n, Fs.nodes w k = Some n -> Fs.nodes w' k = Some n.

(* ================================================================== *)
(** ** A small world to run the engine in *)

Module Demo.

Definition file (text : string) : Fs.node := Fs.File (list_byte_of_string text).

(** [/home] is the working directory; it holds four files in all. *)
Definition tree : list (Fs.key * Fs.node) :=
  [ ([], Fs.Dir);
    (["home"], Fs.Dir);
    (["home"; "report.txt"], file "hello");
    (["home"; "empty.bin"], file "");
    (["home"; "a"], Fs.Dir);
    (["home"; "a"; "notes.txt"], file "first");
    (["home"; "b"], Fs.Dir);
    (["home"; "b"; "notes.txt"], file "second") ].

Fixpoint find (t : list (Fs.key * Fs.node)) (k : Fs.key) : option Fs.node :=
  match t with
  | [] => None
  | (k', n) :: t' => if Fs.key_eqb k k' then Some n else find t' k
  end.

Definition home : Fs.world := {| Fs.cwd := ["home"]; Fs.nodes := find tree |}.

Definition at_time (t : string) : env := quiet t.

(** The copy runs out of disk space. *)
Definition disk_full : env :=
  {| fault := fun pt => match pt with io_copy2 => Some OSError | _ => None end;
     now := "2024-01-03T09:00:00" |}.

(** [DataVault()] in [/home]: the engine with its default directory. *)
Definition fresh : state :=
  {| self := {| vault_dir := Pathlib.Path "data_vault"; metadata := [] |};
     disk := snd (init Json.loads (at_time "") "data_vault" home) |}.

(** [report.txt], holding ["hello"], is added. *)
Definition added : state :=
  snd (add_file Json.dumps (at_time "2024-01-01T10:00:00") "report.txt" fresh).

(** The user rewrites [report.txt]. *)
Definition edited : state :=
  with_disk added (Fs.put ["home"; "report.txt"] (file "hello world") (disk added)).

(** It is added again, under another spelling of its path. *)
Definition added_twice : state :=
  snd (add_file Json.dumps (at_time "2024-01-02T10:00:00") "/home/./report.txt" edited).

Definition rolled_back : state :=
  snd (rollback_version Json.dumps (at_time "") "report.txt" 0 added_twice).

Definition exported : state :=
  snd (export_file (at_time "") "report.txt" "/home/out.txt" rolled_back).

Definition deleted : state :=
  snd (delete_file Json.dumps (at_time "") "report.txt" exported).

(** The empty file is added and exported. *)
Definition added_empty : state :=
  snd (add_file Json.dumps (at_time "2024-01-04T10:00:00") "empty.bin" fresh).

Definition exported_empty : state :=
  snd (export_file (at_time "") "empty.bin" "/home/copy.bin" added_empty).

(** Two files of one name, from two directories. *)
Definition added_a : state :=
  snd (add_file Json.dumps (at_time "2024-01-05T10:00:00") "a/notes.txt" fresh).

Definition added_b : state :=
  snd (add_file Json.dumps (at_time "2024-01-06T10:00:00") "b/notes.txt" added_a).

(** A vault whose catalog document is the given text. *)
Definition with_document (text : string) : Fs.world :=
  Fs.put ["home"; "data_vault"; "metadata.json"] (file text)
    (Fs.put ["home"; "data_vault"; "files"] Fs.Dir
       (Fs.put ["home"; "data_vault"] Fs.Dir home)).

(** The [stat] of the source fails: its name is too long for the file
    system, or a directory above it may not be searched. *)
Definition stat_fails : env :=
  {| fault := fun pt => match pt with io_open_rb => Some OSError | _ => None end;
     now := "2024-01-07T09:00:00" |}.

(** A name of 300 letters, above the 255 bytes a file name may have. *)
Definition long_name : string := string_of_list_ascii (repeat "x"%char 300).



End Demo.
(** * How the operations end

    One relation per operation: each constructor is one way through the
    body of the method, with the state it leaves. *)

Unset Implicit Arguments.

Section Ends.

Variable json_dumps : Json.value -> list byte.

(** Where [add_file] can raise between the set-up of the entry and the
    append of the record, and the file system it leaves there. *)
Inductive add_file_faults (ev : env) (source version_dir dest base : Pathlib.PurePath)
          (w : Fs.world) : exn -> Fs.world -> Prop :=
| faults_in_mkdir e :
    sys ev io_mkdir (Fs.mkdir true w version_dir) = Raise e ->
    add_file_faults ev source version_dir dest base w e w
| faults_in_copy2 e w1 :
    sys ev io_mkdir (Fs.mkdir true w version_dir) = Return w1 ->
    sys ev io_copy2 (Fs.copy2 w1 source dest) = Raise e ->
    add_file_faults ev source version_dir dest base w e w1
| faults_in_stat e w1 w2 :
    sys ev io_mkdir (Fs.mkdir true w version_dir) = Return w1 ->
    sys ev io_copy2 (Fs.copy2 w1 source dest) = Return w2 ->
    sys ev io_stat (Fs.st_size w2 source) = Raise e ->
    add_file_faults ev source version_dir dest base w e w2
| faults_in_relative_to e w1 w2 st_size :
    sys ev io_mkdir (Fs.mkdir true w version_dir) = Return w1 ->
    sys ev io_copy2 (Fs.copy2 w1 source dest) = Return w2 ->
    sys ev io_stat (Fs.st_size w2 source) = Return st_size ->
    Pathlib.relative_to dest base = Raise e ->
    add_file_faults ev source version_dir dest base w e w2.

(** Every way [add_file] can end. *)
Inductive add_file_ends (ev : env) (source_path : string) (s : state)
  : outcome (bool * string) -> state -> Prop :=
| add_missing :
    (* [exists()] says no *)
    stat_exists (fault ev io_open_rb) (disk s) (Pathlib.Path source_path) = Return false ->
    add_file_ends ev source_path s (Return (false, "File does not exist")) s
| add_unreadable e :
    (* the [stat] of [exists()] raises, or the source is there and the
       open or a read of it raises *)
    stat_exists (fault ev io_open_rb) (disk s) (Pathlib.Path source_path) <> Return false ->
    opened ev s (Pathlib.Path source_path) = Raise e ->
    add_file_ends ev source_path s (Raise e) s
| add_no_record e content w :
    let source := Pathlib.Path source_path in
    let file_name := Pathlib.name source in
    let n := next_version file_name (metadata (self s)) in
    Fs.exists_ (disk s) source = true ->
    opened ev s source = Return content ->
    add_file_faults ev source (version_dir_of (self s) file_name n)
      (content_file (self s) file_name n) (vault_dir (self s)) (disk s) e w ->
    add_file_ends ev source_path s (Raise e)
      (with_disk (with_metadata s (with_entry file_name (metadata (self s)))) w)
| add_recorded content w1 w2 st_size rel o w3 :
    let source := Pathlib.Path source_path in
    let file_name := Pathlib.name source in
    let m := metadata (self s) in
    let n := next_version file_name m in
    let r := new_record ev n st_size content rel in
    let m' := Dict.set file_name (with_new_version (entry_or_new file_name m) r) m in
    Fs.exists_ (disk s) source = true ->
    opened ev s source = Return content ->
    sys ev io_mkdir (Fs.mkdir true (disk s) (version_dir_of (self s) file_name n)) = Return w1 ->
    sys ev io_copy2 (Fs.copy2 w1 source (content_file (self s) file_name n)) = Return w2 ->
    sys ev io_stat (Fs.st_size w2 source) = Return st_size ->
    Pathlib.relative_to (content_file (self s) file_name n) (vault_dir (self s)) = Return rel ->
    (* the catalog is updated; what is left is the write of the document *)
    match sys ev io_open_w
            (Fs.write_bytes w2 (metadata_file (self s)) (json_dumps (catalog_to_json m'))) with
    | Return w =>
        o = Return (true, ("File '" ++ file_name ++ "' added as version " ++ str_int n)%string)
        /\ w3 = w
    | Raise e => o = Raise e /\ w3 = w2
    end ->
    add_file_ends ev source_path s o (with_disk (with_metadata s m') w3).

(** Every way [export_file] can end. *)
Inductive export_file_ends (ev : env) (file_name dest_path : string) (s : state)
  : outcome (bool * string) -> state -> Prop :=
| export_unknown :
    Dict.contains file_name (metadata (self s)) = false ->
    export_file_ends ev file_name dest_path s (Return (false, "File not found")) s
| export_no_current e :
    Dict.get file_name (metadata (self s)) = Some e ->
    py_index (versions e) (current_version e) = Raise IndexError ->
    export_file_ends ev file_name dest_path s (Raise IndexError) s
| export_content_missing e r :
    Dict.get file_name (metadata (self s)) = Some e ->
    py_index (versions e) (current_version e) = Return r ->
    Fs.exists_ (disk s) (vault_dir (self s) / path r)%path = false ->
    export_file_ends ev file_name dest_path s (Return (false, "Source file not found")) s
| export_fault e r x :
    Dict.get file_name (metadata (self s)) = Some e ->
    py_index (versions e) (current_version e) = Return r ->
    Fs.exists_ (disk s) (vault_dir (self s) / path r)%path = true ->
    sys ev io_copy2
      (Fs.copy2_str (disk s) (vault_dir (self s) / path r)%path dest_path) = Raise x ->
    export_file_ends ev file_name dest_path s (Raise x) s
| export_done e r w :
    Dict.get file_name (metadata (self s)) = Some e ->
    py_index (versions e) (current_version e) = Return r ->
    Fs.exists_ (disk s) (vault_dir (self s) / path r)%path = true ->
    sys ev io_copy2
      (Fs.copy2_str (disk s) (vault_dir (self s) / path r)%path dest_path) = Return w ->
    export_file_ends ev file_name dest_path s
      (Return (true, ("File exported to " ++ dest_path)%string)) (with_disk s w).

(** Every way [delete_file] can end. *)
Inductive delete_file_ends (ev : env) (file_name : string) (s : state)
  : outcome (bool * string) -> state -> Prop :=
| delete_unknown :
    Dict.contains file_name (metadata (self s)) = false ->
    delete_file_ends ev file_name s (Return (false, "File not found")) s
| delete_rmtree_fault x :
    Dict.contains file_name (metadata (self s)) = true ->
    Fs.exists_ (disk s) (files_dir (self s) / file_name)%path = true ->
    sys ev io_rmtree (Fs.rmtree (disk s) (files_dir (self s) / file_name)%path) = Raise x ->
    delete_file_ends ev file_name s (Raise x) s
| delete_removed o w :
    let w1 := without (disk s) (files_dir (self s) / file_name)%path in
    let m' := Dict.del file_name (metadata (self s)) in
    Dict.contains file_name (metadata (self s)) = true ->
    Fs.lookup (disk s) (files_dir (self s) / file_name)%path = None \/
    (fault ev io_rmtree = None /\
     Fs.lookup (disk s) (files_dir (self s) / file_name)%path = Some Fs.Dir) ->
    match sys ev io_open_w
            (Fs.write_bytes w1 (metadata_file (self s)) (json_dumps (catalog_to_json m'))) with
    | Return w' => o = Return (true, ("File '" ++ file_name ++ "' deleted")%string) /\ w = w'
    | Raise x => o = Raise x /\ w = w1
    end ->
    delete_file_ends ev file_name s o (with_disk (with_metadata s m') w).

End Ends.

Unset Implicit Arguments.

(* ================================================================== *)
(** ** The vault on the file system, and the shape of its catalog *)

(** The vault directory is named without [".."]: its path, and the paths
    the engine builds under it, go straight down from where they start. *)
Definition plain_vault (v : DataVault) : Prop :=
  Forall (fun c => Pathlib.plain c = true) (Pathlib.parts (vault_dir v)).

(** The keys of the vault's own nodes, for such a vault. *)
Definition vault_key (s : state) : Fs.key :=
  Fs.start (disk s) (vault_dir (self s)) ++ Pathlib.parts (vault_dir (self s)).

Definition document_key (s : state) : Fs.key := vault_key s ++ ["metadata.json"].

Definition tree_key (s : state) (file_name : string) : Fs.key :=
  vault_key s ++ ["files"; file_name].

Definition content_key (s : state) (file_name : string) (n : Z) : Fs.key :=
  tree_key s file_name ++ [("v" ++ str_int n)%string; file_name].

(** The locator [add_file] stores in the record of version [n]:
    [files/<file_name>/v<n>/<file_name>]. *)
Definition locator (file_name : string) (n : Z) : string :=
  String.concat "/" ["files"; file_name; ("v" ++ str_int n)%string; file_name].

(** The record at index [i] of an entry is numbered [i + 1] and points at
    the content file of that number. *)
Definition record_shape (file_name : string) (i : nat) (r : version_info) : Prop :=
  version r = Z.of_nat i + 1 /\ path r = locator file_name (version r).

(** An entry sits under its own name, a plain one, and each of its
    records is in shape. *)
Definition entry_shape (k : string) (e : entry) : Prop :=
  Pathlib.plain k = true /\
  name e = k /\
  forall i r, nth_error (versions e) i = Some r -> record_shape k i r.

Definition catalog_shape (m : catalog) : Prop :=
  forall k e, Dict.get k m = Some e -> entry_shape k e.

(** Every entry's [current_version] is the index of one of its records. *)
Definition pointers_in_range (m : catalog) : Prop :=
  forall k e, Dict.get k m = Some e ->
    0 <= current_version e < Z.of_nat (List.length (versions e)).

(** [session allowed outside s s']: the engine was driven from [s] to [s']
    by calls the predicate [allowed] lets through (it sees the state a call
    starts in and how the call ends), with changes made to the file system
    from outside, as far as [outside] lets them through, in between. *)
Inductive session (json_dumps : Json.value -> list byte)
          (allowed : state -> call -> outcome (bool * string) -> Prop)
          (outside : state -> Fs.world -> Prop) (s : state) : state -> Prop :=
| session_start : session json_dumps allowed outside s s
| session_call s1 c o s2 :
    session json_dumps allowed outside s s1 ->
    allowed s1 c o ->
    run json_dumps c s1 = (o, s2) ->
    session json_dumps allowed outside s s2
| session_outside s1 w :
    session json_dumps allowed outside s s1 ->
    outside s1 w ->
    session json_dumps allowed outside s (with_disk s1 w).

(** Any call, however it ends; any change from outside. *)
Definition any_call (_ : state) (_ : call) (_ : outcome (bool * string)) : Prop := True.
Definition any_change (_ : state) (_ : Fs.world) : Prop := True.

(** Calls that return, with success or with a failure, but do not raise. *)
Definition returns (_ : state) (_ : call) (o : outcome (bool * string)) : Prop :=
  is_raise o = false.


(* ================================================================== *)
(** ** What a call may touch on the file system *)

(** [keeps F T w w']: from [w] to [w'] every node is kept as it is, but
    for the nodes under a key in [T] (trees that may be removed) and the
    regular files at a key in [F] (files that may be written over). A
    directory outside [T] is never replaced. *)
Definition keeps (F T : Fs.key -> Prop) (w w' : Fs.world) : Prop :=
  Fs.cwd w' = Fs.cwd w /\
  forall k n, Fs.nodes w k = Some n -> ~ T k -> n = Fs.Dir \/ ~ F k ->
              Fs.nodes w' k = Some n.

(** Where [export_file] writes: the destination, or the file of the
    stored content's name inside it when it is a directory. *)
Definition export_target (s : state) (file_name dest_path : string) (k : Fs.key) : Prop :=
  exists e r,
    Dict.get file_name (metadata (self s)) = Some e /\
    py_index (versions e) (current_version e) = Return r /\
    Fs.locate (disk s)
      (Fs.copy2_target (disk s) (vault_dir (self s) / path r)%path (Pathlib.Path dest_path))
    = Return k.

(** The regular files a call may write, or write over. *)
Definition overwrites (s : state) (c : call) (k : Fs.key) : Prop :=
  match c with
  | AddFile _ source_path =>
      let file_name := Pathlib.name (Pathlib.Path source_path) in
      let n := next_version file_name (metadata (self s)) in
      k = content_key s file_name n \/
      k = content_key s file_name n ++ [file_name] \/
      k = document_key s
  | RollbackVersion _ _ _ => k = document_key s
  | ExportFile _ file_name dest_path => export_target s file_name dest_path k
  | DeleteFile _ _ => k = document_key s
  end.

(** The nodes a call may remove. *)
Definition removes (s : state) (c : call) (k : Fs.key) : Prop :=
  match c with
  | DeleteFile _ file_name => Fs.is_prefix (tree_key s file_name) k = true
  | _ => False
  end.


(* ================================================================== *)
(** ** Stored versions *)

(** The record at index [i] of [file_name] is [r], and its stored content
    reads as the bytes [B]. *)
Definition holds (s : state) (file_name : string) (i : nat)
           (r : version_info) (B : list byte) : Prop :=
  nth_error (get_versions (self s) file_name) i = Some r /\
  Fs.read_bytes (disk s) (vault_dir (self s) / path r)%path = Return B.

(** A destination that does not lead into the vault directory. *)
Definition outside_the_vault (s : state) (dest_path : string) : Prop :=
  forall k, Fs.locate (disk s) (Pathlib.Path dest_path) = Return k ->
            Fs.is_prefix (vault_key s) k = false.

(** The calls that leave the versions of [file_name] standing: all but
    [delete_file] of that name and [export_file] aimed into the vault. *)
Definition spares (file_name : string) (s : state) (c : call)
           (_ : outcome (bool * string)) : Prop :=
  match c with
  | DeleteFile _ other => other <> file_name
  | ExportFile _ _ dest_path => outside_the_vault s dest_path
  | AddFile _ _ | RollbackVersion _ _ _ => True
  end.

(** A change from outside that leaves the vault directory, what is in it
    and the directories that lead to it as they are. *)
Definition spares_the_vault (s : state) (w : Fs.world) : Prop :=
  Fs.cwd w = Fs.cwd (disk s) /\
  forall k, Fs.is_prefix k (vault_key s) = true \/ Fs.is_prefix (vault_key s) k = true ->
            Fs.nodes w k = Fs.nodes (disk s) k.


Set Implicit Arguments.


(* ================================================================== *)
(** * Facts *)

Unset Implicit Arguments.

Section Facts.

(** Every fact holds whatever the [json] text codec is. *)
Variable json_dumps : Json.value -> list byte.
Variable json_loads : list byte -> option Json.value.

(** ** Dictionaries *)

Lemma Dict_get_set_same (V : Type) (k : string) (v : V) (d : Dict.t V) :
  Dict.get k (Dict.set k v d) = Some v.
Proof.
  induction d as [|[k' v'] d IH]; simpl.
  - now rewrite String.eqb_refl.
  - destruct (k' =? k) eqn:E; simpl; rewrite E; auto.
Qed.

Lemma Dict_get_set_other (V : Type) (k k' : string) (v : V) (d : Dict.t V) :
  k' <> k -> Dict.get k' (Dict.set k v d) = Dict.get k' d.
Proof.
  intros Hne. induction d as [|[k0 v0] d IH]; simpl.
  - destruct (k =? k') eqn:E; auto.
    apply String.eqb_eq in E. congruence.
  - destruct (k0 =? k) eqn:E; simpl.
    + apply String.eqb_eq in E. subst k0.
      destruct (k =? k') eqn:E'; auto.
      apply String.eqb_eq in E'. congruence.
    + destruct (k0 =? k'); auto.
Qed.

Lemma Dict_set_set (V : Type) (k : string) (v v' : V) (d : Dict.t V) :
  Dict.set k v' (Dict.set k v d) = Dict.set k v' d.
Proof.
  induction d as [|[k0 v0] d IH]; simpl.
  - now rewrite String.eqb_refl.
  - destruct (k0 =? k) eqn:E; simpl; rewrite E; congruence.
Qed.

Lemma Dict_set_absent (V : Type) (k : string) (v : V) (d : Dict.t V) :
  Dict.get k d = None -> Dict.set k v d = d ++ [(k, v)].
Proof.
  induction d as [|[k0 v0] d IH]; simpl; auto.
  destruct (k0 =? k); [discriminate|].
  intros H. now rewrite IH.
Qed.

Lemma Dict_keys_set_present (V : Type) (k : string) (v v0 : V) (d : Dict.t V) :
  Dict.get k d = Some v0 -> Dict.keys (Dict.set k v d) = Dict.keys d.
Proof.
  unfold Dict.keys.
  induction d as [|[k1 v1] d IH]; simpl; [discriminate|].
  destruct (k1 =? k) eqn:E; simpl; auto.
  intros H. now rewrite IH.
Qed.

Lemma Dict_get_del_same (V : Type) (k : string) (d : Dict.t V) :
  Dict.get k (Dict.del k d) = None.
Proof.
  unfold Dict.del.
  induction d as [|[k0 v0] d IH]; simpl; auto.
  destruct (k0 =? k) eqn:E; simpl; auto.
  now rewrite E.
Qed.

Lemma Dict_get_del_other (V : Type) (k k' : string) (d : Dict.t V) :
  k' <> k -> Dict.get k' (Dict.del k d) = Dict.get k' d.
Proof.
  intros Hne. unfold Dict.del.
  induction d as [|[k0 v0] d IH]; simpl; auto.
  destruct (k0 =? k) eqn:E; simpl.
  - apply String.eqb_eq in E. subst k0.
    destruct (k =? k') eqn:E'; auto.
    apply String.eqb_eq in E'. congruence.
  - destruct (k0 =? k'); auto.
Qed.

Lemma Dict_keys_del (V : Type) (k : string) (d : Dict.t V) :
  ~ In k (Dict.keys (Dict.del k d)).
Proof.
  unfold Dict.keys, Dict.del.
  induction d as [|[k0 v0] d IH]; simpl; auto.
  destruct (k0 =? k) eqn:E; simpl; auto.
  intros [H|H]; auto.
  subst k0. now rewrite String.eqb_refl in E.
Qed.

Lemma Dict_keys_del_other (V : Type) (k k' : string) (d : Dict.t V) :
  k' <> k -> In k' (Dict.keys d) -> In k' (Dict.keys (Dict.del k d)).
Proof.
  intros Hne. unfold Dict.keys, Dict.del.
  induction d as [|[k0 v0] d IH]; simpl; auto.
  intros [H|H].
  - subst k0. destruct (k' =? k) eqn:E; simpl; auto.
    apply String.eqb_eq in E. congruence.
  - destruct (k0 =? k); simpl; auto.
Qed.

Lemma Dict_contains_get (V : Type) (k : string) (d : Dict.t V) :
  Dict.contains k d = true <-> exists v, Dict.get k d = Some v.
Proof.
  unfold Dict.contains. destruct (Dict.get k d); split; intros H; eauto.
  - discriminate.
  - destruct H; discriminate.
Qed.

Lemma Dict_contains_false (V : Type) (k : string) (d : Dict.t V) :
  Dict.contains k d = false <-> Dict.get k d = None.
Proof.
  unfold Dict.contains. destruct (Dict.get k d); split; intros H; auto; discriminate.
Qed.

Lemma Dict_get_In_keys (V : Type) (k : string) (d : Dict.t V) :
  In k (Dict.keys d) <-> exists v, Dict.get k d = Some v.
Proof.
  unfold Dict.keys.
  induction d as [|[k0 v0] d IH]; simpl.
  - split; [tauto|]. intros [v H]; discriminate.
  - destruct (k0 =? k) eqn:E.
    + apply String.eqb_eq in E. split; eauto.
    + apply String.eqb_neq in E. rewrite <- IH. tauto.
Qed.

(** ** The file system *)

Lemma key_eqb_eq (a b : Fs.key) : Fs.key_eqb a b = true <-> a = b.
Proof.
  revert b. induction a as [|x a IH]; destruct b as [|y b]; simpl.
  - split; reflexivity.
  - split; [discriminate|congruence].
  - split; [discriminate|congruence].
  - rewrite andb_true_iff, String.eqb_eq, IH.
    split; [intros [-> ->]; reflexivity|intros H; inversion H; auto].
Qed.

Lemma key_eqb_refl (a : Fs.key) : Fs.key_eqb a a = true.
Proof. now apply key_eqb_eq. Qed.

Lemma key_eqb_neq (a b : Fs.key) : Fs.key_eqb a b = false <-> a <> b.
Proof.
  rewrite <- key_eqb_eq. destruct (Fs.key_eqb a b); split; congruence.
Qed.

Lemma is_prefix_app (p k : Fs.key) : Fs.is_prefix p (p ++ k) = true.
Proof.
  induction p as [|x p IH]; simpl; auto.
  now rewrite String.eqb_refl.
Qed.

Lemma is_prefix_spec (p k : Fs.key) :
  Fs.is_prefix p k = true <-> exists rest, k = p ++ rest.
Proof.
  revert k. induction p as [|x p IH]; intros k; simpl.
  - split; eauto.
  - destruct k as [|y k].
    + split; [discriminate|]. intros [rest H]. discriminate.
    + rewrite andb_true_iff, String.eqb_eq, IH. split.
      * intros [-> [rest ->]]. eauto.
      * intros [rest H]. inversion H. eauto.
Qed.

Lemma nodes_put_same (k : Fs.key) (n : Fs.node) (w : Fs.world) :
  Fs.nodes (Fs.put k n w) k = Some n.
Proof. simpl. now rewrite key_eqb_refl. Qed.

Lemma nodes_put_other (k k' : Fs.key) (n : Fs.node) (w : Fs.world) :
  k' <> k -> Fs.nodes (Fs.put k n w) k' = Fs.nodes w k'.
Proof. intros H. simpl. apply key_eqb_neq in H. now rewrite H. Qed.

(** Replacing anything but a directory by a regular file leaves every
    directory where it was. *)
Lemma is_dir_at_put_file (w : Fs.world) (km k : Fs.key) (b : list byte) :
  Fs.is_dir_at w km = false ->
  Fs.is_dir_at (Fs.put km (Fs.File b) w) k = Fs.is_dir_at w k.
Proof.
  intros H. unfold Fs.is_dir_at. simpl.
  destruct (Fs.key_eqb k km) eqn:E; auto.
  apply key_eqb_eq in E. subst k. unfold Fs.is_dir_at in H.
  destruct (Fs.nodes w km) as [[|]|]; try discriminate; auto.
Qed.

Lemma enter_Return (w : Fs.world) (cur : Fs.key) (c : string) (k : Fs.key) :
  Fs.enter w cur c = Return k <->
  Fs.is_dir_at w cur = true /\
  (if c =? ".." then Fs.is_dir_at w (removelast cur) = true /\ k = removelast cur
   else k = cur ++ [c]).
Proof.
  unfold Fs.enter. destruct (Fs.is_dir_at w cur); simpl.
  - destruct (c =? "..").
    + destruct (Fs.is_dir_at w (removelast cur)); split.
      * intros H; inversion H; auto.
      * intros [_ [_ ->]]; auto.
      * discriminate.
      * intros [_ [H _]]; discriminate.
    + split; [intros H; inversion H; auto|intros [_ ->]; auto].
  - split; [discriminate|]. intros [H _]; discriminate.
Qed.

(** Path resolution only looks at which keys are directories. *)
Lemma walk_same_dirs (w w' : Fs.world) :
  (forall k, Fs.is_dir_at w' k = Fs.is_dir_at w k) ->
  forall comps cur k,
    Fs.walk w cur comps = Return k -> Fs.walk w' cur comps = Return k.
Proof.
  intros Hd. induction comps as [|c comps IH]; simpl; intros cur k H; auto.
  destruct (Fs.enter w cur c) as [nxt|] eqn:E; [|discriminate].
  apply enter_Return in E.
  assert (E' : Fs.enter w' cur c = Return nxt).
  { apply enter_Return. rewrite !Hd. exact E. }
  rewrite E'. auto.
Qed.

Lemma walk_put_file (w : Fs.world) (km : Fs.key) (b : list byte) :
  Fs.is_dir_at w km = false ->
  forall comps cur k,
    Fs.walk w cur comps = Return k ->
    Fs.walk (Fs.put km (Fs.File b) w) cur comps = Return k.
Proof.
  intros H. apply walk_same_dirs. intros k. now apply is_dir_at_put_file.
Qed.

Lemma locate_Return (w : Fs.world) (p : Pathlib.PurePath) (k : Fs.key) :
  Fs.locate w p = Return k <->
  Fs.is_dir_at w (Fs.start w p) = true /\
  Fs.walk w (Fs.start w p) (Pathlib.parts p) = Return k.
Proof.
  unfold Fs.locate. destruct (Fs.is_dir_at w (Fs.start w p)).
  - tauto.
  - split; [discriminate|]. intros [H _]; discriminate.
Qed.

Lemma locate_put_file (w : Fs.world) (km : Fs.key) (b : list byte) (p : Pathlib.PurePath) (k : Fs.key) :
  Fs.is_dir_at w km = false ->
  Fs.locate w p = Return k ->
  Fs.locate (Fs.put km (Fs.File b) w) p = Return k.
Proof.
  intros H Hl. apply locate_Return in Hl. destruct Hl as [Hs Hw].
  apply locate_Return. split.
  - change (Fs.start (Fs.put km (Fs.File b) w) p) with (Fs.start w p).
    now rewrite is_dir_at_put_file.
  - now apply walk_put_file.
Qed.

Lemma read_bytes_Return (w : Fs.world) (p : Pathlib.PurePath) (b : list byte) :
  Fs.read_bytes w p = Return b <->
  exists k, Fs.locate w p = Return k /\ Fs.nodes w k = Some (Fs.File b).
Proof.
  unfold Fs.read_bytes. destruct (Fs.locate w p) as [k|e].
  - destruct (Fs.nodes w k) as [[c|]|] eqn:E; split.
    + intros H; inversion H; subst; eauto.
    + intros [k' [H1 H2]]. inversion H1; subst. congruence.
    + discriminate.
    + intros [k' [H1 H2]]. inversion H1; subst. congruence.
    + discriminate.
    + intros [k' [H1 H2]]. inversion H1; subst. congruence.
  - split; [discriminate|]. intros [k [H _]]; discriminate.
Qed.

(** A file that could be read before another key was overwritten by a
    regular file still reads the same. *)
Lemma read_bytes_put_file (w : Fs.world) (km : Fs.key) (b c : list byte) (p : Pathlib.PurePath) :
  Fs.is_dir_at w km = false ->
  Fs.locate w p <> Return km ->
  Fs.read_bytes w p = Return c ->
  Fs.read_bytes (Fs.put km (Fs.File b) w) p = Return c.
Proof.
  intros Hd Hne H. apply read_bytes_Return in H. destruct H as [k [Hk Hn]].
  apply read_bytes_Return. exists k. split.
  - now apply locate_put_file.
  - rewrite nodes_put_other; auto. congruence.
Qed.

Lemma write_bytes_writable (w : Fs.world) (p : Pathlib.PurePath) (b : list byte) :
  Fs.writable w p = true ->
  exists k, Fs.locate w p = Return k /\ Fs.is_dir_at w k = false /\
            Fs.write_bytes w p b = Return (Fs.put k (Fs.File b) w).
Proof.
  unfold Fs.writable, Fs.write_bytes, Fs.is_dir_at.
  destruct (Fs.locate w p) as [k|e]; [|discriminate].
  intros H. exists k.
  destruct (Fs.nodes w k) as [[c|]|]; simpl in *; try discriminate; auto.
Qed.

Lemma write_bytes_Return (w w' : Fs.world) (p : Pathlib.PurePath) (b : list byte) :
  Fs.write_bytes w p b = Return w' ->
  exists k, Fs.locate w p = Return k /\ Fs.is_dir_at w k = false /\
            w' = Fs.put k (Fs.File b) w.
Proof.
  unfold Fs.write_bytes, Fs.is_dir_at.
  destruct (Fs.locate w p) as [k|e]; [|discriminate].
  intros H. exists k.
  destruct (Fs.nodes w k) as [[c|]|]; simpl in *; try discriminate;
    inversion H; auto.
Qed.

(** ** Stepping through a computation *)

Lemma bind_inv (A B : Type) (m : M A) (k : A -> M B) (s s' : state) (o : outcome B) :
  bind m k s = (o, s') ->
  (exists a s1, m s = (Return a, s1) /\ k a s1 = (o, s')) \/
  (exists e, m s = (Raise e, s') /\ o = Raise e).
Proof.
  unfold bind. destruct (m s) as [[a|e] s1]; intros H.
  - left. eauto.
  - right. inversion H; subst. eauto.
Qed.

Lemma sys_Return (A : Type) (ev : env) (pt : io_point) (r : outcome A) (a : A) :
  sys ev pt r = Return a <-> fault ev pt = None /\ r = Return a.
Proof.
  unfold sys. destruct (fault ev pt); split; try tauto; try discriminate.
  intros [H _]; discriminate.
Qed.

Lemma sys_quiet (A : Type) (ev : env) (pt : io_point) (r : outcome A) :
  fault ev pt = None -> sys ev pt r = r.
Proof. intros H. unfold sys. now rewrite H. Qed.

Lemma io_get_inv (A : Type) (ev : env) (pt : io_point) (f : Fs.world -> outcome A)
      (s s' : state) (o : outcome A) :
  io_get ev pt f s = (o, s') ->
  s' = s /\ o = sys ev pt (f (disk s)).
Proof. unfold io_get. intros H; inversion H; auto. Qed.

Lemma io_do_inv (ev : env) (pt : io_point) (f : Fs.world -> outcome Fs.world)
      (s s' : state) (o : outcome unit) :
  io_do ev pt f s = (o, s') ->
  (exists w, sys ev pt (f (disk s)) = Return w /\ o = Return tt /\ s' = with_disk s w) \/
  (exists e, sys ev pt (f (disk s)) = Raise e /\ o = Raise e /\ s' = s).
Proof.
  unfold io_do. destruct (sys ev pt (f (disk s))) as [w|e]; intros H; inversion H; subst.
  - left. eauto.
  - right. eauto.
Qed.

Lemma setitem_known (file_name : string) (update : entry -> entry) (s : state) (e : entry) :
  Dict.get file_name (metadata (self s)) = Some e ->
  setitem file_name update s =
    (Return tt, with_metadata s (Dict.set file_name (update e) (metadata (self s)))).
Proof.
  intros H. unfold setitem, bind, getitem, get_metadata, set_metadata. now rewrite H.
Qed.

Lemma getitem_known (file_name : string) (s : state) (e : entry) :
  Dict.get file_name (metadata (self s)) = Some e ->
  getitem file_name s = (Return e, s).
Proof. intros H. unfold getitem. now rewrite H. Qed.

(** Local definitions, as the constructors of the [_ends] relations bring
    them in, are unfolded before equations are compared. *)
Lemma stat_exists_true (ev : env) (pt : io_point) (w : Fs.world) (p : Pathlib.PurePath) :
  stat_exists (fault ev pt) w p = Return true <->
  fault ev pt = None /\ Fs.exists_ w p = true.
Proof.
  unfold stat_exists. destruct (fault ev pt) as [e|].
  - destruct (ignore_error e); split; try discriminate; intros [H _]; discriminate.
  - split; [intros H; inversion H; auto|intros [_ ->]; reflexivity].
Qed.

Lemma stat_exists_Raise (ev : env) (pt : io_point) (w : Fs.world) (p : Pathlib.PurePath)
      (e : exn) :
  stat_exists (fault ev pt) w p = Raise e <->
  fault ev pt = Some e /\ ignore_error e = false.
Proof.
  unfold stat_exists. destruct (fault ev pt) as [e0|].
  - destruct (ignore_error e0) eqn:E; split; try discriminate.
    + intros [H1 H2]. inversion H1; subst. congruence.
    + intros H. inversion H; subst. auto.
    + intros [H1 _]. now inversion H1.
  - split; [discriminate|intros [H _]; discriminate].
Qed.

Ltac unlet := repeat match goal with x := _ |- _ => subst x end.

(** ** Persisting the catalog *)

Lemma save_metadata_eq (ev : env) (s : state) :
  save_metadata json_dumps ev s =
    match sys ev io_open_w
            (Fs.write_bytes (disk s) (metadata_file (self s))
               (json_dumps (catalog_to_json (metadata (self s))))) with
    | Return w => (Return tt, with_disk s w)
    | Raise e => (Raise e, s)
    end.
Proof. reflexivity. Qed.

Lemma save_metadata_ok (ev : env) (s : state) :
  fault ev io_open_w = None ->
  Fs.writable (disk s) (metadata_file (self s)) = true ->
  exists km,
    Fs.locate (disk s) (metadata_file (self s)) = Return km /\
    Fs.is_dir_at (disk s) km = false /\
    save_metadata json_dumps ev s =
      (Return tt, with_disk s (Fs.put km (document json_dumps (metadata (self s))) (disk s))).
Proof.
  intros Hf Hw.
  destruct (write_bytes_writable _ _ (json_dumps (catalog_to_json (metadata (self s)))) Hw)
    as [km [Hk [Hd Hwr]]].
  exists km. repeat split; auto.
  rewrite save_metadata_eq, sys_quiet, Hwr by exact Hf. reflexivity.
Qed.

Lemma save_metadata_Return (ev : env) (s s' : state) (u : unit) :
  save_metadata json_dumps ev s = (Return u, s') ->
  exists km,
    fault ev io_open_w = None /\
    Fs.locate (disk s) (metadata_file (self s)) = Return km /\
    Fs.is_dir_at (disk s) km = false /\
    s' = with_disk s (Fs.put km (document json_dumps (metadata (self s))) (disk s)).
Proof.
  rewrite save_metadata_eq.
  destruct (sys ev io_open_w _) as [w'|e] eqn:E; [|discriminate].
  intros H. inversion H; subst. clear H.
  apply sys_Return in E. destruct E as [Hf E].
  apply write_bytes_Return in E. destruct E as [km [H1 [H2 ->]]].
  exists km. auto.
Qed.

Lemma save_metadata_Raise (ev : env) (s s' : state) (e : exn) :
  save_metadata json_dumps ev s = (Raise e, s') -> s' = s.
Proof.
  rewrite save_metadata_eq.
  destruct (sys ev io_open_w _); intros H; now inversion H.
Qed.

(** ** rollback_version *)

Lemma rollback_version_unknown (ev : env) (file_name : string) (version_index : Z) (s : state) :
  Dict.contains file_name (metadata (self s)) = false ->
  rollback_version json_dumps ev file_name version_index s = (Return (false, "File not found"), s).
Proof.
  intros H. unfold rollback_version, bind, get_metadata. now rewrite H.
Qed.

Lemma rollback_version_out_of_range (ev : env) (file_name : string) (version_index : Z)
      (s : state) (e : entry) :
  Dict.get file_name (metadata (self s)) = Some e ->
  version_index < 0 \/ Z.of_nat (List.length (versions e)) <= version_index ->
  rollback_version json_dumps ev file_name version_index s = (Return (false, "Invalid version index"), s).
Proof.
  intros He Hr. unfold rollback_version, bind, get_metadata, getitem.
  unfold Dict.contains. rewrite He. simpl. rewrite He.
  replace ((version_index <? 0)%Z || (version_index >=? Z.of_nat (List.length (versions e)))%Z)
    with true; auto.
  symmetry. apply orb_true_iff. rewrite Z.ltb_lt, Z.geb_le. tauto.
Qed.

(** What a rollback within range does to the state, whatever becomes of
    the write of the catalog document that follows. *)
Lemma rollback_version_in_range (ev : env) (file_name : string) (version_index : Z)
      (s : state) (e : entry) :
  Dict.get file_name (metadata (self s)) = Some e ->
  0 <= version_index < Z.of_nat (List.length (versions e)) ->
  rollback_version json_dumps ev file_name version_index s =
    let s1 := with_metadata s
                (Dict.set file_name
                   {| name := name e; versions := versions e; current_version := version_index |}
                   (metadata (self s))) in
    match save_metadata json_dumps ev s1 with
    | (Return _, s2) =>
        (Return (true, ("Rolled back to version " ++ str_int (version_index + 1))%string), s2)
    | (Raise x, s2) => (Raise x, s2)
    end.
Proof.
  intros He Hr. unfold rollback_version, bind, get_metadata, getitem, setitem.
  unfold Dict.contains. rewrite He. simpl. rewrite He.
  replace ((version_index <? 0)%Z || (version_index >=? Z.of_nat (List.length (versions e)))%Z)
    with false.
  2:{ symmetry. apply orb_false_iff. rewrite Z.ltb_ge, Z.geb_leb, Z.leb_gt. lia. }
  unfold bind, getitem, get_metadata, set_metadata. rewrite He. simpl.
  destruct (save_metadata json_dumps ev _) as [[u|x] s2]; reflexivity.
Qed.

(** ** add_file, step by step *)

Lemma Dict_set_same_id (V : Type) (k : string) (v : V) (d : Dict.t V) :
  Dict.get k d = Some v -> Dict.set k v d = d.
Proof.
  induction d as [|[k0 v0] d IH]; simpl; [discriminate|].
  destruct (k0 =? k) eqn:E.
  - intros H; inversion H; subst. reflexivity.
  - intros H. now rewrite IH.
Qed.

Lemma get_with_entry (file_name : string) (m : catalog) :
  Dict.get file_name (with_entry file_name m) = Some (entry_or_new file_name m).
Proof.
  unfold with_entry, entry_or_new, Dict.contains.
  destruct (Dict.get file_name m) eqn:E; auto.
  apply Dict_get_set_same.
Qed.

Lemma set_with_entry (file_name : string) (e : entry) (m : catalog) :
  Dict.set file_name e (with_entry file_name m) = Dict.set file_name e m.
Proof.
  unfold with_entry. destruct (Dict.contains file_name m); auto.
  apply Dict_set_set.
Qed.

Lemma calculate_hash_eq (ev : env) (file_path : Pathlib.PurePath) (s : state) :
  calculate_hash ev file_path s =
    match opened ev s file_path with
    | Return content => (Return (hash_content content), s)
    | Raise e => (Raise e, s)
    end.
Proof.
  unfold calculate_hash, bind, io_get, opened, ret.
  now destruct (sys ev io_open_rb _).
Qed.

Lemma add_file_inv (ev : env) (source_path : string) (s s' : state) (o : outcome (bool * string)) :
  add_file json_dumps ev source_path s = (o, s') ->
  add_file_ends json_dumps ev source_path s o s'.
Proof.
  unfold add_file. intros H.
  apply bind_inv in H. unfold path_exists in H.
  destruct H as [[found [s0 [H0 H]]]|[e [H0 ->]]].
  2:{ inversion H0 as [[Hgd Hs]]. subst s'. apply add_unreadable.
      - rewrite Hgd. discriminate.
      - apply stat_exists_Raise in Hgd. destruct Hgd as [Hf _].
        unfold opened, sys. now rewrite Hf. }
  inversion H0 as [[Hgd Hs]]. subst s0. clear H0.
  destruct found; simpl in H.
  2:{ inversion H; subst. now constructor. }
  pose proof (proj1 (stat_exists_true _ _ _ _) Hgd) as [_ Hex].
  apply bind_inv in H. rewrite calculate_hash_eq in H.
  destruct (opened ev s (Pathlib.Path source_path)) as [content|e] eqn:Hop.
  2:{ destruct H as [[a [s1 [H1 _]]]|[e' [H1 ->]]]; [discriminate|].
      inversion H1; subst. constructor; [rewrite Hgd; discriminate|exact Hop]. }
  destruct H as [[file_hash [s1 [H1 H]]]|[e' [H1 _]]]; [|discriminate].
  inversion H1; subst file_hash s1. clear H1.
  apply bind_inv in H. destruct H as [[m [s1 [H1 H]]]|[e' [H1 _]]]; [|discriminate].
  inversion H1; subst m s1. clear H1.
  set (file_name := Pathlib.name (Pathlib.Path source_path)) in *.
  apply bind_inv in H.
  assert (Hs1 : (if negb (Dict.contains file_name (metadata (self s)))
                 then set_metadata (Dict.set file_name
                        {| name := file_name; versions := []; current_version := 0 |}
                        (metadata (self s)))
                 else ret tt) s
                = (Return tt, with_metadata s (with_entry file_name (metadata (self s))))).
  { unfold with_entry. destruct (Dict.contains file_name (metadata (self s))); simpl; auto.
    unfold ret, with_metadata. destruct s as [[vd md] w]; reflexivity. }
  rewrite Hs1 in H. clear Hs1.
  destruct H as [[u [s1 [H1 H]]]|[e' [H1 _]]]; [|discriminate].
  inversion H1; subst u s1. clear H1.
  set (s1 := with_metadata s (with_entry file_name (metadata (self s)))) in *.
  assert (Hget : Dict.get file_name (metadata (self s1))
                 = Some (entry_or_new file_name (metadata (self s)))).
  { apply get_with_entry. }
  apply bind_inv in H. rewrite (getitem_known _ _ _ Hget) in H.
  destruct H as [[e [s2 [H1 H]]]|[e' [H1 _]]]; [|discriminate].
  inversion H1; subst e s2. clear H1.
  apply bind_inv in H. destruct H as [[v [s2 [H1 H]]]|[e' [H1 _]]]; [|discriminate].
  inversion H1; subst v s2. clear H1.
  fold (next_version file_name (metadata (self s))) in H.
  set (n := next_version file_name (metadata (self s))) in *.
  change ((files_dir (self s1) / file_name / ("v" ++ str_int n)%string)%path)
    with (version_dir_of (self s) file_name n) in H.
  change ((version_dir_of (self s) file_name n / file_name)%path)
    with (content_file (self s) file_name n) in H.
  change (vault_dir (self s1)) with (vault_dir (self s)) in H.
  (* mkdir *)
  apply bind_inv in H. destruct H as [[u [s2 [H1 H]]]|[e' [H1 ->]]].
  2:{ apply io_do_inv in H1. destruct H1 as [[w [_ [Hc _]]]|[e0 [Hmk [He ->]]]]; [discriminate|].
      inversion He; subst e0.
      replace s1 with (with_disk s1 (disk s)) by (destruct s as [[? ?] ?]; reflexivity).
      apply add_no_record with (content := content); auto.
      now apply faults_in_mkdir. }
  apply io_do_inv in H1. destruct H1 as [[w1 [Hmk [_ ->]]]|[e0 [_ [Hc _]]]]; [|discriminate].
  simpl in Hmk.
  (* copy2 *)
  apply bind_inv in H. destruct H as [[u' [s3 [H1 H]]]|[e' [H1 ->]]].
  2:{ apply io_do_inv in H1. destruct H1 as [[w [_ [Hc _]]]|[e0 [Hcp [He ->]]]]; [discriminate|].
      inversion He; subst e0.
      apply add_no_record with (content := content); auto.
      now apply faults_in_copy2. }
  apply io_do_inv in H1. destruct H1 as [[w2 [Hcp [_ ->]]]|[e0 [_ [Hc _]]]]; [|discriminate].
  simpl in Hcp.
  (* stat *)
  apply bind_inv in H. destruct H as [[st_size [s4 [H1 H]]]|[e' [H1 ->]]].
  2:{ apply io_get_inv in H1. destruct H1 as [-> Hst]. simpl in Hst.
      apply add_no_record with (content := content); auto.
      now apply faults_in_stat with (w1 := w1). }
  apply io_get_inv in H1. destruct H1 as [-> Hst]. simpl in Hst. symmetry in Hst.
  (* relative_to *)
  apply bind_inv in H. unfold lift in H.
  destruct H as [[rel [s4 [H1 H]]]|[e' [H1 ->]]].
  2:{ inversion H1; subst.
      apply add_no_record with (content := content); auto.
      now apply faults_in_relative_to with (w1 := w1) (st_size := st_size). }
  inversion H1 as [[Hrel Hs4]]. subst s4. clear H1.
  (* the two assignments *)
  set (r := {| version := n; timestamp := now ev; size := st_size;
               hash := hash_content content; path := Pathlib.str rel |}) in *.
  set (s3 := with_disk (with_disk s1 w1) w2) in *.
  assert (Hget3 : Dict.get file_name (metadata (self s3))
                  = Some (entry_or_new file_name (metadata (self s)))) by exact Hget.
  apply bind_inv in H. rewrite (setitem_known _ _ _ _ Hget3) in H.
  destruct H as [[u2 [s4 [H1 H]]]|[e' [H1 _]]]; [|discriminate].
  inversion H1; subst u2 s4. clear H1.
  set (e1 := {| name := name (entry_or_new file_name (metadata (self s)));
                versions := versions (entry_or_new file_name (metadata (self s))) ++ [r];
                current_version := current_version (entry_or_new file_name (metadata (self s))) |}) in *.
  set (s4 := with_metadata s3 (Dict.set file_name e1 (metadata (self s3)))) in *.
  assert (Hget4 : Dict.get file_name (metadata (self s4)) = Some e1).
  { apply Dict_get_set_same. }
  apply bind_inv in H. rewrite (setitem_known _ _ _ _ Hget4) in H.
  destruct H as [[u3 [s5 [H1 H]]]|[e' [H1 _]]]; [|discriminate].
  inversion H1; subst u3 s5. clear H1.
  cbv beta in H.
  match type of H with context [with_metadata s4 ?X] =>
    assert (Hm' : X = Dict.set file_name
                        (with_new_version (entry_or_new file_name (metadata (self s)))
                           (new_record ev n st_size content rel))
                        (metadata (self s)))
      by (simpl; rewrite Dict_set_set, set_with_entry; reflexivity);
    rewrite Hm' in H; clear Hm'
  end.
  set (m' := Dict.set file_name
               (with_new_version (entry_or_new file_name (metadata (self s)))
                  (new_record ev n st_size content rel))
               (metadata (self s))) in *.
  (* save_metadata *)
  apply bind_inv in H. rewrite save_metadata_eq in H.
  change (disk (with_metadata s4 m')) with w2 in H.
  change (metadata_file (self (with_metadata s4 m'))) with (metadata_file (self s)) in H.
  change (metadata (self (with_metadata s4 m'))) with m' in H.
  destruct (sys ev io_open_w _) as [w3|e3] eqn:Hsave.
  - destruct H as [[u4 [s6 [H1 H]]]|[e' [H1 _]]]; [|discriminate].
    inversion H1; subst u4 s6. clear H1.
    unfold ret in H. inversion H; subst o s'. clear H.
    change (add_file_ends json_dumps ev source_path s
              (Return (true, ("File '" ++ file_name ++ "' added as version " ++ str_int n)%string))
              (with_disk (with_metadata s m') w3)).
    apply add_recorded with (content := content) (w1 := w1) (w2 := w2)
                            (st_size := st_size) (rel := rel); auto.
    fold file_name n m'. rewrite Hsave. auto.
  - destruct H as [[u4 [s6 [H1 _]]]|[e' [H1 ->]]]; [discriminate|].
    inversion H1; subst e' s'. clear H1.
    change (add_file_ends json_dumps ev source_path s (Raise e3) (with_disk (with_metadata s m') w2)).
    apply add_recorded with (content := content) (w1 := w1) (w2 := w2)
                            (st_size := st_size) (rel := rel); auto.
    fold file_name n m'. rewrite Hsave. auto.
Qed.

(** ** rollback_version, export_file and delete_file, every outcome *)

Lemma rollback_version_inv (ev : env) (file_name : string) (version_index : Z)
      (s s' : state) (o : outcome (bool * string)) :
  rollback_version json_dumps ev file_name version_index s = (o, s') ->
  s' = s \/
  exists e w,
    Dict.get file_name (metadata (self s)) = Some e /\
    0 <= version_index < Z.of_nat (List.length (versions e)) /\
    s' = with_disk
           (with_metadata s
              (Dict.set file_name
                 {| name := name e; versions := versions e; current_version := version_index |}
                 (metadata (self s))))
           w.
Proof.
  intros H.
  destruct (Dict.get file_name (metadata (self s))) as [e|] eqn:He.
  - destruct (Z_lt_dec version_index 0) as [Hlo|Hlo].
    { rewrite (rollback_version_out_of_range ev _ _ _ _ He) in H by auto.
      inversion H; auto. }
    destruct (Z_le_dec (Z.of_nat (List.length (versions e))) version_index) as [Hhi|Hhi].
    { rewrite (rollback_version_out_of_range ev _ _ _ _ He) in H by auto.
      inversion H; auto. }
    rewrite (rollback_version_in_range ev _ _ _ _ He) in H by lia.
    cbv zeta in H.
    destruct (save_metadata json_dumps ev _) as [[u|x] s2] eqn:Hs.
    + apply save_metadata_Return in Hs. destruct Hs as [km [_ [_ [_ ->]]]].
      inversion H; subst. right. exists e. eexists. repeat split; try lia.
    + apply save_metadata_Raise in Hs. subst s2.
      inversion H; subst. right. exists e, (disk s). repeat split; try lia.
  - rewrite rollback_version_unknown in H.
    + inversion H; auto.
    + now apply Dict_contains_false.
Qed.

Lemma py_index_Return (A : Type) (l : list A) (i : Z) (x : A) :
  py_index l i = Return x ->
  exists j, nth_error l j = Some x /\
            (Z.of_nat j = i \/ Z.of_nat j = i + Z.of_nat (List.length l)).
Proof.
  unfold py_index.
  destruct (i <? 0)%Z eqn:Hi.
  - destruct ((i + Z.of_nat (List.length l) <? 0)%Z || _) eqn:Hb; [discriminate|].
    apply orb_false_iff in Hb. destruct Hb as [Hb _]. apply Z.ltb_ge in Hb.
    destruct (nth_error l _) as [y|] eqn:Hn; [|discriminate].
    intros H; inversion H; subst. eexists. split; eauto.
    right. apply Z2Nat.id. lia.
  - apply Z.ltb_ge in Hi.
    destruct ((i <? 0)%Z || _) eqn:Hb; [discriminate|].
    destruct (nth_error l _) as [y|] eqn:Hn; [|discriminate].
    intros H; inversion H; subst. eexists. split; eauto.
    left. apply Z2Nat.id. lia.
Qed.

Lemma py_index_in_range (A : Type) (l : list A) (i : nat) (x : A) :
  nth_error l i = Some x -> py_index l (Z.of_nat i) = Return x.
Proof.
  intros H. unfold py_index.
  assert (Hlt : (i < List.length l)%nat) by (apply nth_error_Some; congruence).
  replace (Z.of_nat i <? 0)%Z with false by (symmetry; apply Z.ltb_ge; lia).
  replace ((Z.of_nat i <? 0)%Z || (Z.of_nat (List.length l) <=? Z.of_nat i)%Z) with false.
  - now rewrite Nat2Z.id, H.
  - symmetry. apply orb_false_iff. split; [apply Z.ltb_ge|apply Z.leb_gt]; lia.
Qed.

Lemma py_index_Raise (A : Type) (l : list A) (i : Z) (x : exn) :
  py_index l i = Raise x -> x = IndexError.
Proof.
  unfold py_index.
  destruct (_ || _); [intros H; now inversion H|].
  destruct (nth_error l _); intros H; now inversion H.
Qed.

Lemma export_file_inv (ev : env) (file_name dest_path : string) (s s' : state)
      (o : outcome (bool * string)) :
  export_file ev file_name dest_path s = (o, s') ->
  export_file_ends ev file_name dest_path s o s'.
Proof.
  unfold export_file. intros H.
  apply bind_inv in H. destruct H as [[m [s0 [H0 H]]]|[x [H0 _]]]; [|discriminate].
  inversion H0; subst m s0. clear H0.
  destruct (Dict.contains file_name (metadata (self s))) eqn:Hc; simpl in H.
  2:{ inversion H; subst. now constructor. }
  apply Dict_contains_get in Hc. destruct Hc as [e He].
  apply bind_inv in H. rewrite (getitem_known _ _ _ He) in H.
  destruct H as [[e' [s0 [H0 H]]]|[x [H0 _]]]; [|discriminate].
  inversion H0; subst e' s0. clear H0.
  apply bind_inv in H. unfold lift in H.
  destruct H as [[r [s0 [H0 H]]]|[x [H0 ->]]].
  2:{ inversion H0 as [[Hi Hs]]. subst s'.
      pose proof (py_index_Raise _ _ _ _ Hi) as Hx. subst x.
      now apply export_no_current with (e := e). }
  inversion H0 as [[Hi Hs]]. subst s0. clear H0.
  apply bind_inv in H. destruct H as [[v [s0 [H0 H]]]|[x [H0 _]]]; [|discriminate].
  inversion H0; subst v s0. clear H0.
  apply bind_inv in H. unfold path_exists, stat_exists in H.
  destruct H as [[found [s0 [H0 H]]]|[x [H0 _]]]; [|discriminate].
  inversion H0 as [[Hf Hs]]. subst s0. clear H0.
  destruct found; simpl in H.
  2:{ inversion H; subst. now apply export_content_missing with (e := e) (r := r). }
  apply bind_inv in H. destruct H as [[u [s0 [H0 H]]]|[x [H0 ->]]].
  - apply io_do_inv in H0. destruct H0 as [[w [Hcp [_ ->]]]|[x [_ [Hx _]]]]; [|discriminate].
    inversion H; subst. now apply export_done with (e := e) (r := r).
  - apply io_do_inv in H0. destruct H0 as [[w [_ [Hx _]]]|[x' [Hcp [Hx ->]]]]; [discriminate|].
    inversion Hx; subst x'. now apply export_fault with (e := e) (r := r).
Qed.

Lemma rmtree_Return (w w' : Fs.world) (p : Pathlib.PurePath) :
  Fs.rmtree w p = Return w' ->
  Fs.lookup w p = Some Fs.Dir /\ w' = without w p.
Proof.
  unfold Fs.rmtree, Fs.lookup, without.
  destruct (Fs.locate w p) as [k|x]; [|discriminate].
  destruct (Fs.nodes w k) as [[c|]|]; try discriminate.
  intros H; inversion H; auto.
Qed.

Lemma without_absent (w : Fs.world) (p : Pathlib.PurePath) :
  Fs.exists_ w p = false -> without w p = w.
Proof.
  unfold Fs.exists_, Fs.lookup, without.
  destruct (Fs.locate w p) as [k|x]; auto.
  destruct (Fs.nodes w k); [discriminate|auto].
Qed.

Lemma delete_file_inv (ev : env) (file_name : string) (s s' : state)
      (o : outcome (bool * string)) :
  delete_file json_dumps ev file_name s = (o, s') ->
  delete_file_ends json_dumps ev file_name s o s'.
Proof.
  unfold delete_file. intros H.
  apply bind_inv in H. destruct H as [[m [s0 [H0 H]]]|[x [H0 _]]]; [|discriminate].
  inversion H0; subst m s0. clear H0.
  destruct (Dict.contains file_name (metadata (self s))) eqn:Hc; simpl in H.
  2:{ inversion H; subst. now constructor. }
  apply bind_inv in H. destruct H as [[v [s0 [H0 H]]]|[x [H0 _]]]; [|discriminate].
  inversion H0; subst v s0. clear H0.
  apply bind_inv in H. unfold path_exists, stat_exists in H.
  destruct H as [[found [s0 [H0 H]]]|[x [H0 _]]]; [|discriminate].
  inversion H0 as [[Hf Hs]]. subst s0. clear H0.
  apply bind_inv in H.
  assert (Hstep :
    (exists w1, (if found then io_do ev io_rmtree
                                (fun w => Fs.rmtree w (files_dir (self s) / file_name)%path)
                 else ret tt) s = (Return tt, with_disk s w1) /\
                w1 = without (disk s) (files_dir (self s) / file_name)%path /\
                (Fs.lookup (disk s) (files_dir (self s) / file_name)%path = None \/
                 (fault ev io_rmtree = None /\
                  Fs.lookup (disk s) (files_dir (self s) / file_name)%path = Some Fs.Dir))) \/
    (exists x, (if found then io_do ev io_rmtree
                               (fun w => Fs.rmtree w (files_dir (self s) / file_name)%path)
                else ret tt) s = (Raise x, s) /\
               found = true /\
               sys ev io_rmtree
                 (Fs.rmtree (disk s) (files_dir (self s) / file_name)%path) = Raise x)).
  { destruct found.
    - destruct (io_do ev io_rmtree _ s) as [o1 s1] eqn:Hio.
      apply io_do_inv in Hio. destruct Hio as [[w [Hrm [-> ->]]]|[x [Hrm [-> ->]]]].
      + apply sys_Return in Hrm. destruct Hrm as [Hfl Hrm].
        apply rmtree_Return in Hrm. destruct Hrm as [Hl ->].
        left. eexists. repeat split; auto.
      + right. exists x. auto.
    - left. exists (disk s). unfold ret. repeat split.
      + destruct s as [v w]; reflexivity.
      + symmetry. now apply without_absent.
      + left. unfold Fs.exists_ in Hf.
        destruct (Fs.lookup (disk s) _); [discriminate|auto]. }
  destruct Hstep as [[w1 [Hrun [Hw1 Hlook]]]|[x [Hrun [-> Hwhy]]]]; rewrite Hrun in H.
  2:{ destruct H as [[u [s0 [H0 _]]]|[x' [H0 ->]]]; [discriminate|].
      inversion H0; subst. now apply delete_rmtree_fault. }
  destruct H as [[u [s0 [H0 H]]]|[x' [H0 _]]]; [|discriminate].
  inversion H0; subst u s0. clear H0.
  apply bind_inv in H. destruct H as [[m [s0 [H0 H]]]|[x [H0 _]]]; [|discriminate].
  inversion H0; subst m s0. clear H0.
  apply bind_inv in H. destruct H as [[u [s0 [H0 H]]]|[x [H0 _]]]; [|discriminate].
  inversion H0; subst u s0. clear H0.
  simpl in H. subst w1.
  set (w1 := without (disk s) (files_dir (self s) / file_name)%path) in *.
  set (m' := Dict.del file_name (metadata (self s))) in *.
  apply bind_inv in H. rewrite save_metadata_eq in H.
  change (disk (with_metadata (with_disk s w1) m')) with w1 in H.
  change (metadata_file (self (with_metadata (with_disk s w1) m')))
    with (metadata_file (self s)) in H.
  change (metadata (self (with_metadata (with_disk s w1) m'))) with m' in H.
  destruct (sys ev io_open_w _) as [w3|x3] eqn:Hsave.
  - destruct H as [[u4 [s6 [H1 H]]]|[e' [H1 _]]]; [|discriminate].
    inversion H1; subst u4 s6. clear H1.
    unfold ret in H. inversion H; subst o s'. clear H.
    change (delete_file_ends json_dumps ev file_name s
              (Return (true, ("File '" ++ file_name ++ "' deleted")%string))
              (with_disk (with_metadata s m') w3)).
    apply delete_removed; auto.
    fold w1 m'. rewrite Hsave. auto.
  - destruct H as [[u4 [s6 [H1 _]]]|[e' [H1 ->]]]; [discriminate|].
    inversion H1; subst e' s'. clear H1.
    change (delete_file_ends json_dumps ev file_name s (Raise x3) (with_disk (with_metadata s m') w1)).
    apply delete_removed; auto.
    fold w1 m'. rewrite Hsave. auto.
Qed.

(** ** What the calls do to the versions of a file name *)

Lemma get_versions_entry_or_new (v : DataVault) (file_name : string) :
  get_versions v file_name = versions (entry_or_new file_name (metadata v)).
Proof.
  unfold get_versions, entry_or_new. now destruct (Dict.get file_name (metadata v)).
Qed.

Lemma get_with_entry_other (file_name other : string) (m : catalog) :
  other <> file_name -> Dict.get other (with_entry file_name m) = Dict.get other m.
Proof.
  intros H. unfold with_entry. destruct (Dict.contains file_name m); auto.
  now apply Dict_get_set_other.
Qed.

Lemma get_versions_with_entry (vd : Pathlib.PurePath) (file_name other : string) (m : catalog) :
  get_versions {| vault_dir := vd; metadata := with_entry file_name m |} other =
  get_versions {| vault_dir := vd; metadata := m |} other.
Proof.
  unfold get_versions. simpl.
  destruct (String.eqb_spec other file_name) as [->|Hne].
  - rewrite get_with_entry. unfold entry_or_new.
    now destruct (Dict.get file_name m).
  - now rewrite get_with_entry_other.
Qed.

(** A call to [add_file] never touches an entry under another key. *)
Lemma add_file_other_keys (ev : env) (source_path : string) (s s' : state)
      (o : outcome (bool * string)) (other : string) :
  add_file json_dumps ev source_path s = (o, s') ->
  other <> Pathlib.name (Pathlib.Path source_path) ->
  Dict.get other (metadata (self s')) = Dict.get other (metadata (self s)).
Proof.
  intros H Hne. apply add_file_inv in H.
  destruct H; simpl; auto.
  - now apply get_with_entry_other.
  - now apply Dict_get_set_other.
Qed.

(** What a successful [add_file] does to the catalog. *)
Lemma add_file_appends (ev : env) (source_path msg : string) (s s' : state) :
  add_file json_dumps ev source_path s = (Return (true, msg), s') ->
  let file_name := Pathlib.name (Pathlib.Path source_path) in
  exists r,
    version r = Z.of_nat (List.length (get_versions (self s) file_name)) + 1 /\
    timestamp r = now ev /\
    Dict.get file_name (metadata (self s')) =
      Some {| name := name (entry_or_new file_name (metadata (self s)));
              versions := get_versions (self s) file_name ++ [r];
              current_version := Z.of_nat (List.length (get_versions (self s) file_name)) |} /\
    metadata (self s') =
      Dict.set file_name
        {| name := name (entry_or_new file_name (metadata (self s)));
           versions := get_versions (self s) file_name ++ [r];
           current_version := Z.of_nat (List.length (get_versions (self s) file_name)) |}
        (metadata (self s)) /\
    vault_dir (self s') = vault_dir (self s).
Proof.
  intros H file_name. apply add_file_inv in H.
  inversion H as [| | |content w1 w2 st_size rel o w3 source fn m n r m' Hex Hop Hmk Hcp Hst Hrel Hend];
    subst.
  exists r. rewrite get_versions_entry_or_new.
  assert (Hm : m' = Dict.set file_name
                 {| name := name (entry_or_new file_name (metadata (self s)));
                    versions := versions (entry_or_new file_name (metadata (self s))) ++ [r];
                    current_version :=
                      Z.of_nat (List.length (versions (entry_or_new file_name (metadata (self s))))) |}
                 (metadata (self s))).
  { unfold m', with_new_version, fn, m, file_name, source. f_equal. f_equal. lia. }
  repeat split; auto.
  - simpl. rewrite Hm. apply Dict_get_set_same.
Qed.

(** Calls beside a file name leave its versions as they are. *)
Lemma run_beside (c : call) (file_name : string) (s s' : state) (o : outcome (bool * string)) :
  beside file_name c ->
  run json_dumps c s = (o, s') ->
  get_versions (self s') file_name = get_versions (self s) file_name.
Proof.
  destruct c as [ev source_path|ev other version_index|ev other dest_path|ev other];
    simpl; intros Hb H.
  - unfold get_versions. now rewrite (add_file_other_keys _ _ _ _ _ _ H) by auto.
  - apply rollback_version_inv in H. destruct H as [->|[e [w [He [_ ->]]]]]; auto.
    unfold get_versions. simpl.
    destruct (String.eqb_spec file_name other) as [->|Hne].
    + now rewrite Dict_get_set_same, He.
    + now rewrite Dict_get_set_other.
  - apply export_file_inv in H. destruct H; auto.
  - apply delete_file_inv in H. destruct H; auto.
    unfold get_versions. simpl. unfold m'. now rewrite Dict_get_del_other by auto.
Qed.

Lemma seq_snoc (start len : nat) : seq start (S len) = seq start len ++ [(start + len)%nat].
Proof. now rewrite seq_S. Qed.

(** ** C1 *)

(** C1. From a state in which [file_name] is unknown, after any history
    with [n] successful [add_file] calls for that name (whatever other
    calls and outside changes come in between), [get_versions] returns [n]
    records whose [version] fields are 1, 2, ..., n in that order; and a
    further successful [add_file] for the name, the [n+1]-th, leaves
    [current_version] at [(n+1) - 1], the index of the record it appended. *)
Theorem add_file_numbers_versions (file_name : string) (s0 s : state) (n : nat) :
  Dict.contains file_name (metadata (self s0)) = false ->
  history json_dumps file_name s0 n s ->
  List.length (get_versions (self s) file_name) = n /\
  map version (get_versions (self s) file_name) = map Z.of_nat (seq 1 n) /\
  (forall ev source_path msg s',
      Pathlib.name (Pathlib.Path source_path) = file_name ->
      add_file json_dumps ev source_path s = (Return (true, msg), s') ->
      List.length (get_versions (self s') file_name) = S n /\
      get_current_version_index (self s') file_name = Z.of_nat (S n) - 1).
Proof.
  intros Hnew Hh.
  assert (Hnum : List.length (get_versions (self s) file_name) = n /\
                 map version (get_versions (self s) file_name) = map Z.of_nat (seq 1 n)).
  { induction Hh as [|n s1 ev source_path msg s2 Hh IH Hnm Hadd
                      |n s1 ev source_path msg s2 Hh IH Hadd
                      |n s1 c o s2 Hh IH Hb Hrun
                      |n s1 w Hh IH].
    - unfold get_versions. apply Dict_contains_false in Hnew. rewrite Hnew. auto.
    - destruct IH as [IHl IHm].
      apply add_file_appends in Hadd. cbv zeta in Hadd. rewrite Hnm in Hadd.
      destruct Hadd as [r [Hv [_ [Hget _]]]].
      assert (Hv2 : get_versions (self s2) file_name
                    = get_versions (self s1) file_name ++ [r]).
      { unfold get_versions at 1. now rewrite Hget. }
      rewrite Hv2, length_app, map_app, IHl, IHm, seq_snoc, map_app.
      split; [simpl; lia|].
      f_equal. cbn [map]. rewrite Hv, IHl. f_equal. lia.
    - apply add_file_inv in Hadd. inversion Hadd; subst; auto.
      match goal with
      | Hend : match ?x with Return _ => _ | Raise _ => _ end |- _ =>
          destruct x; destruct Hend; discriminate
      end.
    - now rewrite (run_beside _ _ _ _ _ Hb Hrun).
    - exact IH. }
  destruct Hnum as [Hl Hm].
  split; [exact Hl|]. split; [exact Hm|].
  intros ev source_path msg s' Hnm Hadd.
  apply add_file_appends in Hadd. cbv zeta in Hadd. rewrite Hnm in Hadd.
  destruct Hadd as [r [_ [_ [Hget _]]]].
  split.
  - unfold get_versions at 1. rewrite Hget. simpl. rewrite length_app. simpl. lia.
  - unfold get_current_version_index. rewrite Hget.
    cbn [current_version]. rewrite Hl. lia.
Qed.

(** ** C2 and C3 *)

(** C2. For a known file name and an index within [0, versionCount),
    [rollback_version] (its write of the catalog document meeting no
    fault) returns success, leaves [current_version] at the index, and
    changes nothing else: the versions of the name, every other entry and
    the order of the keys are as before, and on the file system only the
    catalog document is written, so every stored content reads as before. *)
Theorem rollback_version_moves_the_pointer_only
        (ev : env) (file_name : string) (version_index : Z) (s : state) (e : entry) :
  Dict.get file_name (metadata (self s)) = Some e ->
  0 <= version_index < Z.of_nat (List.length (versions e)) ->
  fault ev io_open_w = None ->
  Fs.writable (disk s) (metadata_file (self s)) = true ->
  exists s' km,
    rollback_version json_dumps ev file_name version_index s =
      (Return (true, ("Rolled back to version " ++ str_int (version_index + 1))%string), s') /\
    get_current_version_index (self s') file_name = version_index /\
    get_versions (self s') file_name = get_versions (self s) file_name /\
    (forall other, other <> file_name ->
       Dict.get other (metadata (self s')) = Dict.get other (metadata (self s))) /\
    get_file_list (self s') = get_file_list (self s) /\
    Fs.locate (disk s) (metadata_file (self s)) = Return km /\
    (forall k, k <> km -> Fs.nodes (disk s') k = Fs.nodes (disk s) k) /\
    (forall p content,
       Fs.locate (disk s) p <> Return km ->
       Fs.read_bytes (disk s) p = Return content ->
       Fs.read_bytes (disk s') p = Return content).
Proof.
  intros He Hr Hf Hw.
  rewrite (rollback_version_in_range ev _ _ _ _ He Hr). cbv zeta.
  set (m' := Dict.set file_name
               {| name := name e; versions := versions e; current_version := version_index |}
               (metadata (self s))).
  destruct (save_metadata_ok ev (with_metadata s m') Hf Hw) as [km [Hk [Hd Hsave]]].
  rewrite Hsave. simpl in Hk, Hd.
  eexists. exists km. split; [reflexivity|]. simpl.
  repeat split.
  - unfold get_current_version_index. simpl. unfold m'. now rewrite Dict_get_set_same.
  - unfold get_versions. simpl. unfold m'. now rewrite Dict_get_set_same, He.
  - intros other Hne. unfold m'. now apply Dict_get_set_other.
  - unfold get_file_list. simpl. unfold m'. now apply Dict_keys_set_present with (v0 := e).
  - exact Hk.
  - intros k Hne. apply key_eqb_neq in Hne. now rewrite Hne.
  - intros p content Hp Hrd.
    apply (read_bytes_put_file (disk s) km _ content p Hd Hp Hrd).
Qed.

(** C3. [rollback_version] on an unknown file name returns the failure
    "File not found" (NotFound), and on a known name with an index below 0
    or at or above the number of versions it returns "Invalid version
    index" (InvalidIndex); either way the state it returns is the state it
    was given: catalog, pointers and file system. *)
Theorem rollback_version_refuses
        (ev : env) (file_name : string) (version_index : Z) (s : state) :
  (Dict.contains file_name (metadata (self s)) = false ->
   rollback_version json_dumps ev file_name version_index s =
     (Return (false, "File not found"), s)) /\
  (Dict.contains file_name (metadata (self s)) = true ->
   version_index < 0 \/
   Z.of_nat (List.length (get_versions (self s) file_name)) <= version_index ->
   rollback_version json_dumps ev file_name version_index s =
     (Return (false, "Invalid version index"), s)).
Proof.
  split.
  - apply rollback_version_unknown.
  - intros Hk Hr. apply Dict_contains_get in Hk. destruct Hk as [e He].
    apply rollback_version_out_of_range with (e := e); auto.
    unfold get_versions in Hr. now rewrite He in Hr.
Qed.

(** ** C6 *)

(** C6, as the code has it. [add_file] begins with [source.exists()].
    When that says nothing is there (its [stat] meets no fault and finds
    no node at the path, or meets a fault of the kind [exists()] takes for
    an absence), [add_file] returns the failure "File does not exist"
    (NotFound) and the state is untouched: no entry, no record, no stored
    content; and it returns a failure in no other case. When the [stat]
    fails with an error that [exists()] raises again (a name too long, no
    permission to search a directory), or when the path is there but
    cannot be opened and read (a directory, an unreadable file), that
    error propagates instead of a NotFound result, the state again
    untouched. *)
Theorem add_file_without_readable_source (ev : env) (source_path : string) (s : state) :
  (fault ev io_open_rb = None ->
   Fs.exists_ (disk s) (Pathlib.Path source_path) = false ->
   add_file json_dumps ev source_path s = (Return (false, "File does not exist"), s)) /\
  (forall e,
     fault ev io_open_rb = Some e -> ignore_error e = true ->
     add_file json_dumps ev source_path s = (Return (false, "File does not exist"), s)) /\
  (forall e,
     fault ev io_open_rb = Some e -> ignore_error e = false ->
     add_file json_dumps ev source_path s = (Raise e, s)) /\
  (forall x,
     fault ev io_open_rb = None ->
     Fs.exists_ (disk s) (Pathlib.Path source_path) = true ->
     Fs.read_bytes (disk s) (Pathlib.Path source_path) = Raise x ->
     add_file json_dumps ev source_path s = (Raise x, s)) /\
  (forall msg s',
     add_file json_dumps ev source_path s = (Return (false, msg), s') ->
     stat_exists (fault ev io_open_rb) (disk s) (Pathlib.Path source_path) = Return false /\
     msg = "File does not exist" /\ s' = s).
Proof.
  split; [|split; [|split; [|split]]].
  - intros Hf H. unfold add_file, bind, path_exists, stat_exists. now rewrite Hf, H.
  - intros e Hf Hi. unfold add_file, bind, path_exists, stat_exists. now rewrite Hf, Hi.
  - intros e Hf Hi. unfold add_file, bind, path_exists, stat_exists. now rewrite Hf, Hi.
  - intros x Hf H Hrd. unfold add_file, bind, path_exists, stat_exists. rewrite Hf, H. simpl.
    rewrite calculate_hash_eq. unfold opened. now rewrite sys_quiet, Hrd by exact Hf.
  - intros msg s' H. apply add_file_inv in H.
    inversion H as [Hgd| | |content w1 w2 st_size rel o w3 source fn m n r m'
                              Hex Hop Hmk Hcp Hst Hrel Hend]; subst.
    + auto.
    + exfalso. destruct (sys ev io_open_w _); destruct Hend as [Ho _]; discriminate.
Qed.

(** ** C10 *)

(** C10. A successful [add_file] records the new version under the key
    [Path(source_path).name]. So two successful calls with different source
    paths of the same name append two versions, numbered consecutively, to
    one entry: the first call adds the key if it was not there, the second
    adds none, and no other entry changes. *)
Theorem add_file_keys_by_name
        (ev1 ev2 : env) (source1 source2 msg1 msg2 : string) (s s1 s2 : state) :
  source1 <> source2 ->
  Pathlib.name (Pathlib.Path source1) = Pathlib.name (Pathlib.Path source2) ->
  add_file json_dumps ev1 source1 s = (Return (true, msg1), s1) ->
  add_file json_dumps ev2 source2 s1 = (Return (true, msg2), s2) ->
  let file_name := Pathlib.name (Pathlib.Path source1) in
  (exists r1 r2,
     get_versions (self s2) file_name = get_versions (self s) file_name ++ [r1; r2] /\
     version r2 = version r1 + 1) /\
  get_file_list (self s1) =
    (if Dict.contains file_name (metadata (self s)) then get_file_list (self s)
     else get_file_list (self s) ++ [file_name]) /\
  get_file_list (self s2) = get_file_list (self s1) /\
  (forall other, other <> file_name ->
     Dict.get other (metadata (self s2)) = Dict.get other (metadata (self s))).
Proof.
  intros Hdiff Hname H1 H2 file_name.
  pose proof (add_file_appends _ _ _ _ _ H1) as A1. cbv zeta in A1.
  pose proof (add_file_appends _ _ _ _ _ H2) as A2. cbv zeta in A2.
  rewrite <- Hname in A2. fold file_name in A1, A2.
  destruct A1 as [r1 [Hv1 [_ [Hg1 [Hm1 _]]]]].
  destruct A2 as [r2 [Hv2 [_ [Hg2 [Hm2 _]]]]].
  assert (Hvs1 : get_versions (self s1) file_name = get_versions (self s) file_name ++ [r1]).
  { unfold get_versions at 1. now rewrite Hg1. }
  repeat split.
  - exists r1, r2. split.
    + unfold get_versions at 1. rewrite Hg2. simpl. rewrite Hvs1, <- app_assoc. reflexivity.
    + rewrite Hv2, Hv1, Hvs1, length_app. simpl. lia.
  - unfold get_file_list. rewrite Hm1. unfold Dict.contains.
    destruct (Dict.get file_name (metadata (self s))) as [e|] eqn:He.
    + now apply Dict_keys_set_present with (v0 := e).
    + rewrite Dict_set_absent by exact He. unfold Dict.keys. now rewrite map_app.
  - unfold get_file_list. rewrite Hm2.
    eapply Dict_keys_set_present. exact Hg1.
  - intros other Hne.
    rewrite (add_file_other_keys _ _ _ _ _ other H2) by (rewrite <- Hname; exact Hne).
    now rewrite (add_file_other_keys _ _ _ _ _ other H1).
Qed.

(** ** C7: a fault in the copy *)

(** [add_file] up to the copy: the source is read and hashed, the entry is
    set up, the version directory is made. When [shutil.copy2] then raises
    (an outside fault, or an error of its own), the exception propagates
    with the catalog as [with_entry] left it. *)
Lemma add_file_copy_fault (ev : env) (source_path : string) (s : state)
      (content : list byte) (w1 : Fs.world) (x : exn) :
  let source := Pathlib.Path source_path in
  let file_name := Pathlib.name source in
  let n := next_version file_name (metadata (self s)) in
  Fs.exists_ (disk s) source = true ->
  opened ev s source = Return content ->
  sys ev io_mkdir (Fs.mkdir true (disk s) (version_dir_of (self s) file_name n)) = Return w1 ->
  sys ev io_copy2 (Fs.copy2 w1 source (content_file (self s) file_name n)) = Raise x ->
  add_file json_dumps ev source_path s =
    (Raise x,
     with_disk (with_metadata s (with_entry file_name (metadata (self s)))) w1).
Proof.
  cbv zeta. intros Hex Hop Hmk Hcp.
  assert (Hgd : stat_exists (fault ev io_open_rb) (disk s) (Pathlib.Path source_path)
                = Return true).
  { apply stat_exists_true. split; [|exact Hex].
    unfold opened in Hop. apply sys_Return in Hop. exact (proj1 Hop). }
  destruct (add_file json_dumps ev source_path s) as [o s'] eqn:H.
  apply add_file_inv in H.
  inversion H; subst; unlet; try congruence.
  match goal with
  | Hflt : add_file_faults _ _ _ _ _ _ _ _ |- _ => inversion Hflt; subst; congruence
  end.
Qed.

(** C7, what the code does. When the content copy of [add_file] raises for
    a file name that is not in the catalog yet, the call raises and no
    record is created under any key; but the catalog is not as it was: the
    name is now a key, bound to an entry without versions whose
    [current_version] is 0. [export_file] on that entry raises
    [IndexError]. *)
Theorem add_file_copy_fault_leaves_an_entry
        (ev ev' : env) (source_path dest_path : string) (s : state)
        (content : list byte) (w1 : Fs.world) (x : exn) :
  let source := Pathlib.Path source_path in
  let file_name := Pathlib.name source in
  Dict.contains file_name (metadata (self s)) = false ->
  Fs.exists_ (disk s) source = true ->
  opened ev s source = Return content ->
  sys ev io_mkdir (Fs.mkdir true (disk s) (version_dir_of (self s) file_name 1)) = Return w1 ->
  sys ev io_copy2 (Fs.copy2 w1 source (content_file (self s) file_name 1)) = Raise x ->
  exists s',
    add_file json_dumps ev source_path s = (Raise x, s') /\
    (forall other, get_versions (self s') other = get_versions (self s) other) /\
    Dict.get file_name (metadata (self s')) = Some (new_entry file_name) /\
    get_file_list (self s') = get_file_list (self s) ++ [file_name] /\
    metadata (self s') <> metadata (self s) /\
    export_file ev' file_name dest_path s' = (Raise IndexError, s').
Proof.
  intros source file_name Hnew Hex Hop Hmk Hcp.
  assert (Hnone : Dict.get file_name (metadata (self s)) = None)
    by now apply Dict_contains_false.
  assert (Hn : next_version file_name (metadata (self s)) = 1).
  { unfold next_version, entry_or_new. now rewrite Hnone. }
  pose proof (add_file_copy_fault ev source_path s content w1 x) as Hrun.
  cbv zeta in Hrun. fold source file_name in Hrun. rewrite Hn in Hrun.
  specialize (Hrun Hex Hop Hmk Hcp).
  eexists. split; [exact Hrun|]. simpl.
  assert (Hwe : with_entry file_name (metadata (self s))
                = metadata (self s) ++ [(file_name, new_entry file_name)]).
  { unfold with_entry. rewrite Hnew. now apply Dict_set_absent. }
  repeat split.
  - intros other. destruct (self s) as [vd md]. apply get_versions_with_entry.
  - rewrite get_with_entry. unfold entry_or_new. now rewrite Hnone.
  - unfold get_file_list, Dict.keys. simpl. now rewrite Hwe, map_app.
  - rewrite Hwe. intros Heq.
    apply (f_equal (@List.length _)) in Heq. rewrite length_app in Heq. simpl in Heq. lia.
  - unfold export_file, bind, get_metadata, getitem, lift. simpl.
    unfold Dict.contains. rewrite get_with_entry. simpl.
    rewrite get_with_entry. unfold entry_or_new. rewrite Hnone. reflexivity.
Qed.

(** ** C9: the fingerprint *)

Lemma firstn_chunk_nil (rest : list byte) : firstn chunk_size rest = [] -> rest = [].
Proof. destruct rest; [auto|]. unfold chunk_size. simpl. discriminate. Qed.

Lemma skipn_chunk_shorter (rest : list byte) :
  rest <> [] -> (List.length (skipn chunk_size rest) < List.length rest)%nat.
Proof.
  intros H. rewrite length_skipn.
  destruct rest as [|b rest]; [congruence|].
  unfold chunk_size. simpl List.length. lia.
Qed.

(** The calls of [update] the loop makes: one per chunk read, each chunk
    with at least one byte and at most 4096, each but the last with 4096
    exactly; put end to end they are what the file object handed out. *)
Lemma feed_chunks_updates (fuel : nat) :
  forall (rest : list byte) (h : Hashlib.sha256),
    (List.length rest < fuel)%nat ->
    exists chunks,
      Hashlib.updates (feed_chunks fuel rest h) = Hashlib.updates h ++ chunks /\
      List.concat chunks = rest /\
      Forall (fun chunk => (0 < List.length chunk <= 4096)%nat) chunks /\
      (forall i, (S i < List.length chunks)%nat ->
                 List.length (nth i chunks []) = 4096%nat).
Proof.
  induction fuel as [|fuel IH]; intros rest h Hlt; [lia|].
  cbn [feed_chunks]. destruct (firstn chunk_size rest) as [|b chunk] eqn:E.
  - apply firstn_chunk_nil in E. subst rest.
    exists []. rewrite app_nil_r. repeat split; auto. simpl. intros i Hi. lia.
  - assert (Hne : rest <> []) by (intros ->; rewrite firstn_nil in E; discriminate).
    destruct (IH (skipn chunk_size rest) (Hashlib.update h (b :: chunk)))
      as [chunks [Hu [Hc [Hb Hfull]]]].
    { pose proof (skipn_chunk_shorter rest Hne). lia. }
    exists ((b :: chunk) :: chunks). split; [|split; [|split]].
    + rewrite Hu. unfold Hashlib.update. cbn [Hashlib.updates].
      now rewrite <- app_assoc.
    + cbn [List.concat]. rewrite Hc, <- E. apply firstn_skipn.
    + constructor; [|exact Hb]. rewrite <- E. split.
      * rewrite E. simpl. lia.
      * apply firstn_le_length.
    + intros [|i] Hi.
      * cbn [nth]. rewrite <- E.
        destruct chunks as [|c chunks]; [simpl in Hi; lia|].
        inversion Hb as [|? ? [Hc0 _] _]; subst.
        assert (Hmore : skipn chunk_size rest <> []).
        { intros Hnil. rewrite Hnil in Hc. cbn [List.concat] in Hc.
          destruct c; [simpl in Hc0; lia|discriminate]. }
        assert (Hlen : (chunk_size < List.length rest)%nat).
        { destruct (Nat.lt_ge_cases chunk_size (List.length rest)) as [H|H]; [exact H|].
          exfalso. apply Hmore. now apply skipn_all2. }
        rewrite length_firstn. unfold chunk_size in *. lia.
      * cbn [nth]. apply Hfull. simpl in Hi. lia.
Qed.



Lemma hash_content_eq (content : list byte) :
  hash_content content = substring 0 16 (Hashlib.sha256_hex content).
Proof.
  unfold hash_content, hashed, Hashlib.hexdigest.
  destruct (feed_chunks_updates (S (List.length content)) content Hashlib.new)
    as [chunks [Hu [Hc _]]]; [lia|].
  rewrite Hu. cbn [Hashlib.updates Hashlib.new app]. now rewrite Hc.
Qed.


(** ** Growing file systems *)

Lemma extends_refl (w : Fs.world) : extends w w.
Proof. split; auto. Qed.

Lemma extends_trans (w1 w2 w3 : Fs.world) :
  extends w1 w2 -> extends w2 w3 -> extends w1 w3.
Proof. intros [C1 H1] [C2 H2]. split; [congruence|auto]. Qed.

Lemma extends_put_absent (w : Fs.world) (k : Fs.key) (n : Fs.node) :
  Fs.nodes w k = None -> extends w (Fs.put k n w).
Proof.
  intros H. split; auto. intros k' n' Hk'. simpl.
  destruct (Fs.key_eqb k' k) eqn:E; auto.
  apply key_eqb_eq in E. congruence.
Qed.

Lemma is_dir_at_extends (w w' : Fs.world) (k : Fs.key) :
  extends w w' -> Fs.is_dir_at w k = true -> Fs.is_dir_at w' k = true.
Proof.
  intros [_ H]. unfold Fs.is_dir_at.
  destruct (Fs.nodes w k) as [[c|]|] eqn:E; try discriminate.
  now rewrite (H _ _ E).
Qed.

Lemma walk_extends (w w' : Fs.world) :
  extends w w' ->
  forall comps cur k,
    Fs.walk w cur comps = Return k -> Fs.walk w' cur comps = Return k.
Proof.
  intros Hx. induction comps as [|c comps IH]; simpl; intros cur k H; auto.
  destruct (Fs.enter w cur c) as [nxt|] eqn:E; [|discriminate].
  apply enter_Return in E.
  assert (E' : Fs.enter w' cur c = Return nxt).
  { apply enter_Return. destruct E as [E1 E2]. split.
    - eapply is_dir_at_extends; eauto.
    - destruct (c =? ".."); auto. destruct E2 as [E2 E3]. split; auto.
      eapply is_dir_at_extends; eauto. }
  rewrite E'. auto.
Qed.

Lemma locate_extends (w w' : Fs.world) (p : Pathlib.PurePath) (k : Fs.key) :
  extends w w' -> Fs.locate w p = Return k -> Fs.locate w' p = Return k.
Proof.
  intros Hx Hl. apply locate_Return in Hl. destruct Hl as [Hs Hw].
  assert (Hst : Fs.start w' p = Fs.start w p).
  { unfold Fs.start. destruct Hx as [Hc _]. now rewrite Hc. }
  apply locate_Return. rewrite Hst. split.
  - eapply is_dir_at_extends; eauto.
  - eapply walk_extends; eauto.
Qed.

Lemma read_bytes_extends (w w' : Fs.world) (p : Pathlib.PurePath) (b : list byte) :
  extends w w' -> Fs.read_bytes w p = Return b -> Fs.read_bytes w' p = Return b.
Proof.
  intros Hx H. apply read_bytes_Return in H. destruct H as [k [Hk Hn]].
  apply read_bytes_Return. exists k. split.
  - eapply locate_extends; eauto.
  - destruct Hx as [_ Hx]. auto.
Qed.

(** [mkdir] only adds directories where nothing was. *)
Lemma mkdir_from_extends (parents : bool) (comps : list string) :
  forall w cur w',
    Fs.mkdir_from parents w cur comps = Return w' -> extends w w'.
Proof.
  induction comps as [|c comps IH]; simpl; intros w cur w' H.
  - inversion H. apply extends_refl.
  - destruct (Fs.enter w cur c) as [nxt|]; [|discriminate].
    destruct (Fs.nodes w nxt) as [[b|]|] eqn:E.
    + destruct comps; discriminate.
    + eauto.
    + destruct comps as [|c' comps'].
      * inversion H. now apply extends_put_absent.
      * destruct parents; [|discriminate].
        apply IH in H. eapply extends_trans; [|exact H].
        now apply extends_put_absent.
Qed.

Lemma mkdir_extends (parents : bool) (w w' : Fs.world) (p : Pathlib.PurePath) :
  Fs.mkdir parents w p = Return w' -> extends w w'.
Proof.
  unfold Fs.mkdir. destruct (Fs.is_dir_at w (Fs.start w p)); [|discriminate].
  apply mkdir_from_extends.
Qed.

Lemma exists_of_read (w : Fs.world) (p : Pathlib.PurePath) (b : list byte) :
  Fs.read_bytes w p = Return b -> Fs.exists_ w p = true.
Proof.
  intros H. apply read_bytes_Return in H. destruct H as [k [Hk Hn]].
  unfold Fs.exists_, Fs.lookup. now rewrite Hk, Hn.
Qed.

Lemma walk_app (w : Fs.world) (a b : list string) :
  forall cur k,
    Fs.walk w cur (a ++ b) = Return k <->
    exists k1, Fs.walk w cur a = Return k1 /\ Fs.walk w k1 b = Return k.
Proof.
  induction a as [|c a IH]; simpl; intros cur k.
  - split; [eauto|]. intros [k1 [H1 H2]]. now inversion H1; subst.
  - destruct (Fs.enter w cur c) as [nxt|e].
    + apply IH.
    + split; [discriminate|]. intros [k1 [H1 _]]. discriminate.
Qed.

(** A walk that arrives went through directories only. *)
Lemma walk_through_dir (w : Fs.world) (c : string) (rest : list string) (cur k : Fs.key) :
  Fs.walk w cur (c :: rest) = Return k -> Fs.is_dir_at w cur = true.
Proof.
  simpl. destruct (Fs.enter w cur c) as [nxt|e] eqn:E; [|discriminate].
  intros _. now apply enter_Return in E.
Qed.

Lemma mkdir_from_existing (parents : bool) (w : Fs.world) (comps : list string) :
  forall cur k,
    Fs.walk w cur comps = Return k ->
    Fs.is_dir_at w k = true ->
    Fs.mkdir_from parents w cur comps = Return w.
Proof.
  induction comps as [|c comps IH]; simpl; intros cur k H Hd; auto.
  destruct (Fs.enter w cur c) as [nxt|e] eqn:E; [|discriminate].
  assert (Hn : Fs.is_dir_at w nxt = true).
  { destruct comps as [|c' comps'].
    - simpl in H. inversion H; subst. exact Hd.
    - now apply walk_through_dir in H. }
  unfold Fs.is_dir_at in Hn.
  destruct (Fs.nodes w nxt) as [[b|]|]; try discriminate.
  eauto.
Qed.

(** [mkdir] of one more component below a directory that is there. *)
Lemma mkdir_from_last (parents : bool) (w : Fs.world) (c : string) (comps : list string) :
  (c =? "..") = false ->
  forall cur kv,
    Fs.walk w cur comps = Return kv ->
    Fs.is_dir_at w kv = true ->
    Fs.mkdir_from parents w cur (comps ++ [c]) =
      match Fs.nodes w (kv ++ [c]) with
      | Some Fs.Dir => Return w
      | Some (Fs.File _) => Raise FileExistsError
      | None => Return (Fs.put (kv ++ [c]) Fs.Dir w)
      end.
Proof.
  intros Hc. induction comps as [|c0 comps IH]; simpl; intros cur kv H Hd.
  - inversion H; subst. unfold Fs.enter. rewrite Hd, Hc. simpl.
    destruct (Fs.nodes w (kv ++ [c])) as [[b|]|]; reflexivity.
  - destruct (Fs.enter w cur c0) as [nxt|e] eqn:E; [|discriminate].
    assert (Hn : Fs.is_dir_at w nxt = true).
    { destruct comps as [|c' comps'].
      - simpl in H. inversion H; subst. exact Hd.
      - now apply walk_through_dir in H. }
    unfold Fs.is_dir_at in Hn.
    destruct (Fs.nodes w nxt) as [[b|]|]; try discriminate.
    eauto.
Qed.

(** ** C8: loading the catalog *)

Lemma all_some_map_Some (A B : Type) (f : A -> option B) (g : B -> A) (l : list B) :
  (forall b, f (g b) = Some b) -> all_some (map f (map g l)) = Some l.
Proof.
  intros H. induction l as [|b l IH]; simpl; auto.
  now rewrite H, IH.
Qed.

(** What the engine writes is in the schema. *)
Lemma schema_catalog_to_json (c : catalog) : schema_catalog (catalog_to_json c) = Some c.
Proof.
  unfold schema_catalog, catalog_to_json.
  rewrite <- (map_id c) at 2.
  induction c as [|[k e] c IH]; simpl; auto.
  assert (He : schema_entry (entry_to_json e) = Some e).
  { unfold schema_entry, entry_to_json. simpl.
    rewrite all_some_map_Some.
    - now destruct e.
    - intros r. now destruct r. }
  rewrite He. simpl. now rewrite IH.
Qed.

(** C8, as the code has it. [load_metadata] returns the empty catalog when
    there is no document. When there is one, it returns whatever JSON value
    the document decodes to, with no check against the schema, and raises
    the decoder's error when the document is not JSON at all; that error
    leaves [__init__] through ([JSONDecodeError] itself when the directories
    are in place and no system call faults), so no engine object is built,
    and the document is byte for byte as it was. *)
Theorem load_metadata_decodes_without_schema (ev : env) (vault_dir : string) (w : Fs.world) :
  let metadata_file := (Pathlib.Path vault_dir / "metadata.json")%path in
  (Fs.exists_ w metadata_file = false ->
   load_metadata json_loads ev metadata_file w = Return (Json.Obj [])) /\
  (forall doc j,
     sys ev io_open_r (Fs.read_bytes w metadata_file) = Return doc ->
     json_loads doc = Some j ->
     load_metadata json_loads ev metadata_file w = Return j) /\
  (forall doc,
     sys ev io_open_r (Fs.read_bytes w metadata_file) = Return doc ->
     json_loads doc = None ->
     load_metadata json_loads ev metadata_file w = Raise JSONDecodeError) /\
  (forall doc,
     Fs.read_bytes w metadata_file = Return doc ->
     json_loads doc = None ->
     exists e w',
       init json_loads ev vault_dir w = (Raise e, w') /\
       Fs.read_bytes w' metadata_file = Return doc /\
       (fault ev io_mkdir_vault = None -> fault ev io_mkdir_files = None ->
        fault ev io_open_r = None ->
        (forall c, Fs.lookup w (Pathlib.Path vault_dir / "files")%path <> Some (Fs.File c)) ->
        e = JSONDecodeError)).
Proof.
  intros metadata_file. split; [|split; [|split]].
  - intros H. unfold load_metadata. now rewrite H.
  - intros doc j Hrd Hj. unfold load_metadata.
    assert (Hex : Fs.exists_ w metadata_file = true).
    { apply sys_Return in Hrd. destruct Hrd as [_ Hrd]. now apply exists_of_read in Hrd. }
    now rewrite Hex, Hrd, Hj.
  - intros doc Hrd Hj. unfold load_metadata.
    assert (Hex : Fs.exists_ w metadata_file = true).
    { apply sys_Return in Hrd. destruct Hrd as [_ Hrd]. now apply exists_of_read in Hrd. }
    now rewrite Hex, Hrd, Hj.
  - intros doc Hrd Hj.
    (* the vault directory is there: the document is in it *)
    set (vd := Pathlib.Path vault_dir) in *.
    assert (Hparts : Pathlib.parts metadata_file = Pathlib.parts vd ++ ["metadata.json"] /\
                     Pathlib.absolute metadata_file = Pathlib.absolute vd) by (split; reflexivity).
    assert (Hfparts : Pathlib.parts (vd / "files")%path = Pathlib.parts vd ++ ["files"] /\
                      Pathlib.absolute (vd / "files")%path = Pathlib.absolute vd)
      by (split; reflexivity).
    destruct Hparts as [Hp Ha]. destruct Hfparts as [Hfp Hfa].
    pose proof Hrd as Hrd0.
    apply read_bytes_Return in Hrd0. destruct Hrd0 as [km [Hkm Hdoc]].
    apply locate_Return in Hkm. destruct Hkm as [Hst Hkm].
    unfold Fs.start in Hst, Hkm. rewrite Hp in Hkm. rewrite Ha in Hst, Hkm.
    apply walk_app in Hkm. destruct Hkm as [kv [Hkv Hlast]].
    assert (Hkvd : Fs.is_dir_at w kv = true) by (now apply walk_through_dir in Hlast).
    assert (Hmk1 : Fs.mkdir false w vd = Return w).
    { unfold Fs.mkdir, Fs.start. rewrite Hst. now apply mkdir_from_existing with (k := kv). }
    assert (Hmk2 : Fs.mkdir false w (vd / "files")%path =
                   match Fs.nodes w (kv ++ ["files"]) with
                   | Some Fs.Dir => Return w
                   | Some (Fs.File _) => Raise FileExistsError
                   | None => Return (Fs.put (kv ++ ["files"]) Fs.Dir w)
                   end).
    { unfold Fs.mkdir, Fs.start. rewrite Hfp, Hfa, Hst. now apply mkdir_from_last. }
    assert (Hlk : Fs.lookup w (vd / "files")%path = Fs.nodes w (kv ++ ["files"])).
    { unfold Fs.lookup, Fs.locate, Fs.start. rewrite Hfp, Hfa, Hst.
      assert (Hw : Fs.walk w (if Pathlib.absolute vd then [] else Fs.cwd w)
                     (Pathlib.parts vd ++ ["files"]) = Return (kv ++ ["files"])).
      { apply walk_app. exists kv. split; auto. simpl. unfold Fs.enter. now rewrite Hkvd. }
      now rewrite Hw. }
    unfold init. fold vd. fold metadata_file.
    destruct (sys ev io_mkdir_vault (Fs.mkdir false w vd)) as [w1|e1] eqn:E1.
    2:{ exists e1, w. repeat split; auto.
        intros F1 _ _ _. rewrite sys_quiet, Hmk1 in E1 by exact F1. discriminate. }
    assert (Hx1 : extends w w1).
    { apply sys_Return in E1. destruct E1 as [_ E1]. now apply mkdir_extends in E1. }
    destruct (sys ev io_mkdir_files (Fs.mkdir false w1 (vd / "files")%path)) as [w2|e2] eqn:E2.
    2:{ exists e2, w1. repeat split; auto.
        - eapply read_bytes_extends; eauto.
        - intros F1 F2 _ Hnf.
          rewrite sys_quiet, Hmk1 in E1 by exact F1. inversion E1; subst w1.
          rewrite sys_quiet, Hmk2 in E2 by exact F2. rewrite Hlk in Hnf.
          destruct (Fs.nodes w (kv ++ ["files"])) as [[c|]|]; try discriminate.
          exfalso. now apply (Hnf c). }
    assert (Hx2 : extends w1 w2).
    { apply sys_Return in E2. destruct E2 as [_ E2]. now apply mkdir_extends in E2. }
    assert (Hrd2 : Fs.read_bytes w2 metadata_file = Return doc).
    { eapply read_bytes_extends; [|exact Hrd]. eapply extends_trans; eauto. }
    unfold load_metadata. rewrite (exists_of_read _ _ _ Hrd2).
    destruct (sys ev io_open_r (Fs.read_bytes w2 metadata_file)) as [doc'|e3] eqn:E3.
    + apply sys_Return in E3. destruct E3 as [_ E3].
      assert (doc' = doc) by congruence. subst doc'. rewrite Hj.
      exists JSONDecodeError, w2. auto.
    + exists e3, w2. repeat split; auto.
      intros _ _ F3 _. rewrite sys_quiet, Hrd2 in E3 by exact F3. discriminate.
Qed.

(** ** Paths *)

Lemma split_slash_not_nil (s : string) : Pathlib.split_slash s <> [].
Proof.
  induction s as [|c s IH]; simpl; [discriminate|].
  destruct (Ascii.eqb c "/"); [discriminate|].
  destruct (Pathlib.split_slash s); [congruence|discriminate].
Qed.

Lemma slashless_split (s : string) :
  Pathlib.slashless s = true -> Pathlib.split_slash s = [s].
Proof.
  induction s as [|c s IH]; simpl; auto.
  destruct (Ascii.eqb c "/"); simpl; [discriminate|].
  intros H. now rewrite IH.
Qed.

Lemma split_slash_slashless (s : string) :
  Forall (fun w => Pathlib.slashless w = true) (Pathlib.split_slash s).
Proof.
  induction s as [|c s IH]; simpl.
  - constructor; auto.
  - destruct (Ascii.eqb c "/") eqn:E.
    + constructor; auto.
    + destruct (Pathlib.split_slash s) as [|w ws]; constructor; simpl; rewrite ?E; auto.
      * now inversion IH.
      * now inversion IH.
Qed.

Lemma split_slash_app (a rest : string) :
  Pathlib.slashless a = true ->
  Pathlib.split_slash (a ++ String "/" rest) = a :: Pathlib.split_slash rest.
Proof.
  induction a as [|c a IH]; simpl; auto.
  destruct (Ascii.eqb c "/"); simpl; [discriminate|].
  intros H. now rewrite IH.
Qed.

Lemma plain_inv (w : string) :
  Pathlib.plain w = true ->
  Pathlib.is_part w = true /\ (w =? "..") = false /\ Pathlib.slashless w = true.
Proof.
  unfold Pathlib.plain. rewrite !andb_true_iff, negb_true_iff. tauto.
Qed.

Lemma plain_first_char (w : string) :
  Pathlib.plain w = true ->
  exists c w', w = String c w' /\ Ascii.eqb c "/" = false.
Proof.
  intros H. apply plain_inv in H. destruct H as [Hp [_ Hs]].
  destruct w as [|c w']; [discriminate|].
  simpl in Hs. apply andb_true_iff in Hs. destruct Hs as [Hs _].
  apply negb_true_iff in Hs. eauto.
Qed.

Lemma Path_plain (w : string) :
  Pathlib.plain w = true ->
  Pathlib.Path w = {| Pathlib.absolute := false; Pathlib.parts := [w] |}.
Proof.
  intros H. destruct (plain_first_char w H) as [c [w' [-> Hc]]].
  apply plain_inv in H. destruct H as [Hp [_ Hs]].
  unfold Pathlib.Path. rewrite (slashless_split _ Hs). cbn [filter]. now rewrite Hp, Hc.
Qed.

(** [p / w] for a plain [w] adds one component. *)
Lemma joinpath_plain (p : Pathlib.PurePath) (w : string) :
  Pathlib.plain w = true ->
  (p / w)%path =
    {| Pathlib.absolute := Pathlib.absolute p; Pathlib.parts := Pathlib.parts p ++ [w] |}.
Proof. intros H. unfold Pathlib.joinpath. now rewrite (Path_plain w H). Qed.

Lemma split_slash_concat (comps : list string) :
  comps <> [] ->
  Forall (fun w => Pathlib.plain w = true) comps ->
  Pathlib.split_slash (String.concat "/" comps) = comps.
Proof.
  induction comps as [|x comps IH]; [congruence|].
  intros _ Hall. inversion Hall as [|? ? Hx Hrest]; subst.
  apply plain_inv in Hx. destruct Hx as [_ [_ Hs]].
  destruct comps as [|y comps].
  - simpl. now apply slashless_split.
  - change (String.concat "/" (x :: y :: comps))
      with (x ++ String "/" (String.concat "/" (y :: comps)))%string.
    rewrite split_slash_app by exact Hs.
    rewrite IH; auto. discriminate.
Qed.

(** A relative path of plain components survives [str] and [Path]. *)
Lemma Path_concat (comps : list string) :
  comps <> [] ->
  Forall (fun w => Pathlib.plain w = true) comps ->
  Pathlib.Path (String.concat "/" comps) =
    {| Pathlib.absolute := false; Pathlib.parts := comps |}.
Proof.
  intros Hne Hall. unfold Pathlib.Path. rewrite split_slash_concat by auto.
  f_equal.
  - destruct comps as [|x comps]; [congruence|].
    inversion Hall as [|? ? Hx _]; subst.
    destruct (plain_first_char x Hx) as [c [x' [-> Hc]]].
    destruct comps; simpl; exact Hc.
  - apply forallb_filter_id. apply forallb_forall. intros w Hw.
    rewrite Forall_forall in Hall. now apply plain_inv, Hall.
Qed.

Lemma uint_slashless (d : Decimal.uint) :
  Pathlib.slashless (NilEmpty.string_of_uint d) = true.
Proof. induction d; simpl; auto. Qed.

Lemma str_int_slashless (z : Z) : Pathlib.slashless (str_int z) = true.
Proof.
  unfold str_int. destruct (Z.to_int z) as [d|d]; simpl.
  - destruct d; simpl; auto using uint_slashless.
  - destruct d; simpl; auto using uint_slashless.
Qed.

(** [f"v{n}"] is a plain component. *)
Lemma version_dir_name_plain (n : Z) : Pathlib.plain ("v" ++ str_int n)%string = true.
Proof.
  unfold Pathlib.plain. simpl. apply str_int_slashless.
Qed.

Lemma strip_prefix_app (a b : list string) : Pathlib.strip_prefix a (a ++ b) = Some b.
Proof.
  induction a as [|x a IH]; simpl; auto. now rewrite String.eqb_refl.
Qed.

(** The parts of the paths [add_file] builds, for a plain file name. *)
Lemma content_file_parts (v : DataVault) (file_name : string) (n : Z) :
  Pathlib.plain file_name = true ->
  files_dir v =
    {| Pathlib.absolute := Pathlib.absolute (vault_dir v);
       Pathlib.parts := Pathlib.parts (vault_dir v) ++ ["files"] |} /\
  (files_dir v / file_name)%path =
    {| Pathlib.absolute := Pathlib.absolute (vault_dir v);
       Pathlib.parts := Pathlib.parts (vault_dir v) ++ ["files"; file_name] |} /\
  version_dir_of v file_name n =
    {| Pathlib.absolute := Pathlib.absolute (vault_dir v);
       Pathlib.parts := Pathlib.parts (vault_dir v)
                          ++ ["files"; file_name; ("v" ++ str_int n)%string] |} /\
  content_file v file_name n =
    {| Pathlib.absolute := Pathlib.absolute (vault_dir v);
       Pathlib.parts := Pathlib.parts (vault_dir v)
                          ++ ["files"; file_name; ("v" ++ str_int n)%string; file_name] |} /\
  metadata_file v =
    {| Pathlib.absolute := Pathlib.absolute (vault_dir v);
       Pathlib.parts := Pathlib.parts (vault_dir v) ++ ["metadata.json"] |}.
Proof.
  intros Hp.
  assert (H1 : files_dir v =
               {| Pathlib.absolute := Pathlib.absolute (vault_dir v);
                  Pathlib.parts := Pathlib.parts (vault_dir v) ++ ["files"] |})
    by reflexivity.
  assert (H2 : (files_dir v / file_name)%path =
               {| Pathlib.absolute := Pathlib.absolute (vault_dir v);
                  Pathlib.parts := Pathlib.parts (vault_dir v) ++ ["files"; file_name] |}).
  { rewrite joinpath_plain by exact Hp. rewrite H1. simpl. now rewrite <- app_assoc. }
  assert (H3 : version_dir_of v file_name n =
               {| Pathlib.absolute := Pathlib.absolute (vault_dir v);
                  Pathlib.parts := Pathlib.parts (vault_dir v)
                                     ++ ["files"; file_name; ("v" ++ str_int n)%string] |}).
  { unfold version_dir_of. rewrite joinpath_plain by apply version_dir_name_plain.
    rewrite H2. cbn [Pathlib.absolute Pathlib.parts]. now rewrite <- app_assoc. }
  repeat split; auto.
  unfold content_file. rewrite joinpath_plain by exact Hp.
  rewrite H3. cbn [Pathlib.absolute Pathlib.parts]. now rewrite <- app_assoc.
Qed.

(** The locator [add_file] stores leads back to the content file. *)
Lemma content_file_locator (v : DataVault) (file_name : string) (n : Z) (rel : Pathlib.PurePath) :
  Pathlib.plain file_name = true ->
  Pathlib.relative_to (content_file v file_name n) (vault_dir v) = Return rel ->
  Pathlib.str rel =
    String.concat "/" ["files"; file_name; ("v" ++ str_int n)%string; file_name] /\
  (vault_dir v / Pathlib.str rel)%path = content_file v file_name n.
Proof.
  intros Hp Hrel.
  destruct (content_file_parts v file_name n Hp) as [_ [_ [_ [Hc _]]]].
  rewrite Hc in *. unfold Pathlib.relative_to in Hrel.
  cbn [Pathlib.absolute Pathlib.parts] in Hrel.
  rewrite Bool.eqb_reflx, strip_prefix_app in Hrel. inversion Hrel; subst rel. clear Hrel.
  assert (Hstr : Pathlib.str
                   {| Pathlib.absolute := false;
                      Pathlib.parts := ["files"; file_name; ("v" ++ str_int n)%string; file_name] |}
                 = String.concat "/" ["files"; file_name; ("v" ++ str_int n)%string; file_name])
    by reflexivity.
  split; [exact Hstr|].
  change (String "v" (str_int n)) with ("v" ++ str_int n)%string.
  rewrite Hstr. unfold Pathlib.joinpath. rewrite Path_concat.
  - reflexivity.
  - discriminate.
  - repeat constructor; auto. apply version_dir_name_plain.
Qed.

(** A walk over plain components goes straight down. *)
Lemma walk_plain (w : Fs.world) (comps : list string) :
  Forall (fun c => Pathlib.plain c = true) comps ->
  forall cur k, Fs.walk w cur comps = Return k -> k = cur ++ comps.
Proof.
  induction comps as [|c comps IH]; simpl; intros Hall cur k H.
  - inversion H. now rewrite app_nil_r.
  - inversion Hall as [|? ? Hc Hrest]; subst.
    destruct (Fs.enter w cur c) as [nxt|e] eqn:E; [|discriminate].
    apply enter_Return in E. apply plain_inv in Hc. destruct Hc as [_ [Hc _]].
    rewrite Hc in E. destruct E as [_ ->].
    apply IH in H; auto. rewrite H, <- app_assoc. reflexivity.
Qed.

(** The key a walk arrives at does not depend on the file system. *)
Lemma walk_key_pure (w w' : Fs.world) (comps : list string) :
  forall cur k k',
    Fs.walk w cur comps = Return k -> Fs.walk w' cur comps = Return k' -> k = k'.
Proof.
  induction comps as [|c comps IH]; simpl; intros cur k k' H H'.
  - congruence.
  - destruct (Fs.enter w cur c) as [nxt|e] eqn:E; [|discriminate].
    destruct (Fs.enter w' cur c) as [nxt'|e'] eqn:E'; [|discriminate].
    apply enter_Return in E. apply enter_Return in E'.
    destruct E as [_ E]. destruct E' as [_ E'].
    assert (nxt = nxt').
    { destruct (c =? ".."); [destruct E as [_ ->]; destruct E' as [_ ->]|subst]; auto. }
    subst nxt'. eauto.
Qed.

(** What can be read as a file has a plain name. *)
Lemma read_bytes_name_plain (w : Fs.world) (source_path : string) (b : list byte) :
  Fs.read_bytes w (Pathlib.Path source_path) = Return b ->
  Pathlib.plain (Pathlib.name (Pathlib.Path source_path)) = true.
Proof.
  intros H. apply read_bytes_Return in H. destruct H as [k [Hk Hn]].
  apply locate_Return in Hk. destruct Hk as [Hs Hw].
  unfold Pathlib.name.
  destruct (Pathlib.parts (Pathlib.Path source_path)) as [|c0 ps0] eqn:Hps.
  - simpl in Hw. inversion Hw; subst k. unfold Fs.is_dir_at in Hs. rewrite Hn in Hs.
    discriminate.
  - assert (Hne : c0 :: ps0 <> []) by discriminate.
    destruct (exists_last Hne) as [init [l Heq]]. rewrite Heq in *.
    rewrite last_last.
    assert (Hin : In l (Pathlib.parts (Pathlib.Path source_path))).
    { rewrite Hps. apply in_or_app. right. now left. }
    unfold Pathlib.Path in Hin. cbn [Pathlib.parts] in Hin.
    apply filter_In in Hin. destruct Hin as [Hin Hpart].
    pose proof (split_slash_slashless source_path) as Hall.
    rewrite Forall_forall in Hall. specialize (Hall l Hin).
    unfold Pathlib.plain. rewrite Hpart, Hall.
    destruct (l =? "..") eqn:Hdd; auto.
    exfalso. apply String.eqb_eq in Hdd. subst l.
    apply walk_app in Hw. destruct Hw as [k1 [_ Hw]].
    simpl in Hw. destruct (Fs.enter w k1 "..") as [nxt|] eqn:E; [|discriminate].
    inversion Hw; subst nxt. apply enter_Return in E. simpl in E.
    destruct E as [_ [E Ek]]. rewrite <- Ek in E.
    unfold Fs.is_dir_at in E. rewrite Hn in E. discriminate.
Qed.

(** ** Copies *)

Lemma copy2_Return (w w' : Fs.world) (src dst : Pathlib.PurePath) :
  Fs.copy2 w src dst = Return w' ->
  exists b kt,
    Fs.read_bytes w src = Return b /\
    Fs.locate w (Fs.copy2_target w src dst) = Return kt /\
    Fs.is_dir_at w kt = false /\
    w' = Fs.put kt (Fs.File b) w.
Proof.
  unfold Fs.copy2.
  destruct (Fs.same_file w src (Fs.copy2_target w src dst)); [discriminate|].
  destruct (Fs.read_bytes w src) as [b|e]; [|discriminate].
  intros H. apply write_bytes_Return in H. destruct H as [kt [H1 [H2 H3]]].
  exists b, kt. auto.
Qed.

Lemma copy2_str_Return (w w' : Fs.world) (src : Pathlib.PurePath) (dst : string) :
  Fs.copy2_str w src dst = Return w' -> Fs.copy2 w src (Pathlib.Path dst) = Return w'.
Proof.
  unfold Fs.copy2_str.
  destruct ((dst =? "") || _); auto.
  destruct (Fs.read_bytes w src); discriminate.
Qed.

(** What was written can be read back. *)
Lemma read_bytes_after_put (w : Fs.world) (p : Pathlib.PurePath) (k : Fs.key) (b : list byte) :
  Fs.locate w p = Return k ->
  Fs.is_dir_at w k = false ->
  Fs.read_bytes (Fs.put k (Fs.File b) w) p = Return b.
Proof.
  intros Hk Hd. apply read_bytes_Return. exists k. split.
  - now apply locate_put_file.
  - apply nodes_put_same.
Qed.

(** A directory stays one when a regular file is written elsewhere. *)
Lemma is_dir_put_file (w : Fs.world) (p : Pathlib.PurePath) (km : Fs.key) (b : list byte) :
  Fs.is_dir_at w km = false ->
  Fs.is_dir w p = true ->
  Fs.is_dir (Fs.put km (Fs.File b) w) p = true.
Proof.
  intros Hd H. unfold Fs.is_dir, Fs.lookup in *.
  destruct (Fs.locate w p) as [k|e] eqn:Hk; [|discriminate].
  rewrite (locate_put_file w km b p k Hd Hk).
  destruct (Fs.nodes w k) as [[c|]|] eqn:Hn; try discriminate.
  rewrite nodes_put_other; [now rewrite Hn|].
  intros ->. unfold Fs.is_dir_at in Hd. rewrite Hn in Hd. discriminate.
Qed.

Lemma read_bytes_not_dir (w : Fs.world) (p : Pathlib.PurePath) (b : list byte) :
  Fs.read_bytes w p = Return b -> Fs.is_dir w p = false.
Proof.
  intros H. apply read_bytes_Return in H. destruct H as [k [Hk Hn]].
  unfold Fs.is_dir, Fs.lookup. now rewrite Hk, Hn.
Qed.

(** The catalog document and a content file are never the same file. *)
Lemma content_file_is_not_the_document
      (w : Fs.world) (v : DataVault) (file_name : string) (n : Z) (kd km : Fs.key) :
  Pathlib.plain file_name = true ->
  Fs.locate w (content_file v file_name n) = Return kd ->
  Fs.locate w (metadata_file v) = Return km ->
  kd <> km.
Proof.
  intros Hp Hd Hm.
  destruct (content_file_parts v file_name n Hp) as [_ [_ [_ [Hc Hmf]]]].
  apply locate_Return in Hd. apply locate_Return in Hm.
  destruct Hd as [_ Hd]. destruct Hm as [_ Hm].
  unfold Fs.start in *. rewrite Hc in Hd. rewrite Hmf in Hm.
  cbn [Pathlib.absolute Pathlib.parts] in Hd, Hm.
  apply walk_app in Hd. destruct Hd as [kv [Hv Hd]].
  apply walk_app in Hm. destruct Hm as [kv' [Hv' Hm]].
  assert (kv' = kv) by congruence. subst kv'.
  apply walk_plain in Hd.
  2:{ repeat constructor; auto. apply version_dir_name_plain. }
  apply walk_plain in Hm; [|repeat constructor].
  subst kd km. intros Heq. apply app_inv_head in Heq. discriminate.
Qed.

(** ** C4: the round trip *)

(** C4. Let a source file hold the bytes [B] (any bytes, none included).
    After a successful [add_file] of it and a successful [export_file] of
    its name, the file the export wrote holds exactly [B]; the [hash] of
    the current record is the fingerprint of [B], and [calculate_hash] on
    the exported file returns that same [hash]. *)
Theorem add_then_export_round_trip
        (ev1 ev2 : env) (source_path dest_path msg1 msg2 : string)
        (s s1 s2 : state) (B : list byte) :
  let file_name := Pathlib.name (Pathlib.Path source_path) in
  Fs.read_bytes (disk s) (Pathlib.Path source_path) = Return B ->
  add_file json_dumps ev1 source_path s = (Return (true, msg1), s1) ->
  export_file ev2 file_name dest_path s1 = (Return (true, msg2), s2) ->
  exists r,
    py_index (get_versions (self s1) file_name)
             (get_current_version_index (self s1) file_name) = Return r /\
    let exported :=
      Fs.copy2_target (disk s1) (vault_dir (self s1) / path r)%path
                      (Pathlib.Path dest_path) in
    Fs.read_bytes (disk s2) exported = Return B /\
    hash r = substring 0 16 (Hashlib.sha256_hex B) /\
    (forall ev3, fault ev3 io_open_rb = None ->
       calculate_hash ev3 exported s2 = (Return (hash r), s2)).
Proof.
  intros file_name HB Hadd Hexp.
  pose proof (read_bytes_name_plain _ _ _ HB) as Hplain. fold file_name in Hplain.
  apply add_file_inv in Hadd.
  inversion Hadd as [| | |content w1 w2 st_size rel o w3 source fn m n r m'
                          Hex Hop Hmk Hcp Hst Hrel Hend]; subst.
  unlet.
  set (file_name := Pathlib.name (Pathlib.Path source_path)) in *.
  set (m := metadata (self s)) in *.
  set (n := next_version file_name m) in *.
  set (r := new_record ev1 n st_size content rel) in *.
  set (e' := with_new_version (entry_or_new file_name m) r) in *.
  set (m' := Dict.set file_name e' m) in *.
  (* the source was read as [B] *)
  apply sys_Return in Hop. destruct Hop as [_ Hop].
  assert (content = B) by congruence. subst content.
  (* the steps of add_file *)
  apply sys_Return in Hmk. destruct Hmk as [_ Hmk].
  apply sys_Return in Hcp. destruct Hcp as [_ Hcp].
  destruct (sys ev1 io_open_w _) as [w|x] eqn:Hsave; destruct Hend as [Ho Hw3];
    [|discriminate].
  subst w3. clear Ho.
  apply sys_Return in Hsave. destruct Hsave as [_ Hsave].
  apply write_bytes_Return in Hsave. destruct Hsave as [km [Hkm [Hkmd Hw]]].
  (* the current record is the new one *)
  assert (Hget : Dict.get file_name m' = Some e') by apply Dict_get_set_same.
  assert (Hcur : py_index (versions e') (current_version e') = Return r).
  { unfold e', with_new_version. cbn [versions current_version].
    replace (Z.of_nat (List.length (versions (entry_or_new file_name m))) + 1 - 1)
      with (Z.of_nat (List.length (versions (entry_or_new file_name m)))) by lia.
    apply py_index_in_range.
    rewrite nth_error_app2 by lia. now rewrite Nat.sub_diag. }
  exists r. split.
  { unfold get_versions, get_current_version_index. simpl. now rewrite Hget. }
  (* its locator leads to the content file *)
  destruct (content_file_locator (self s) file_name n rel Hplain Hrel) as [_ Hloc].
  assert (Hsrc : (vault_dir (self s) / path r)%path = content_file (self s) file_name n)
    by exact Hloc.
  cbv zeta. simpl (vault_dir _). simpl (disk _). rewrite Hsrc.
  (* the copy made by add_file *)
  pose proof (mkdir_extends _ _ _ _ Hmk) as Hx1.
  pose proof (read_bytes_extends _ _ _ _ Hx1 HB) as HB1.
  apply copy2_Return in Hcp. destruct Hcp as [b [kt [Hb [Hkt [Hktd Hw2]]]]].
  assert (b = B) by congruence. subst b.
  subst w2 w. set (w2 := Fs.put kt (Fs.File B) w1) in *.
  (* what export_file did *)
  apply export_file_inv in Hexp.
  inversion Hexp as [| | | |e0 r0 w4 Hget0 Hcur0 Hex0 Hcp0]; subst.
  simpl in Hget0, Hcur0, Hex0, Hcp0. 
  assert (e0 = e') by congruence. subst e0.
  assert (r0 = r) by congruence. subst r0.
  rewrite Hsrc in Hex0, Hcp0.
  apply sys_Return in Hcp0. destruct Hcp0 as [_ Hcp0].
  apply copy2_str_Return in Hcp0.
  apply copy2_Return in Hcp0. destruct Hcp0 as [b [kt2 [Hb2 [Hkt2 [Hkt2d Hw4]]]]].
  (* the content file holds [B] when export_file reads it *)
  assert (Hstored : Fs.read_bytes (Fs.put km (Fs.File (json_dumps (catalog_to_json m'))) w2)
                      (content_file (self s) file_name n) = Return B).
  { unfold Fs.copy2_target in Hkt.
    destruct (Fs.is_dir w1 (content_file (self s) file_name n)) eqn:Hisdir.
    - (* the content file was a directory: nothing to export *)
      exfalso.
      assert (Hd2 : Fs.is_dir w2 (content_file (self s) file_name n) = true).
      { subst w2. now apply is_dir_put_file. }
      assert (Hd3 : Fs.is_dir (Fs.put km (Fs.File (json_dumps (catalog_to_json m'))) w2)
                      (content_file (self s) file_name n) = true).
      { now apply is_dir_put_file. }
      apply read_bytes_not_dir in Hb2. congruence.
    - assert (Hr2 : Fs.read_bytes w2 (content_file (self s) file_name n) = Return B).
      { subst w2. now apply read_bytes_after_put. }
      apply read_bytes_put_file; auto.
      intros Hsame.
      assert (Hk2 : Fs.locate w2 (content_file (self s) file_name n) = Return kt).
      { subst w2. now apply locate_put_file. }
      apply (content_file_is_not_the_document w2 (self s) file_name n kt km Hplain Hk2 Hkm).
      congruence. }
  assert (b = B) by congruence. subst b.
  assert (Hout : Fs.read_bytes w4
                   (Fs.copy2_target (Fs.put km (Fs.File (json_dumps (catalog_to_json m'))) w2)
                      (content_file (self s) file_name n) (Pathlib.Path dest_path))
                 = Return B).
  { subst w4. now apply read_bytes_after_put. }
  split; [exact Hout|]. split.
  - apply hash_content_eq.
  - intros ev3 Hq. rewrite calculate_hash_eq. unfold opened.
    rewrite sys_quiet by exact Hq.
    change (hash r) with (hash_content B).
    match goal with
    | |- context [Fs.read_bytes ?d ?p] =>
        change (Fs.read_bytes d p) with
          (Fs.read_bytes w4
             (Fs.copy2_target (Fs.put km (Fs.File (json_dumps (catalog_to_json m'))) w2)
                (content_file (self s) file_name n) (Pathlib.Path dest_path)))
    end.
    rewrite Hout. reflexivity.
Qed.

(** ** Removing a tree *)

Lemma is_prefix_refl (k : Fs.key) : Fs.is_prefix k k = true.
Proof. rewrite <- (app_nil_r k) at 2. apply is_prefix_app. Qed.

Lemma locate_key_pure (w w' : Fs.world) (p : Pathlib.PurePath) (k k' : Fs.key) :
  Fs.cwd w' = Fs.cwd w ->
  Fs.locate w p = Return k -> Fs.locate w' p = Return k' -> k = k'.
Proof.
  intros Hc H H'. apply locate_Return in H. apply locate_Return in H'.
  destruct H as [_ H]. destruct H' as [_ H'].
  unfold Fs.start in *. rewrite Hc in H'. eapply walk_key_pure; eauto.
Qed.

Lemma cwd_without (w : Fs.world) (p : Pathlib.PurePath) : Fs.cwd (without w p) = Fs.cwd w.
Proof.
  unfold without. destruct (Fs.locate w p) as [k|e]; auto.
  destruct (Fs.nodes w k); auto.
Qed.

(** Once the tree at [p] is gone, there is nothing at [p]. *)
Lemma lookup_without (w : Fs.world) (p : Pathlib.PurePath) :
  Fs.lookup (without w p) p = None.
Proof.
  unfold Fs.lookup.
  destruct (Fs.locate (without w p) p) as [k'|e'] eqn:H'; auto.
  pose proof (cwd_without w p) as Hc.
  unfold without in *.
  destruct (Fs.locate w p) as [k|e] eqn:H.
  - destruct (Fs.nodes w k) as [nd|] eqn:Hn.
    + assert (k = k') by (eapply locate_key_pure; eauto). subst k'.
      simpl. now rewrite is_prefix_refl.
    + assert (k = k') by congruence. now subst k'.
  - congruence.
Qed.

Lemma rmtree_dir (w : Fs.world) (p : Pathlib.PurePath) :
  Fs.lookup w p = Some Fs.Dir -> Fs.rmtree w p = Return (without w p).
Proof.
  unfold Fs.lookup, Fs.rmtree, without.
  destruct (Fs.locate w p) as [k|e]; [|discriminate].
  intros H. now rewrite H.
Qed.

Lemma locate_put_file_inv (w : Fs.world) (km : Fs.key) (b : list byte)
      (p : Pathlib.PurePath) (k : Fs.key) :
  Fs.is_dir_at w km = false ->
  Fs.locate (Fs.put km (Fs.File b) w) p = Return k ->
  Fs.locate w p = Return k.
Proof.
  intros Hd Hl. apply locate_Return in Hl. destruct Hl as [Hs Hw].
  change (Fs.start (Fs.put km (Fs.File b) w) p) with (Fs.start w p) in *.
  apply locate_Return. split.
  - now rewrite is_dir_at_put_file in Hs.
  - revert Hw. apply walk_same_dirs. intros k0. symmetry. now apply is_dir_at_put_file.
Qed.

(** Nothing exists below a path that is not a directory. *)
Lemma nothing_below (w : Fs.world) (p q : Pathlib.PurePath) (c : string) (rest : list string) :
  Fs.is_dir w p = false ->
  Pathlib.absolute q = Pathlib.absolute p ->
  Pathlib.parts q = Pathlib.parts p ++ c :: rest ->
  Fs.exists_ w q = false.
Proof.
  intros Hnd Ha Hp. unfold Fs.exists_, Fs.lookup.
  destruct (Fs.locate w q) as [k|e] eqn:Hq; auto.
  exfalso. apply locate_Return in Hq. destruct Hq as [Hs Hw].
  unfold Fs.start in *. rewrite Ha in Hs, Hw. rewrite Hp in Hw.
  apply walk_app in Hw. destruct Hw as [k1 [H1 H2]].
  apply walk_through_dir in H2.
  assert (Hl : Fs.locate w p = Return k1) by (apply locate_Return; auto).
  unfold Fs.is_dir, Fs.lookup in Hnd. rewrite Hl in Hnd.
  unfold Fs.is_dir_at in H2. destruct (Fs.nodes w k1) as [[b|]|]; discriminate.
Qed.

Lemma file_dir_is_not_the_document
      (w : Fs.world) (v : DataVault) (file_name : string) (kd km : Fs.key) :
  Pathlib.plain file_name = true ->
  Fs.locate w (files_dir v / file_name)%path = Return kd ->
  Fs.locate w (metadata_file v) = Return km ->
  kd <> km.
Proof.
  intros Hp Hd Hm.
  destruct (content_file_parts v file_name 0 Hp) as [_ [Hf [_ [_ Hmf]]]].
  apply locate_Return in Hd. apply locate_Return in Hm.
  destruct Hd as [_ Hd]. destruct Hm as [_ Hm].
  unfold Fs.start in *. rewrite Hf in Hd. rewrite Hmf in Hm.
  cbn [Pathlib.absolute Pathlib.parts] in Hd, Hm.
  apply walk_app in Hd. destruct Hd as [kv [Hv Hd]].
  apply walk_app in Hm. destruct Hm as [kv' [Hv' Hm]].
  assert (kv' = kv) by congruence. subst kv'.
  apply walk_plain in Hd; [|repeat constructor; auto].
  apply walk_plain in Hm; [|repeat constructor].
  subst kd km. intros Heq. apply app_inv_head in Heq. discriminate.
Qed.

Lemma Dict_keys_del_filter (V : Type) (k : string) (d : Dict.t V) :
  Dict.keys (Dict.del k d) = filter (fun k' => negb (k' =? k)) (Dict.keys d).
Proof.
  unfold Dict.keys, Dict.del.
  induction d as [|[k0 v0] d IH]; simpl; auto.
  destruct (k0 =? k); simpl; now rewrite IH.
Qed.

(** ** C5: delete_file *)

(** C5. [delete_file] on an unknown name returns the failure "File not
    found" (NotFound) and changes nothing. On a known name (a plain one,
    as [add_file] makes them), when neither [rmtree] nor the write of the
    catalog document meets a fault, it returns success, the name is no
    longer among the keys (the others keep their order and entries), the
    directory of the file and every content file in it are gone, and
    [export_file] for the name returns NotFound. A successful [add_file]
    for the name afterwards makes a new entry at the end of the catalog,
    with one record, numbered 1, and the pointer on it. *)
Theorem delete_file_removes_entry_and_content (ev : env) (file_name : string) (s : state) :
  (Dict.contains file_name (metadata (self s)) = false ->
   delete_file json_dumps ev file_name s = (Return (false, "File not found"), s)) /\
  (Dict.contains file_name (metadata (self s)) = true ->
   Pathlib.plain file_name = true ->
   fault ev io_rmtree = None ->
   fault ev io_open_w = None ->
   (forall c, Fs.lookup (disk s) (files_dir (self s) / file_name)%path <> Some (Fs.File c)) ->
   Fs.writable (without (disk s) (files_dir (self s) / file_name)%path)
               (metadata_file (self s)) = true ->
   exists s',
     delete_file json_dumps ev file_name s =
       (Return (true, ("File '" ++ file_name ++ "' deleted")%string), s') /\
     ~ In file_name (get_file_list (self s')) /\
     get_file_list (self s') =
       filter (fun k => negb (k =? file_name)) (get_file_list (self s)) /\
     (forall other, other <> file_name ->
        Dict.get other (metadata (self s')) = Dict.get other (metadata (self s))) /\
     Fs.exists_ (disk s') (files_dir (self s) / file_name)%path = false /\
     (forall n, Fs.exists_ (disk s') (content_file (self s) file_name n) = false) /\
     (forall ev' dest_path,
        export_file ev' file_name dest_path s' = (Return (false, "File not found"), s')) /\
     (forall ev2 source_path msg s2,
        Pathlib.name (Pathlib.Path source_path) = file_name ->
        add_file json_dumps ev2 source_path s' = (Return (true, msg), s2) ->
        exists r,
          version r = 1 /\
          Dict.get file_name (metadata (self s2)) =
            Some {| name := file_name; versions := [r]; current_version := 0 |} /\
          get_file_list (self s2) = get_file_list (self s') ++ [file_name])).
Proof.
  split.
  - intros H. unfold delete_file, bind, get_metadata. now rewrite H.
  - intros Hk Hp Hf1 Hf2 Hnf Hw.
    set (file_dir := (files_dir (self s) / file_name)%path) in *.
    set (w1 := without (disk s) file_dir) in *.
    set (m' := Dict.del file_name (metadata (self s))).
    destruct (write_bytes_writable w1 (metadata_file (self s))
                (json_dumps (catalog_to_json m')) Hw) as [km [Hkm [Hkmd Hwr]]].
    exists (with_disk (with_metadata s m')
              (Fs.put km (Fs.File (json_dumps (catalog_to_json m'))) w1)).
    assert (Hrun : delete_file json_dumps ev file_name s =
                   (Return (true, ("File '" ++ file_name ++ "' deleted")%string),
                    with_disk (with_metadata s m')
                      (Fs.put km (Fs.File (json_dumps (catalog_to_json m'))) w1))).
    { destruct (delete_file json_dumps ev file_name s) as [o s'] eqn:H.
      apply delete_file_inv in H.
      destruct H as [Hc|x Hc Hex Hrm|o' w w1' m'' Hc Hlook Hend].
      - congruence.
      - exfalso. fold file_dir in Hex, Hrm. rewrite sys_quiet in Hrm by exact Hf1.
        unfold Fs.exists_ in Hex.
        destruct (Fs.lookup (disk s) file_dir) as [[c|]|] eqn:Hl; try discriminate.
        + now apply (Hnf c).
        + rewrite (rmtree_dir _ _ Hl) in Hrm. discriminate.
      - subst w1' m''. fold file_dir w1 m' in Hend.
        rewrite sys_quiet, Hwr in Hend by exact Hf2.
        destruct Hend as [-> ->]. reflexivity. }
    split; [exact Hrun|]. simpl.
    assert (Hnone : Dict.get file_name m' = None) by apply Dict_get_del_same.
    assert (Hgone : Fs.lookup (Fs.put km (Fs.File (json_dumps (catalog_to_json m'))) w1) file_dir
                    = None).
    { unfold Fs.lookup.
      destruct (Fs.locate (Fs.put km _ w1) file_dir) as [k|e] eqn:Hl; auto.
      apply locate_put_file_inv in Hl; auto.
      rewrite nodes_put_other.
      - pose proof (lookup_without (disk s) file_dir) as Hlw. fold w1 in Hlw.
        unfold Fs.lookup in Hlw. now rewrite Hl in Hlw.
      - now apply (file_dir_is_not_the_document w1 (self s) file_name k km). }
    repeat split.
    + apply Dict_keys_del.
    + apply Dict_keys_del_filter.
    + intros other Hne. now apply Dict_get_del_other.
    + unfold Fs.exists_. now rewrite Hgone.
    + intros n.
      destruct (content_file_parts (self s) file_name n Hp) as [_ [Hfd [_ [Hcf _]]]].
      apply nothing_below with (p := file_dir) (c := ("v" ++ str_int n)%string)
                               (rest := [file_name]).
      * unfold Fs.is_dir. now rewrite Hgone.
      * unfold file_dir. now rewrite Hcf, Hfd.
      * unfold file_dir. rewrite Hcf, Hfd. cbn [Pathlib.parts].
        now rewrite <- app_assoc.
    + intros ev' dest_path. unfold export_file, bind, get_metadata. simpl.
      unfold Dict.contains. now rewrite Hnone.
    + intros ev2 source_path msg s2 Hname Hadd.
      apply add_file_appends in Hadd. cbv zeta in Hadd. rewrite Hname in Hadd.
      destruct Hadd as [r [Hv [_ [Hget [Hm _]]]]].
      unfold get_versions, entry_or_new in *. simpl in Hv, Hget, Hm.
      rewrite Hnone in *. simpl in *.
      exists r. repeat split; auto.
      unfold get_file_list. rewrite Hm.
      rewrite Dict_set_absent by exact Hnone. unfold Dict.keys. now rewrite map_app.
Qed.

End Facts.

(* ================================================================== *)
(** * The facts at work in the small world *)

(** The scenario of the specification, step by step. *)
Ltac split_all := repeat match goal with |- _ /\ _ => split end.

Example demo_add :
  add_file Json.dumps (Demo.at_time "2024-01-01T10:00:00") "report.txt" Demo.fresh
  = (Return (true, "File 'report.txt' added as version 1"), Demo.added).
Proof. vm_compute. reflexivity. Qed.

Example demo_add_again :
  add_file Json.dumps (Demo.at_time "2024-01-02T10:00:00") "/home/./report.txt" Demo.edited
  = (Return (true, "File 'report.txt' added as version 2"), Demo.added_twice).
Proof. vm_compute. reflexivity. Qed.

Example demo_catalog :
  metadata (self Demo.added_twice) =
    [ ("report.txt",
       {| name := "report.txt";
          versions :=
            [ {| version := 1; timestamp := "2024-01-01T10:00:00"; size := 5;
                 hash := "2cf24dba5fb0a30e"; path := "files/report.txt/v1/report.txt" |};
              {| version := 2; timestamp := "2024-01-02T10:00:00"; size := 11;
                 hash := "b94d27b9934d3e08"; path := "files/report.txt/v2/report.txt" |} ];
          current_version := 1 |}) ].
Proof. vm_compute. reflexivity. Qed.

Example demo_rollback :
  rollback_version Json.dumps (Demo.at_time "") "report.txt" 0 Demo.added_twice
  = (Return (true, "Rolled back to version 1"), Demo.rolled_back).
Proof. vm_compute. reflexivity. Qed.

Example demo_export :
  export_file (Demo.at_time "") "report.txt" "/home/out.txt" Demo.rolled_back
  = (Return (true, "File exported to /home/out.txt"), Demo.exported) /\
  Fs.read_bytes (disk Demo.exported) (Pathlib.Path "/home/out.txt")
  = Return (list_byte_of_string "hello").
Proof. split; vm_compute; reflexivity. Qed.

Example demo_delete :
  delete_file Json.dumps (Demo.at_time "") "report.txt" Demo.exported
  = (Return (true, "File 'report.txt' deleted"), Demo.deleted) /\
  get_file_list (self Demo.deleted) = [] /\
  export_file (Demo.at_time "") "report.txt" "/home/out.txt" Demo.deleted
  = (Return (false, "File not found"), Demo.deleted).
Proof. split_all; vm_compute; reflexivity. Qed.

(** ** C1 at work *)

Lemma add_file_numbers_versions_witness :
  Dict.contains "report.txt" (metadata (self Demo.fresh)) = false /\
  history Json.dumps "report.txt" Demo.fresh 2 Demo.added_twice /\
  List.length (get_versions (self Demo.added_twice) "report.txt") = 2%nat /\
  map version (get_versions (self Demo.added_twice) "report.txt") = [1; 2].
Proof.
  assert (Hnew : Dict.contains "report.txt" (metadata (self Demo.fresh)) = false)
    by reflexivity.
  assert (Hh : history Json.dumps "report.txt" Demo.fresh 2 Demo.added_twice).
  { apply history_add with (s1 := Demo.edited) (ev := Demo.at_time "2024-01-02T10:00:00")
                           (source_path := "/home/./report.txt")
                           (msg := "File 'report.txt' added as version 2").
    - apply history_outside.
      apply history_add with (s1 := Demo.fresh) (ev := Demo.at_time "2024-01-01T10:00:00")
                             (source_path := "report.txt")
                             (msg := "File 'report.txt' added as version 1").
      + apply history_start.
      + reflexivity.
      + vm_compute. reflexivity.
    - reflexivity.
    - vm_compute. reflexivity. }
  destruct (add_file_numbers_versions Json.dumps "report.txt" Demo.fresh Demo.added_twice 2
              Hnew Hh) as [Hl [Hm _]].
  split_all; assumption.
Defined.

(** ** C2 at work *)

Lemma rollback_version_moves_the_pointer_only_witness :
  0 <= 0 < Z.of_nat (List.length (get_versions (self Demo.added_twice) "report.txt")) /\
  Fs.writable (disk Demo.added_twice) (metadata_file (self Demo.added_twice)) = true /\
  get_current_version_index (self Demo.added_twice) "report.txt" = 1 /\
  get_current_version_index (self Demo.rolled_back) "report.txt" = 0 /\
  get_versions (self Demo.rolled_back) "report.txt"
  = get_versions (self Demo.added_twice) "report.txt".
Proof.
  assert (Hget : Dict.get "report.txt" (metadata (self Demo.added_twice))
                 = Some (entry_or_new "report.txt" (metadata (self Demo.added_twice))))
    by (vm_compute; reflexivity).
  assert (Hr : 0 <= 0 < Z.of_nat (List.length
                 (versions (entry_or_new "report.txt" (metadata (self Demo.added_twice))))))
    by (vm_compute; split; [discriminate|reflexivity]).
  assert (Hw : Fs.writable (disk Demo.added_twice) (metadata_file (self Demo.added_twice)) = true)
    by (vm_compute; reflexivity).
  destruct (rollback_version_moves_the_pointer_only Json.dumps (Demo.at_time "") "report.txt" 0
              Demo.added_twice _ Hget Hr eq_refl Hw)
    as [s' [km [Hrun [Hcv [Hvs _]]]]].
  assert (Hs : s' = Demo.rolled_back) by (unfold Demo.rolled_back; now rewrite Hrun).
  subst s'.
  split_all; try assumption; vm_compute; try reflexivity; discriminate.
Defined.

(** ** C3 at work *)

Lemma rollback_version_refuses_witness :
  Dict.contains "nothing.txt" (metadata (self Demo.added_twice)) = false /\
  rollback_version Json.dumps (Demo.at_time "") "nothing.txt" 0 Demo.added_twice
  = (Return (false, "File not found"), Demo.added_twice) /\
  Z.of_nat (List.length (get_versions (self Demo.added_twice) "report.txt")) <= 2 /\
  rollback_version Json.dumps (Demo.at_time "") "report.txt" 2 Demo.added_twice
  = (Return (false, "Invalid version index"), Demo.added_twice) /\
  rollback_version Json.dumps (Demo.at_time "") "report.txt" (-1) Demo.added_twice
  = (Return (false, "Invalid version index"), Demo.added_twice).
Proof.
  assert (Hun : Dict.contains "nothing.txt" (metadata (self Demo.added_twice)) = false)
    by reflexivity.
  assert (Hk : Dict.contains "report.txt" (metadata (self Demo.added_twice)) = true)
    by reflexivity.
  assert (Hhi : Z.of_nat (List.length (get_versions (self Demo.added_twice) "report.txt")) <= 2)
    by (vm_compute; discriminate).
  assert (Hlo : -1 < 0) by reflexivity.
  split_all; try assumption.
  - exact (proj1 (rollback_version_refuses Json.dumps (Demo.at_time "") "nothing.txt" 0
                    Demo.added_twice) Hun).
  - exact (proj2 (rollback_version_refuses Json.dumps (Demo.at_time "") "report.txt" 2
                    Demo.added_twice) Hk (or_intror Hhi)).
  - exact (proj2 (rollback_version_refuses Json.dumps (Demo.at_time "") "report.txt" (-1)
                    Demo.added_twice) Hk (or_introl Hlo)).
Defined.

(** ** C4 at work: the empty file *)

Lemma add_then_export_round_trip_witness :
  Fs.read_bytes (disk Demo.fresh) (Pathlib.Path "empty.bin") = Return [] /\
  add_file Json.dumps (Demo.at_time "2024-01-04T10:00:00") "empty.bin" Demo.fresh
  = (Return (true, "File 'empty.bin' added as version 1"), Demo.added_empty) /\
  export_file (Demo.at_time "") "empty.bin" "/home/copy.bin" Demo.added_empty
  = (Return (true, "File exported to /home/copy.bin"), Demo.exported_empty) /\
  exists r,
    py_index (get_versions (self Demo.added_empty) "empty.bin")
             (get_current_version_index (self Demo.added_empty) "empty.bin") = Return r /\
    Fs.read_bytes (disk Demo.exported_empty)
      (Fs.copy2_target (disk Demo.added_empty) (vault_dir (self Demo.added_empty) / path r)%path
         (Pathlib.Path "/home/copy.bin")) = Return [] /\
    hash r = substring 0 16 (Hashlib.sha256_hex []).
Proof.
  assert (HB : Fs.read_bytes (disk Demo.fresh) (Pathlib.Path "empty.bin") = Return [])
    by (vm_compute; reflexivity).
  assert (Hadd : add_file Json.dumps (Demo.at_time "2024-01-04T10:00:00") "empty.bin" Demo.fresh
                 = (Return (true, "File 'empty.bin' added as version 1"), Demo.added_empty))
    by (vm_compute; reflexivity).
  assert (Hexp : export_file (Demo.at_time "") "empty.bin" "/home/copy.bin" Demo.added_empty
                 = (Return (true, "File exported to /home/copy.bin"), Demo.exported_empty))
    by (vm_compute; reflexivity).
  split_all; try assumption.
  destruct (add_then_export_round_trip Json.dumps _ _ "empty.bin" "/home/copy.bin" _ _
              Demo.fresh Demo.added_empty Demo.exported_empty [] HB Hadd Hexp)
    as [r [Hcur [Hout [Hh _]]]].
  exists r. split_all; assumption.
Defined.

(** ** C5 at work *)

Lemma delete_file_removes_entry_and_content_witness :
  Dict.contains "nothing.txt" (metadata (self Demo.exported)) = false /\
  delete_file Json.dumps (Demo.at_time "") "nothing.txt" Demo.exported
  = (Return (false, "File not found"), Demo.exported) /\
  Dict.contains "report.txt" (metadata (self Demo.exported)) = true /\
  Pathlib.plain "report.txt" = true /\
  Fs.exists_ (disk Demo.exported) (content_file (self Demo.exported) "report.txt" 1) = true /\
  Fs.writable (without (disk Demo.exported) (files_dir (self Demo.exported) / "report.txt")%path)
              (metadata_file (self Demo.exported)) = true /\
  exists s',
    delete_file Json.dumps (Demo.at_time "") "report.txt" Demo.exported
    = (Return (true, "File 'report.txt' deleted"), s') /\
    ~ In "report.txt" (get_file_list (self s')) /\
    (forall n, Fs.exists_ (disk s') (content_file (self Demo.exported) "report.txt" n) = false).
Proof.
  assert (Hun : Dict.contains "nothing.txt" (metadata (self Demo.exported)) = false)
    by reflexivity.
  assert (Hk : Dict.contains "report.txt" (metadata (self Demo.exported)) = true)
    by reflexivity.
  assert (Hp : Pathlib.plain "report.txt" = true) by reflexivity.
  assert (Hnf : forall c, Fs.lookup (disk Demo.exported)
                            (files_dir (self Demo.exported) / "report.txt")%path
                          <> Some (Fs.File c))
    by (intros c; vm_compute; discriminate).
  assert (Hw : Fs.writable (without (disk Demo.exported)
                              (files_dir (self Demo.exported) / "report.txt")%path)
                           (metadata_file (self Demo.exported)) = true)
    by (vm_compute; reflexivity).
  split_all; try assumption.
  - exact (proj1 (delete_file_removes_entry_and_content Json.dumps (Demo.at_time "")
                    "nothing.txt" Demo.exported) Hun).
  - destruct (proj2 (delete_file_removes_entry_and_content Json.dumps (Demo.at_time "")
                       "report.txt" Demo.exported) Hk Hp eq_refl eq_refl Hnf Hw)
      as [s' [Hrun [Hnot [_ [_ [_ [Hgone _]]]]]]].
    exists s'. split_all; assumption.
Defined.

(** ** C6 at work, and where the claim as worded fails *)

Lemma add_file_without_readable_source_witness :
  Fs.exists_ (disk Demo.added) (Pathlib.Path "/home/missing.txt") = false /\
  add_file Json.dumps (Demo.at_time "") "/home/missing.txt" Demo.added
  = (Return (false, "File does not exist"), Demo.added) /\
  Fs.exists_ (disk Demo.added) (Pathlib.Path Demo.long_name) = false /\
  fault Demo.stat_fails io_open_rb = Some OSError /\
  add_file Json.dumps Demo.stat_fails Demo.long_name Demo.added
  = (Raise OSError, Demo.added) /\
  Fs.exists_ (disk Demo.added) (Pathlib.Path "/home/a") = true /\
  Fs.read_bytes (disk Demo.added) (Pathlib.Path "/home/a") = Raise IsADirectoryError /\
  add_file Json.dumps (Demo.at_time "") "/home/a" Demo.added
  = (Raise IsADirectoryError, Demo.added).
Proof.
  assert (Hq : fault (Demo.at_time "") io_open_rb = None) by reflexivity.
  assert (Hno : Fs.exists_ (disk Demo.added) (Pathlib.Path "/home/missing.txt") = false)
    by (vm_compute; reflexivity).
  assert (Hlong : Fs.exists_ (disk Demo.added) (Pathlib.Path Demo.long_name) = false)
    by (vm_compute; reflexivity).
  assert (Hf : fault Demo.stat_fails io_open_rb = Some OSError) by reflexivity.
  assert (Hyes : Fs.exists_ (disk Demo.added) (Pathlib.Path "/home/a") = true)
    by (vm_compute; reflexivity).
  assert (Hrd : Fs.read_bytes (disk Demo.added) (Pathlib.Path "/home/a")
                = Raise IsADirectoryError)
    by (vm_compute; reflexivity).
  split_all; try assumption.
  - exact (proj1 (add_file_without_readable_source Json.dumps (Demo.at_time "")
                    "/home/missing.txt" Demo.added) Hq Hno).
  - exact (proj1 (proj2 (proj2 (add_file_without_readable_source Json.dumps Demo.stat_fails
                                  Demo.long_name Demo.added))) OSError Hf eq_refl).
  - exact (proj1 (proj2 (proj2 (proj2 (add_file_without_readable_source Json.dumps
                                         (Demo.at_time "") "/home/a" Demo.added))))
             IsADirectoryError Hq Hyes Hrd).
Defined.

(** Two source paths that do not reference an existing readable file, and
    no NotFound failure for either. The path [/home/a] names a directory:
    [IsADirectoryError] propagates from [calculate_hash]. Nothing is at the
    path of 300 letters, and its [stat] fails, the name being too long:
    the error propagates from [source.exists()]. *)
Lemma add_file_directory_source_is_not_NotFound :
  Fs.read_bytes (disk Demo.added) (Pathlib.Path "/home/a") = Raise IsADirectoryError /\
  fst (add_file Json.dumps (Demo.at_time "") "/home/a" Demo.added) = Raise IsADirectoryError /\
  fst (add_file Json.dumps (Demo.at_time "") "/home/a" Demo.added)
  <> Return (false, "File does not exist") /\
  Fs.exists_ (disk Demo.added) (Pathlib.Path Demo.long_name) = false /\
  fst (add_file Json.dumps Demo.stat_fails Demo.long_name Demo.added) = Raise OSError /\
  fst (add_file Json.dumps Demo.stat_fails Demo.long_name Demo.added)
  <> Return (false, "File does not exist").
Proof.
  split_all; try (vm_compute; reflexivity); vm_compute; discriminate.
Qed.

(** ** C7 at work *)

Lemma add_file_copy_fault_leaves_an_entry_witness :
  Dict.contains "report.txt" (metadata (self Demo.fresh)) = false /\
  Fs.exists_ (disk Demo.fresh) (Pathlib.Path "report.txt") = true /\
  fault Demo.disk_full io_copy2 = Some OSError /\
  exists s',
    add_file Json.dumps Demo.disk_full "report.txt" Demo.fresh = (Raise OSError, s') /\
    Dict.get "report.txt" (metadata (self s'))
    = Some {| name := "report.txt"; versions := []; current_version := 0 |} /\
    get_file_list (self s') = ["report.txt"] /\
    export_file (Demo.at_time "") "report.txt" "/home/out.txt" s' = (Raise IndexError, s').
Proof.
  assert (Hnew : Dict.contains "report.txt" (metadata (self Demo.fresh)) = false)
    by reflexivity.
  assert (Hex : Fs.exists_ (disk Demo.fresh) (Pathlib.Path "report.txt") = true)
    by (vm_compute; reflexivity).
  set (w1 := match Fs.mkdir true (disk Demo.fresh)
                     (version_dir_of (self Demo.fresh) "report.txt" 1) with
             | Return w => w
             | Raise _ => disk Demo.fresh
             end).
  destruct (add_file_copy_fault_leaves_an_entry Json.dumps Demo.disk_full (Demo.at_time "")
              "report.txt" "/home/out.txt" Demo.fresh (list_byte_of_string "hello") w1 OSError)
    as [s' [Hrun [Hvs [Hget [Hkeys [Hne Hexp]]]]]];
    try (vm_compute; reflexivity).
  split; [exact Hnew|]. split; [exact Hex|]. split; [reflexivity|].
  exists s'.
  split; [exact Hrun|]. split; [exact Hget|]. split; [exact Hkeys|exact Hexp].
Defined.

(** ** C8 at work, and where the claim as worded fails *)

Lemma load_metadata_decodes_without_schema_witness :
  Fs.read_bytes (Demo.with_document "{ not json")
    (Pathlib.Path "data_vault" / "metadata.json")%path
  = Return (list_byte_of_string "{ not json") /\
  Json.loads (list_byte_of_string "{ not json") = None /\
  load_metadata Json.loads (Demo.at_time "") (Pathlib.Path "data_vault" / "metadata.json")%path
    (Demo.with_document "{ not json") = Raise JSONDecodeError /\
  exists w',
    init Json.loads (Demo.at_time "") "data_vault" (Demo.with_document "{ not json")
    = (Raise JSONDecodeError, w') /\
    Fs.read_bytes w' (Pathlib.Path "data_vault" / "metadata.json")%path
    = Return (list_byte_of_string "{ not json").
Proof.
  assert (Hrd : Fs.read_bytes (Demo.with_document "{ not json")
                  (Pathlib.Path "data_vault" / "metadata.json")%path
                = Return (list_byte_of_string "{ not json"))
    by (vm_compute; reflexivity).
  assert (Hbad : Json.loads (list_byte_of_string "{ not json") = None)
    by (vm_compute; reflexivity).
  pose proof (load_metadata_decodes_without_schema Json.loads (Demo.at_time "") "data_vault"
                (Demo.with_document "{ not json")) as H.
  cbv zeta in H. destruct H as [_ [_ [Hload Hinit]]].
  split_all; try assumption.
  - apply Hload with (doc := list_byte_of_string "{ not json"); assumption.
  - destruct (Hinit _ Hrd Hbad) as [e [w' [Hrun [Hkept Hwhich]]]].
    assert (He : e = JSONDecodeError).
    { apply Hwhich; try reflexivity. intros c. vm_compute. discriminate. }
    subst e. exists w'. split; assumption.
Defined.

(** The document [[]] is there and is JSON, but no catalog of the schema:
    it is an array. [load_metadata] returns it all the same, and
    [__init__] succeeds with it as [self.metadata]. *)
Lemma load_metadata_accepts_a_document_off_schema :
  Fs.read_bytes (Demo.with_document "[]") (Pathlib.Path "data_vault" / "metadata.json")%path
  = Return (list_byte_of_string "[]") /\
  Json.loads (list_byte_of_string "[]") = Some (Json.Arr []) /\
  schema_catalog (Json.Arr []) = None /\
  load_metadata Json.loads (Demo.at_time "") (Pathlib.Path "data_vault" / "metadata.json")%path
    (Demo.with_document "[]") = Return (Json.Arr []) /\
  fst (init Json.loads (Demo.at_time "") "data_vault" (Demo.with_document "[]"))
  = Return (Pathlib.Path "data_vault", Json.Arr []).
Proof. split_all; vm_compute; reflexivity. Qed.

(** ** C9 at work: the fingerprint of ["hello"], and a file of two chunks *)


(** ** C10 at work *)

Lemma add_file_keys_by_name_witness :
  "a/notes.txt" <> "b/notes.txt" /\
  Pathlib.name (Pathlib.Path "a/notes.txt") = "notes.txt" /\
  Pathlib.name (Pathlib.Path "b/notes.txt") = "notes.txt" /\
  get_file_list (self Demo.added_b) = ["notes.txt"] /\
  exists r1 r2,
    get_versions (self Demo.added_b) "notes.txt" = [r1; r2] /\ version r2 = version r1 + 1.
Proof.
  assert (Hdiff : "a/notes.txt" <> "b/notes.txt") by discriminate.
  assert (H1 : add_file Json.dumps (Demo.at_time "2024-01-05T10:00:00") "a/notes.txt" Demo.fresh
               = (Return (true, "File 'notes.txt' added as version 1"), Demo.added_a))
    by (vm_compute; reflexivity).
  assert (H2 : add_file Json.dumps (Demo.at_time "2024-01-06T10:00:00") "b/notes.txt" Demo.added_a
               = (Return (true, "File 'notes.txt' added as version 2"), Demo.added_b))
    by (vm_compute; reflexivity).
  destruct (add_file_keys_by_name Json.dumps _ _ "a/notes.txt" "b/notes.txt" _ _
              Demo.fresh Demo.added_a Demo.added_b Hdiff eq_refl H1 H2)
    as [[r1 [r2 [Hvs Hnum]]] _].
  split_all; try assumption; try reflexivity.
  exists r1, r2. split; assumption.
Defined.

Unset Implicit Arguments.

(* ================================================================== *)
(** * More facts: what the engine keeps *)

(** Local definitions left by an inversion are put back in place. *)
Ltac unbind := repeat match goal with x := _ |- _ => subst x end.

Section Kept.

Variable json_dumps : Json.value -> list byte.

(** ** The shape of the catalog *)

Lemma catalog_shape_set (k : string) (e : entry) (m : catalog) :
  catalog_shape m -> entry_shape k e -> catalog_shape (Dict.set k e m).
Proof.
  intros Hm He k' e' Hget.
  destruct (string_dec k' k) as [->|Hne].
  - rewrite Dict_get_set_same in Hget. now inversion Hget; subst.
  - rewrite Dict_get_set_other in Hget by exact Hne. now apply Hm.
Qed.

Lemma catalog_shape_del (k : string) (m : catalog) :
  catalog_shape m -> catalog_shape (Dict.del k m).
Proof.
  intros Hm k' e' Hget.
  destruct (string_dec k' k) as [->|Hne].
  - now rewrite Dict_get_del_same in Hget.
  - rewrite Dict_get_del_other in Hget by exact Hne. now apply Hm.
Qed.

Lemma entry_shape_new (k : string) : Pathlib.plain k = true -> entry_shape k (new_entry k).
Proof.
  intros Hp. repeat split; auto.
  all: destruct i; discriminate.
Qed.

Lemma entry_shape_or_new (k : string) (m : catalog) :
  Pathlib.plain k = true -> catalog_shape m -> entry_shape k (entry_or_new k m).
Proof.
  intros Hp Hm. unfold entry_or_new.
  destruct (Dict.get k m) as [e|] eqn:He; [now apply Hm|now apply entry_shape_new].
Qed.

Lemma catalog_shape_with_entry (k : string) (m : catalog) :
  Pathlib.plain k = true -> catalog_shape m -> catalog_shape (with_entry k m).
Proof.
  intros Hp Hm. unfold with_entry.
  destruct (Dict.contains k m); [exact Hm|].
  apply catalog_shape_set; [exact Hm|now apply entry_shape_new].
Qed.

Lemma opened_name_plain (ev : env) (s : state) (source_path : string) (content : list byte) :
  opened ev s (Pathlib.Path source_path) = Return content ->
  Pathlib.plain (Pathlib.name (Pathlib.Path source_path)) = true.
Proof.
  unfold opened. intros H. apply sys_Return in H. destruct H as [_ H].
  now apply read_bytes_name_plain in H.
Qed.

Lemma entry_shape_with_new_version (k : string) (e : entry) (r : version_info) :
  entry_shape k e ->
  version r = Z.of_nat (List.length (versions e)) + 1 ->
  path r = locator k (version r) ->
  entry_shape k (with_new_version e r).
Proof.
  intros [Hp [Hn Hr]] Hv Hpath. split; [exact Hp|]. split; [exact Hn|].
  intros i r' Hnth. cbn [with_new_version versions] in Hnth.
  destruct (Nat.lt_ge_cases i (List.length (versions e))) as [Hlt|Hge].
  - rewrite nth_error_app1 in Hnth by exact Hlt. now apply Hr.
  - rewrite nth_error_app2 in Hnth by exact Hge.
    destruct (i - List.length (versions e))%nat as [|j] eqn:Hj.
    + inversion Hnth; subst r'. split; [|exact Hpath].
      rewrite Hv. f_equal. f_equal. lia.
    + destruct j; discriminate.
Qed.

Lemma add_file_keeps_shape (ev : env) (source_path : string) (s s' : state)
      (o : outcome (bool * string)) :
  catalog_shape (metadata (self s)) ->
  add_file json_dumps ev source_path s = (o, s') ->
  catalog_shape (metadata (self s')).
Proof.
  intros Hm H. apply add_file_inv in H.
  inversion H as [Hex|e Hex Hop|e content w src fn n Hex Hop Hflt
                  |content w1 w2 st_size rel o' w3 src fn m n r m'
                     Hex Hop Hmk Hcp Hst Hrel Hend]; subst; auto.
  - apply catalog_shape_with_entry; auto. now apply opened_name_plain in Hop.
  - pose proof (opened_name_plain _ _ _ _ Hop) as Hp.
    apply catalog_shape_set; auto.
    apply entry_shape_with_new_version.
    + now apply entry_shape_or_new.
    + reflexivity.
    + destruct (content_file_locator (self s) fn n rel Hp Hrel) as [Hstr _]. exact Hstr.
Qed.

Lemma rollback_version_keeps_shape (ev : env) (file_name : string) (version_index : Z)
      (s s' : state) (o : outcome (bool * string)) :
  catalog_shape (metadata (self s)) ->
  rollback_version json_dumps ev file_name version_index s = (o, s') ->
  catalog_shape (metadata (self s')).
Proof.
  intros Hm H. apply rollback_version_inv in H.
  destruct H as [->|[e [w [He [_ ->]]]]]; auto.
  apply catalog_shape_set; auto. exact (Hm _ _ He).
Qed.

Lemma export_file_self (ev : env) (file_name dest_path : string) (s s' : state)
      (o : outcome (bool * string)) :
  export_file ev file_name dest_path s = (o, s') -> self s' = self s.
Proof.
  intros H. apply export_file_inv in H. now inversion H; subst.
Qed.

Lemma delete_file_keeps_shape (ev : env) (file_name : string) (s s' : state)
      (o : outcome (bool * string)) :
  catalog_shape (metadata (self s)) ->
  delete_file json_dumps ev file_name s = (o, s') ->
  catalog_shape (metadata (self s')).
Proof.
  intros Hm H. apply delete_file_inv in H.
  inversion H; subst; auto.
  now apply catalog_shape_del.
Qed.

Lemma run_keeps_shape (c : call) (s s' : state) (o : outcome (bool * string)) :
  catalog_shape (metadata (self s)) ->
  run json_dumps c s = (o, s') ->
  catalog_shape (metadata (self s')).
Proof.
  destruct c; simpl; intros Hm H.
  - eapply add_file_keeps_shape; eauto.
  - eapply rollback_version_keeps_shape; eauto.
  - apply export_file_self in H. now rewrite H.
  - eapply delete_file_keeps_shape; eauto.
Qed.

End Kept.

(* ================================================================== *)
(** ** Frames *)

Section Frames.

Variable json_dumps : Json.value -> list byte.

Lemma keeps_refl (F T : Fs.key -> Prop) (w : Fs.world) : keeps F T w w.
Proof. split; auto. Qed.

Lemma keeps_trans (F T : Fs.key -> Prop) (w1 w2 w3 : Fs.world) :
  keeps F T w1 w2 -> keeps F T w2 w3 -> keeps F T w1 w3.
Proof.
  intros [C1 H1] [C2 H2]. split; [congruence|].
  intros k n Hn HT HF. apply H2; auto.
Qed.

Lemma keeps_extends (F T : Fs.key -> Prop) (w w' : Fs.world) :
  extends w w' -> keeps F T w w'.
Proof. intros [C H]. split; auto. Qed.

Lemma keeps_put_file (F T : Fs.key -> Prop) (w : Fs.world) (k : Fs.key) (b : list byte) :
  Fs.is_dir_at w k = false -> F k -> keeps F T w (Fs.put k (Fs.File b) w).
Proof.
  intros Hd HF. split; [reflexivity|].
  intros k' n Hn _ Hk. simpl.
  destruct (Fs.key_eqb k' k) eqn:E; [|exact Hn].
  apply key_eqb_eq in E. subst k'. exfalso.
  destruct Hk as [->|Hk]; [|now apply Hk].
  unfold Fs.is_dir_at in Hd. now rewrite Hn in Hd.
Qed.

Lemma keeps_prune (F T : Fs.key -> Prop) (w : Fs.world) (kp : Fs.key) :
  (forall k, Fs.is_prefix kp k = true -> T k) -> keeps F T w (Fs.prune kp w).
Proof.
  intros HT. split; [reflexivity|].
  intros k n Hn Hk _. simpl.
  destruct (Fs.is_prefix kp k) eqn:E; [|exact Hn].
  exfalso. now apply Hk, HT.
Qed.

Lemma keeps_weaken (F F' T T' : Fs.key -> Prop) (w w' : Fs.world) :
  (forall k, F k -> F' k) -> (forall k, T k -> T' k) ->
  keeps F T w w' -> keeps F' T' w w'.
Proof.
  intros HF HT [C H]. split; [exact C|].
  intros k n Hn Hk Hf. apply H; auto.
  destruct Hf as [->|Hf]; auto.
Qed.

(** *** Where the paths of the vault lead *)

Lemma locate_plain (w : Fs.world) (p : Pathlib.PurePath) (k : Fs.key) :
  Forall (fun c => Pathlib.plain c = true) (Pathlib.parts p) ->
  Fs.locate w p = Return k -> k = Fs.start w p ++ Pathlib.parts p.
Proof.
  intros Hp H. apply locate_Return in H. destruct H as [_ H].
  now apply walk_plain in H.
Qed.

Lemma start_same (w w' : Fs.world) (p q : Pathlib.PurePath) :
  Fs.cwd w' = Fs.cwd w -> Pathlib.absolute q = Pathlib.absolute p ->
  Fs.start w' q = Fs.start w p.
Proof. intros C A. unfold Fs.start. now rewrite C, A. Qed.

Lemma locate_under_vault (s : state) (w : Fs.world) (p : Pathlib.PurePath)
      (comps : list string) (k : Fs.key) :
  plain_vault (self s) ->
  Fs.cwd w = Fs.cwd (disk s) ->
  Forall (fun c => Pathlib.plain c = true) comps ->
  Pathlib.absolute p = Pathlib.absolute (vault_dir (self s)) ->
  Pathlib.parts p = Pathlib.parts (vault_dir (self s)) ++ comps ->
  Fs.locate w p = Return k ->
  k = vault_key s ++ comps.
Proof.
  intros Hv C Hc A P H. apply locate_plain in H.
  - rewrite H, P, app_assoc. unfold vault_key. f_equal. f_equal. now apply start_same.
  - rewrite P. apply Forall_app. split; assumption.
Qed.

Lemma locate_document (s : state) (w : Fs.world) (k : Fs.key) :
  plain_vault (self s) ->
  Fs.cwd w = Fs.cwd (disk s) ->
  Fs.locate w (metadata_file (self s)) = Return k ->
  k = document_key s.
Proof.
  intros Hv C H.
  apply (locate_under_vault s w (metadata_file (self s)) ["metadata.json"] k Hv C); auto.
  all: try solve [repeat constructor].
  all: unfold metadata_file; now rewrite joinpath_plain.
Qed.

Lemma locate_tree (s : state) (w : Fs.world) (file_name : string) (k : Fs.key) :
  plain_vault (self s) ->
  Pathlib.plain file_name = true ->
  Fs.cwd w = Fs.cwd (disk s) ->
  Fs.locate w (files_dir (self s) / file_name)%path = Return k ->
  k = tree_key s file_name.
Proof.
  intros Hv Hp C H.
  destruct (content_file_parts (self s) file_name 0 Hp) as [_ [Ht _]].
  apply (locate_under_vault s w (files_dir (self s) / file_name)%path
           ["files"; file_name] k Hv C); auto.
  all: try solve [repeat constructor; exact Hp].
  all: now rewrite Ht.
Qed.

Lemma content_comps_plain (file_name : string) (n : Z) :
  Pathlib.plain file_name = true ->
  Forall (fun c => Pathlib.plain c = true)
         ["files"; file_name; ("v" ++ str_int n)%string; file_name].
Proof.
  intros Hp. repeat constructor; auto. apply version_dir_name_plain.
Qed.

Lemma locate_content (s : state) (w : Fs.world) (file_name : string) (n : Z) (k : Fs.key) :
  plain_vault (self s) ->
  Pathlib.plain file_name = true ->
  Fs.cwd w = Fs.cwd (disk s) ->
  Fs.locate w (content_file (self s) file_name n) = Return k ->
  k = content_key s file_name n.
Proof.
  intros Hv Hp C H.
  destruct (content_file_parts (self s) file_name n Hp) as [_ [_ [_ [Hc _]]]].
  unfold content_key, tree_key. rewrite <- app_assoc.
  apply (locate_under_vault s w (content_file (self s) file_name n)
           ["files"; file_name; ("v" ++ str_int n)%string; file_name] k Hv C); auto.
  all: try solve [now apply content_comps_plain].
  all: now rewrite Hc.
Qed.

Lemma locate_inside_content (s : state) (w : Fs.world) (file_name : string) (n : Z) (k : Fs.key) :
  plain_vault (self s) ->
  Pathlib.plain file_name = true ->
  Fs.cwd w = Fs.cwd (disk s) ->
  Fs.locate w (content_file (self s) file_name n / file_name)%path = Return k ->
  k = content_key s file_name n ++ [file_name].
Proof.
  intros Hv Hp C H.
  destruct (content_file_parts (self s) file_name n Hp) as [_ [_ [_ [Hc _]]]].
  rewrite joinpath_plain in H by exact Hp. rewrite Hc in H.
  cbn [Pathlib.absolute Pathlib.parts] in H.
  unfold content_key, tree_key. rewrite <- !app_assoc.
  apply (locate_under_vault s w _
           (["files"; file_name; ("v" ++ str_int n)%string; file_name] ++ [file_name])
           k Hv C) in H; auto.
  - apply Forall_app. split; [now apply content_comps_plain|now repeat constructor].
  - cbn [Pathlib.parts]. now rewrite <- app_assoc.
Qed.


(** *** Reading through what is kept *)

Lemma is_prefix_trans (a b c : Fs.key) :
  Fs.is_prefix a b = true -> Fs.is_prefix b c = true -> Fs.is_prefix a c = true.
Proof.
  rewrite !is_prefix_spec. intros [r1 ->] [r2 ->]. exists (r1 ++ r2). now rewrite app_assoc.
Qed.

Lemma is_dir_at_keeps (F T : Fs.key -> Prop) (w w' : Fs.world) (k : Fs.key) :
  keeps F T w w' -> ~ T k -> Fs.is_dir_at w k = true -> Fs.is_dir_at w' k = true.
Proof.
  intros [_ H] HT. unfold Fs.is_dir_at.
  destruct (Fs.nodes w k) as [[b|]|] eqn:E; try discriminate.
  intros _. rewrite (H k Fs.Dir E HT); auto.
Qed.

Lemma walk_keeps (F T : Fs.key -> Prop) (w w' : Fs.world) (comps : list string) :
  keeps F T w w' ->
  Forall (fun c => Pathlib.plain c = true) comps ->
  forall cur k,
    Fs.walk w cur comps = Return k ->
    (forall k', Fs.is_prefix k' (cur ++ comps) = true -> ~ T k') ->
    Fs.walk w' cur comps = Return k.
Proof.
  intros Hk. induction comps as [|c comps IH]; simpl; intros Hall cur k H HT; [exact H|].
  inversion Hall as [|? ? Hc Hrest]; subst.
  destruct (Fs.enter w cur c) as [nxt|e] eqn:E; [|discriminate].
  apply enter_Return in E. apply plain_inv in Hc. destruct Hc as [_ [Hc _]].
  rewrite Hc in E. destruct E as [Hd ->].
  assert (E' : Fs.enter w' cur c = Return (cur ++ [c])).
  { apply enter_Return. rewrite Hc. split; [|reflexivity].
    apply (is_dir_at_keeps F T w w' cur Hk); auto.
    apply HT. apply is_prefix_app. }
  rewrite E'. apply IH; auto.
  intros k' Hpre. apply HT. now rewrite <- app_assoc in Hpre.
Qed.

Lemma read_bytes_keeps (F T : Fs.key -> Prop) (w w' : Fs.world)
      (p : Pathlib.PurePath) (B : list byte) :
  keeps F T w w' ->
  Forall (fun c => Pathlib.plain c = true) (Pathlib.parts p) ->
  Fs.read_bytes w p = Return B ->
  ~ F (Fs.start w p ++ Pathlib.parts p) ->
  (forall k', Fs.is_prefix k' (Fs.start w p ++ Pathlib.parts p) = true -> ~ T k') ->
  Fs.read_bytes w' p = Return B.
Proof.
  intros Hk Hp Hr HF HT.
  apply read_bytes_Return in Hr. destruct Hr as [k [Hloc Hn]].
  pose proof (locate_plain _ _ _ Hp Hloc) as ->.
  apply locate_Return in Hloc. destruct Hloc as [Hst Hw].
  assert (C : Fs.start w' p = Fs.start w p) by (apply start_same; [apply Hk|reflexivity]).
  apply read_bytes_Return. exists (Fs.start w p ++ Pathlib.parts p). split.
  - apply locate_Return. rewrite C. split.
    + apply (is_dir_at_keeps F T w w' _ Hk); auto. apply HT. apply is_prefix_app.
    + apply (walk_keeps F T w w' _ Hk Hp); auto.
  - destruct Hk as [_ Hk]. apply Hk; auto. apply HT. apply is_prefix_refl.
Qed.

(** *** What each operation keeps *)

Lemma write_document_keeps (F T : Fs.key -> Prop) (s : state) (w w' : Fs.world) (b : list byte) :
  plain_vault (self s) ->
  Fs.cwd w = Fs.cwd (disk s) ->
  F (document_key s) ->
  Fs.write_bytes w (metadata_file (self s)) b = Return w' ->
  keeps F T w w'.
Proof.
  intros Hv C HF H. apply write_bytes_Return in H.
  destruct H as [k [Hloc [Hd ->]]].
  apply keeps_put_file; auto.
  now rewrite (locate_document s w k Hv C Hloc).
Qed.

Lemma copy_keeps (F T : Fs.key -> Prop) (s : state) (w1 w2 : Fs.world)
      (source : Pathlib.PurePath) (n : Z) :
  plain_vault (self s) ->
  Pathlib.plain (Pathlib.name source) = true ->
  Fs.cwd w1 = Fs.cwd (disk s) ->
  F (content_key s (Pathlib.name source) n) ->
  F (content_key s (Pathlib.name source) n ++ [Pathlib.name source]) ->
  Fs.copy2 w1 source (content_file (self s) (Pathlib.name source) n) = Return w2 ->
  keeps F T w1 w2.
Proof.
  intros Hv Hp C HF1 HF2 H. apply copy2_Return in H.
  destruct H as [b [kt [_ [Hloc [Hd ->]]]]].
  apply keeps_put_file; auto.
  unfold Fs.copy2_target in Hloc.
  destruct (Fs.is_dir w1 (content_file (self s) (Pathlib.name source) n)).
  - now rewrite (locate_inside_content s w1 _ n kt Hv Hp C Hloc).
  - now rewrite (locate_content s w1 _ n kt Hv Hp C Hloc).
Qed.

Lemma sys_mkdir_keeps (F T : Fs.key -> Prop) (ev : env) (pt : io_point)
      (w w1 : Fs.world) (p : Pathlib.PurePath) (parents : bool) :
  sys ev pt (Fs.mkdir parents w p) = Return w1 -> keeps F T w w1.
Proof.
  intros H. apply sys_Return in H. destruct H as [_ H].
  apply keeps_extends. now apply mkdir_extends in H.
Qed.

Lemma add_file_frame (ev : env) (source_path : string) (s s' : state)
      (o : outcome (bool * string)) :
  plain_vault (self s) ->
  add_file json_dumps ev source_path s = (o, s') ->
  keeps (overwrites s (AddFile ev source_path)) (fun _ => False) (disk s) (disk s').
Proof.
  intros Hv H. apply add_file_inv in H.
  set (F := overwrites s (AddFile ev source_path)).
  set (T := fun _ : Fs.key => False).
  assert (HF1 : F (content_key s (Pathlib.name (Pathlib.Path source_path))
                     (next_version (Pathlib.name (Pathlib.Path source_path))
                        (metadata (self s)))))
    by (left; reflexivity).
  assert (HF2 : F (content_key s (Pathlib.name (Pathlib.Path source_path))
                     (next_version (Pathlib.name (Pathlib.Path source_path))
                        (metadata (self s)))
                   ++ [Pathlib.name (Pathlib.Path source_path)]))
    by (right; left; reflexivity).
  assert (HF3 : F (document_key s)) by (right; right; reflexivity).
  assert (Hcopy : forall w1 w2,
             Pathlib.plain (Pathlib.name (Pathlib.Path source_path)) = true ->
             sys ev io_mkdir
               (Fs.mkdir true (disk s)
                  (version_dir_of (self s) (Pathlib.name (Pathlib.Path source_path))
                     (next_version (Pathlib.name (Pathlib.Path source_path))
                        (metadata (self s))))) = Return w1 ->
             sys ev io_copy2
               (Fs.copy2 w1 (Pathlib.Path source_path)
                  (content_file (self s) (Pathlib.name (Pathlib.Path source_path))
                     (next_version (Pathlib.name (Pathlib.Path source_path))
                        (metadata (self s))))) = Return w2 ->
             keeps F T (disk s) w1 /\ keeps F T (disk s) w2 /\ Fs.cwd w2 = Fs.cwd (disk s)).
  { intros w1 w2 Hp Hmk Hcp.
    pose proof (sys_mkdir_keeps F T _ _ _ _ _ _ Hmk) as K1.
    apply sys_Return in Hcp. destruct Hcp as [_ Hcp].
    pose proof (copy_keeps F T s w1 w2 _ _ Hv Hp (proj1 K1) HF1 HF2 Hcp) as K2.
    split; [exact K1|]. split; [now apply keeps_trans with (w2 := w1)|].
    destruct K1 as [C1 _]. destruct K2 as [C2 _]. congruence. }
  inversion H as [Hex|e Hex Hop|e content w src fn n Hex Hop Hflt
                  |content w1 w2 st_size rel o' w3 src fn m n r m'
                     Hex Hop Hmk Hcp Hst Hrel Hend]; subst; simpl; try apply keeps_refl.
  - pose proof (opened_name_plain _ _ _ _ Hop) as Hp.
    inversion Hflt as [e' Hmk|e' w1 Hmk Hcp|e' w1 w2 Hmk Hcp Hst
                       |e' w1 w2 sz Hmk Hcp Hst Hrel]; subst.
    + apply keeps_refl.
    + exact (sys_mkdir_keeps F T _ _ _ _ _ _ Hmk).
    + now destruct (Hcopy w1 w Hp Hmk Hcp) as [_ [K _]].
    + now destruct (Hcopy w1 w Hp Hmk Hcp) as [_ [K _]].
  - pose proof (opened_name_plain _ _ _ _ Hop) as Hp.
    destruct (Hcopy w1 w2 Hp Hmk Hcp) as [_ [K2 C2]].
    destruct (sys ev io_open_w _) as [w|x] eqn:Hsave; destruct Hend as [_ ->]; [|exact K2].
    apply sys_Return in Hsave. destruct Hsave as [_ Hsave].
    apply keeps_trans with (w2 := w2); [exact K2|].
    now apply (write_document_keeps F T s w2 w _ Hv C2 HF3) in Hsave.
Qed.


Lemma save_metadata_frame (F T : Fs.key -> Prop) (ev : env) (s s' : state) (o : outcome unit) :
  plain_vault (self s) ->
  F (document_key s) ->
  save_metadata json_dumps ev s = (o, s') ->
  self s' = self s /\ keeps F T (disk s) (disk s').
Proof.
  intros Hv HF H. rewrite save_metadata_eq in H.
  destruct (sys ev io_open_w _) as [w|x] eqn:Hsave; inversion H; subst; clear H.
  - split; [reflexivity|]. simpl.
    apply sys_Return in Hsave. destruct Hsave as [_ Hsave].
    now apply (write_document_keeps F T s (disk s) w _ Hv eq_refl HF) in Hsave.
  - split; [reflexivity|apply keeps_refl].
Qed.

Lemma rollback_version_frame (ev : env) (file_name : string) (version_index : Z)
      (s s' : state) (o : outcome (bool * string)) :
  plain_vault (self s) ->
  rollback_version json_dumps ev file_name version_index s = (o, s') ->
  keeps (fun k => k = document_key s) (fun _ => False) (disk s) (disk s').
Proof.
  intros Hv H.
  destruct (Dict.get file_name (metadata (self s))) as [e|] eqn:He.
  - destruct (Z_lt_ge_dec version_index 0) as [Hlo|Hlo];
      [|destruct (Z_lt_ge_dec version_index (Z.of_nat (List.length (versions e)))) as [Hhi|Hhi]].
    + rewrite (rollback_version_out_of_range json_dumps ev _ _ _ _ He) in H by (left; lia).
      inversion H; subst. apply keeps_refl.
    + rewrite (rollback_version_in_range json_dumps ev _ _ _ _ He) in H by lia.
      cbv zeta in H.
      match type of H with
      | context [save_metadata json_dumps ev ?s1] =>
          destruct (save_metadata json_dumps ev s1) as [o1 s2] eqn:Hsave;
          apply (save_metadata_frame (fun k => k = document_key s) (fun _ => False)) in Hsave;
          [|exact Hv|reflexivity]
      end.
      destruct Hsave as [_ K]. simpl in K.
      destruct o1; inversion H; subst; exact K.
    + rewrite (rollback_version_out_of_range json_dumps ev _ _ _ _ He) in H by (right; lia).
      inversion H; subst. apply keeps_refl.
  - apply Dict_contains_false in He.
    rewrite (rollback_version_unknown json_dumps ev _ version_index _ He) in H.
    inversion H; subst. apply keeps_refl.
Qed.

Lemma export_file_frame (ev : env) (file_name dest_path : string) (s s' : state)
      (o : outcome (bool * string)) :
  export_file ev file_name dest_path s = (o, s') ->
  keeps (export_target s file_name dest_path) (fun _ => False) (disk s) (disk s').
Proof.
  intros H. apply export_file_inv in H.
  inversion H as [| | | |e r w Hget Hcur Hex Hcp]; subst; try apply keeps_refl.
  simpl. apply sys_Return in Hcp. destruct Hcp as [_ Hcp].
  apply copy2_str_Return in Hcp. apply copy2_Return in Hcp.
  destruct Hcp as [b [kt [_ [Hloc [Hd ->]]]]].
  apply keeps_put_file; auto.
  exists e, r. auto.
Qed.

Lemma without_keeps (F T : Fs.key -> Prop) (s : state) (file_name : string) :
  plain_vault (self s) ->
  Pathlib.plain file_name = true ->
  (forall k, Fs.is_prefix (tree_key s file_name) k = true -> T k) ->
  keeps F T (disk s) (without (disk s) (files_dir (self s) / file_name)%path).
Proof.
  intros Hv Hp HT. unfold without.
  destruct (Fs.locate (disk s) (files_dir (self s) / file_name)%path) as [k|x] eqn:Hloc;
    [|apply keeps_refl].
  destruct (Fs.nodes (disk s) k); [|apply keeps_refl].
  apply keeps_prune.
  now rewrite (locate_tree s (disk s) file_name k Hv Hp eq_refl Hloc).
Qed.

Lemma delete_file_frame (ev : env) (file_name : string) (s s' : state)
      (o : outcome (bool * string)) :
  plain_vault (self s) ->
  catalog_shape (metadata (self s)) ->
  delete_file json_dumps ev file_name s = (o, s') ->
  keeps (fun k => k = document_key s)
        (fun k => Fs.is_prefix (tree_key s file_name) k = true) (disk s) (disk s').
Proof.
  intros Hv Hm H. apply delete_file_inv in H.
  inversion H as [Hc|x Hc Hex Hrm|o' w w1 m' Hc Hlook Hend]; subst; try apply keeps_refl.
  simpl.
  apply Dict_contains_get in Hc. destruct Hc as [e He].
  destruct (Hm _ _ He) as [Hp _].
  set (F := fun k => k = document_key s).
  set (T := fun k => Fs.is_prefix (tree_key s file_name) k = true).
  assert (K1 : keeps F T (disk s) (without (disk s) (files_dir (self s) / file_name)%path))
    by (apply without_keeps; auto).
  destruct (sys ev io_open_w _) as [w'|x] eqn:Hsave; destruct Hend as [_ ->]; [|exact K1].
  apply sys_Return in Hsave. destruct Hsave as [_ Hsave].
  apply keeps_trans with (w2 := without (disk s) (files_dir (self s) / file_name)%path);
    [exact K1|].
  apply (write_document_keeps F T s _ w' _ Hv (cwd_without _ _)) in Hsave; [exact Hsave|].
  reflexivity.
Qed.

Lemma run_frame (c : call) (s s' : state) (o : outcome (bool * string)) :
  plain_vault (self s) ->
  catalog_shape (metadata (self s)) ->
  run json_dumps c s = (o, s') ->
  keeps (overwrites s c) (removes s c) (disk s) (disk s').
Proof.
  intros Hv Hm H. destruct c as [ev src|ev fn i|ev fn dest|ev fn]; simpl in H.
  - eapply add_file_frame; eauto.
  - apply rollback_version_frame in H; auto.
  - now apply export_file_frame in H.
  - apply delete_file_frame in H; auto.
Qed.

Lemma run_vault_dir (c : call) (s s' : state) (o : outcome (bool * string)) :
  run json_dumps c s = (o, s') -> vault_dir (self s') = vault_dir (self s).
Proof.
  destruct c as [ev src|ev fn i|ev fn dest|ev fn]; simpl; intros H.
  - apply add_file_inv in H. inversion H; subst; reflexivity.
  - apply rollback_version_inv in H. destruct H as [->|[e [w [_ [_ ->]]]]]; reflexivity.
  - apply export_file_self in H. now rewrite H.
  - apply delete_file_inv in H. inversion H; subst; reflexivity.
Qed.

End Frames.

(* ================================================================== *)
(** ** Stored versions stay *)

Section Stored.

Variable json_dumps : Json.value -> list byte.

Lemma locator_path (v : DataVault) (file_name : string) (n : Z) :
  Pathlib.plain file_name = true ->
  (vault_dir v / locator file_name n)%path = content_file v file_name n.
Proof.
  intros Hp.
  destruct (content_file_parts v file_name n Hp) as [_ [_ [_ [Hc _]]]].
  rewrite Hc. unfold locator, Pathlib.joinpath. rewrite Path_concat.
  - reflexivity.
  - discriminate.
  - now apply content_comps_plain.
Qed.

Lemma content_file_plain (v : DataVault) (file_name : string) (n : Z) :
  plain_vault v ->
  Pathlib.plain file_name = true ->
  Forall (fun c => Pathlib.plain c = true) (Pathlib.parts (content_file v file_name n)) /\
  Pathlib.absolute (content_file v file_name n) = Pathlib.absolute (vault_dir v) /\
  Pathlib.name (content_file v file_name n) = file_name.
Proof.
  intros Hv Hp.
  destruct (content_file_parts v file_name n Hp) as [_ [_ [_ [Hc _]]]].
  rewrite Hc. cbn [Pathlib.parts Pathlib.absolute]. split; [|split; [reflexivity|]].
  - apply Forall_app. split; [exact Hv|now apply content_comps_plain].
  - unfold Pathlib.name. cbn [Pathlib.parts].
    change ["files"; file_name; ("v" ++ str_int n)%string; file_name]
      with (["files"; file_name; ("v" ++ str_int n)%string] ++ [file_name]).
    rewrite app_assoc. apply last_last.
Qed.

Lemma content_file_key (s : state) (file_name : string) (n : Z) :
  plain_vault (self s) ->
  Pathlib.plain file_name = true ->
  Fs.start (disk s) (content_file (self s) file_name n)
    ++ Pathlib.parts (content_file (self s) file_name n)
  = content_key s file_name n.
Proof.
  intros Hv Hp.
  destruct (content_file_parts (self s) file_name n Hp) as [_ [_ [_ [Hc _]]]].
  rewrite Hc. unfold content_key, tree_key, vault_key, Fs.start.
  cbn [Pathlib.parts Pathlib.absolute]. now rewrite <- !app_assoc.
Qed.

Lemma to_int_not_nil (z : Z) :
  Z.to_int z <> Decimal.Pos Decimal.Nil /\ Z.to_int z <> Decimal.Neg Decimal.Nil.
Proof.
  destruct z as [|p|p]; simpl; split; try discriminate; intros E; inversion E as [E'];
    now apply DecimalPos.Unsigned.to_uint_nonnil in E'.
Qed.

Lemma str_int_inj (a b : Z) : str_int a = str_int b -> a = b.
Proof.
  unfold str_int. intros H.
  apply DecimalZ.to_int_inj.
  apply (f_equal NilZero.int_of_string) in H.
  destruct (to_int_not_nil a) as [A1 A2]. destruct (to_int_not_nil b) as [B1 B2].
  rewrite !NilZero.isi in H by assumption.
  now inversion H.
Qed.

(** *** Keys that cannot meet *)

Lemma content_key_eq (s : state) (file_name : string) (n : Z) :
  content_key s file_name n
  = vault_key s ++ ["files"; file_name; ("v" ++ str_int n)%string; file_name].
Proof. unfold content_key, tree_key. now rewrite <- app_assoc. Qed.

Lemma content_key_inj (s : state) (fn fn' : string) (n n' : Z) :
  content_key s fn n = content_key s fn' n' -> fn = fn' /\ n = n'.
Proof.
  rewrite !content_key_eq. intros H. apply app_inv_head in H.
  inversion H as [[Hf Hv]]. split; [reflexivity|now apply str_int_inj].
Qed.

Lemma content_key_not_inside (s : state) (fn fn' x : string) (n n' : Z) :
  content_key s fn n <> content_key s fn' n' ++ [x].
Proof.
  rewrite !content_key_eq, <- app_assoc. intros H. apply app_inv_head in H. discriminate.
Qed.

Lemma content_key_not_document (s : state) (fn : string) (n : Z) :
  content_key s fn n <> document_key s.
Proof.
  rewrite content_key_eq. unfold document_key. intros H. apply app_inv_head in H. discriminate.
Qed.

Lemma content_key_under_tree (s : state) (fn other : string) (n : Z) :
  Fs.is_prefix (tree_key s other) (content_key s fn n) = true -> other = fn.
Proof.
  intros H. apply is_prefix_spec in H. destruct H as [rest H].
  rewrite content_key_eq in H. unfold tree_key in H. rewrite <- app_assoc in H.
  apply app_inv_head in H. now inversion H.
Qed.

Lemma content_key_in_vault (s : state) (fn : string) (n : Z) :
  Fs.is_prefix (vault_key s) (content_key s fn n) = true.
Proof. rewrite content_key_eq. apply is_prefix_app. Qed.

(** *** The catalog side *)

Lemma add_file_versions_grow (ev : env) (source_path : string) (s s' : state)
      (o : outcome (bool * string)) (file_name : string) :
  add_file json_dumps ev source_path s = (o, s') ->
  exists more, get_versions (self s') file_name = get_versions (self s) file_name ++ more.
Proof.
  intros H.
  destruct (string_dec file_name (Pathlib.name (Pathlib.Path source_path))) as [->|Hne].
  - apply add_file_inv in H.
    inversion H as [Hex|e Hex Hop|e content w src fn n Hex Hop Hflt
                    |content w1 w2 st_size rel o' w3 src fn m n r m'
                       Hex Hop Hmk Hcp Hst Hrel Hend]; subst.
    + exists []. now rewrite app_nil_r.
    + exists []. now rewrite app_nil_r.
    + exists []. rewrite app_nil_r. simpl. apply get_versions_with_entry.
    + exists [r]. unfold get_versions at 1. simpl. unfold m'. rewrite Dict_get_set_same.
      cbn [with_new_version versions]. now rewrite get_versions_entry_or_new.
  - exists []. rewrite app_nil_r. unfold get_versions.
    now rewrite (add_file_other_keys json_dumps ev source_path s s' o file_name H Hne).
Qed.

Lemma run_keeps_records (c : call) (s s' : state) (o : outcome (bool * string))
      (file_name : string) (i : nat) (r : version_info) :
  spares file_name s c o ->
  run json_dumps c s = (o, s') ->
  nth_error (get_versions (self s) file_name) i = Some r ->
  nth_error (get_versions (self s') file_name) i = Some r.
Proof.
  intros Hsp H Hn.
  destruct c as [ev src|ev fn j|ev fn dest|ev fn].
  - simpl in H. destruct (add_file_versions_grow _ _ _ _ _ file_name H) as [more ->].
    rewrite nth_error_app1; [exact Hn|]. apply nth_error_Some. congruence.
  - now rewrite (run_beside json_dumps (RollbackVersion ev fn j) file_name s s' o I H).
  - now rewrite (run_beside json_dumps (ExportFile ev fn dest) file_name s s' o I H).
  - now rewrite (run_beside json_dumps (DeleteFile ev fn) file_name s s' o Hsp H).
Qed.

Lemma record_of_versions (s : state) (file_name : string) (i : nat) (r : version_info) :
  catalog_shape (metadata (self s)) ->
  nth_error (get_versions (self s) file_name) i = Some r ->
  Pathlib.plain file_name = true /\ record_shape file_name i r /\
  (i < List.length (get_versions (self s) file_name))%nat.
Proof.
  intros Hm Hn.
  assert (Hlt : (i < List.length (get_versions (self s) file_name))%nat)
    by (apply nth_error_Some; congruence).
  unfold get_versions in Hn.
  destruct (Dict.get file_name (metadata (self s))) as [e|] eqn:He;
    [|destruct i; discriminate].
  destruct (Hm _ _ He) as [Hp [_ Hr]]. auto.
Qed.

(** *** The file system side *)

Lemma current_record_shape (s : state) (file_name : string) (e : entry) (r : version_info) :
  catalog_shape (metadata (self s)) ->
  Dict.get file_name (metadata (self s)) = Some e ->
  py_index (versions e) (current_version e) = Return r ->
  Pathlib.plain file_name = true /\
  (vault_dir (self s) / path r)%path = content_file (self s) file_name (version r).
Proof.
  intros Hm He Hcur. destruct (Hm _ _ He) as [Hp [_ Hr]].
  apply py_index_Return in Hcur. destruct Hcur as [j [Hj _]].
  destruct (Hr _ _ Hj) as [_ Hpath].
  split; [exact Hp|]. rewrite Hpath. now apply locator_path.
Qed.

Lemma locate_joined (w : Fs.world) (p : Pathlib.PurePath) (c : string) (k : Fs.key) :
  Pathlib.plain c = true ->
  Fs.locate w (p / c)%path = Return k ->
  exists k1, Fs.locate w p = Return k1 /\ k = k1 ++ [c].
Proof.
  intros Hc H. rewrite joinpath_plain in H by exact Hc.
  apply locate_Return in H. unfold Fs.start in H. cbn [Pathlib.absolute Pathlib.parts] in H.
  destruct H as [Hd H]. apply walk_app in H. destruct H as [k1 [H1 H2]].
  exists k1. split.
  - apply locate_Return. unfold Fs.start. auto.
  - apply walk_plain in H2; [exact H2|]. now repeat constructor.
Qed.

Lemma export_target_outside (s : state) (file_name dest_path fn : string) (n : Z) :
  plain_vault (self s) ->
  catalog_shape (metadata (self s)) ->
  outside_the_vault s dest_path ->
  ~ export_target s file_name dest_path (content_key s fn n).
Proof.
  intros Hv Hm Hout [e [r [He [Hcur Hloc]]]].
  destruct (current_record_shape s file_name e r Hm He Hcur) as [Hp Hsrc].
  unfold Fs.copy2_target in Hloc.
  destruct (Fs.is_dir (disk s) (Pathlib.Path dest_path)).
  - rewrite Hsrc in Hloc.
    destruct (content_file_plain (self s) file_name (version r) Hv Hp) as [_ [_ Hname]].
    rewrite Hname in Hloc.
    apply locate_joined in Hloc; [|exact Hp]. destruct Hloc as [k1 [Hk1 Hk]].
    apply Hout in Hk1.
    rewrite content_key_eq in Hk.
    change ["files"; fn; ("v" ++ str_int n)%string; fn]
      with (["files"; fn; ("v" ++ str_int n)%string] ++ [fn]) in Hk.
    rewrite app_assoc in Hk. apply app_inj_tail in Hk. destruct Hk as [Hk _].
    rewrite <- Hk, is_prefix_app in Hk1. discriminate.
  - apply Hout in Hloc. rewrite content_key_in_vault in Hloc. discriminate.
Qed.

Lemma run_spares_content (c : call) (s : state) (o : outcome (bool * string))
      (file_name : string) (i : nat) (r : version_info) :
  plain_vault (self s) ->
  catalog_shape (metadata (self s)) ->
  spares file_name s c o ->
  nth_error (get_versions (self s) file_name) i = Some r ->
  ~ overwrites s c (content_key s file_name (version r)) /\
  forall k', Fs.is_prefix k' (content_key s file_name (version r)) = true -> ~ removes s c k'.
Proof.
  intros Hv Hm Hsp Hn.
  destruct (record_of_versions s file_name i r Hm Hn) as [Hp [[Hver _] Hlt]].
  destruct c as [ev src|ev fn j|ev fn dest|ev fn]; simpl; (split; [|try (intros k' _ []; fail)]).
  - intros [H|[H|H]].
    + apply content_key_inj in H. destruct H as [Hfn Hnum].
      unfold next_version in Hnum. rewrite <- get_versions_entry_or_new, <- Hfn in Hnum. lia.
    + now apply content_key_not_inside in H.
    + now apply content_key_not_document in H.
  - apply content_key_not_document.
  - now apply export_target_outside.
  - apply content_key_not_document.
  - intros k' Hpre Hrm. simpl in Hsp. apply Hsp.
    apply (content_key_under_tree s file_name fn (version r)).
    now apply is_prefix_trans with (b := k').
Qed.

Lemma holds_step (c : call) (s s' : state) (o : outcome (bool * string))
      (file_name : string) (i : nat) (r : version_info) (B : list byte) :
  plain_vault (self s) ->
  catalog_shape (metadata (self s)) ->
  holds s file_name i r B ->
  spares file_name s c o ->
  run json_dumps c s = (o, s') ->
  holds s' file_name i r B.
Proof.
  intros Hv Hm [Hn Hr] Hsp H. split.
  - eapply run_keeps_records; eauto.
  - rewrite (run_vault_dir json_dumps c s s' o H).
    destruct (record_of_versions s file_name i r Hm Hn) as [Hp [[_ Hpath] _]].
    rewrite Hpath, locator_path in * by exact Hp.
    destruct (content_file_plain (self s) file_name (version r) Hv Hp) as [Hplain _].
    destruct (run_spares_content c s o file_name i r Hv Hm Hsp Hn) as [HF HT].
    apply (read_bytes_keeps (overwrites s c) (removes s c) (disk s) (disk s')); auto.
    + now apply (run_frame json_dumps) with (o := o).
    + now rewrite content_file_key.
    + now rewrite content_file_key.
Qed.

(** *** Changes from outside, and whole sessions *)

Lemma prefix_comparable (k a b : Fs.key) :
  Fs.is_prefix k (a ++ b) = true ->
  Fs.is_prefix k a = true \/ Fs.is_prefix a k = true.
Proof.
  revert a. induction k as [|x k IH]; intros a H; [now left|].
  destruct a as [|y a]; [now right|].
  simpl in *. apply andb_true_iff in H. destruct H as [Hxy H].
  rewrite Hxy. simpl.
  assert (Hyx : (y =? x) = true) by (apply String.eqb_eq in Hxy; subst; apply String.eqb_refl).
  rewrite Hyx. simpl. now apply IH.
Qed.

Lemma spares_the_vault_keeps (s : state) (w : Fs.world) :
  spares_the_vault s w ->
  keeps (fun _ => False)
        (fun k => Fs.is_prefix k (vault_key s) = false /\ Fs.is_prefix (vault_key s) k = false)
        (disk s) w.
Proof.
  intros [C H]. split; [exact C|].
  intros k n Hn HT _. rewrite H; [exact Hn|].
  destruct (Fs.is_prefix k (vault_key s)) eqn:E1; [now left|].
  destruct (Fs.is_prefix (vault_key s) k) eqn:E2; [now right|].
  exfalso. now apply HT.
Qed.

Lemma holds_outside (s : state) (w : Fs.world)
      (file_name : string) (i : nat) (r : version_info) (B : list byte) :
  plain_vault (self s) ->
  catalog_shape (metadata (self s)) ->
  holds s file_name i r B ->
  spares_the_vault s w ->
  holds (with_disk s w) file_name i r B.
Proof.
  intros Hv Hm [Hn Hr] Hw. split; [exact Hn|]. simpl.
  destruct (record_of_versions s file_name i r Hm Hn) as [Hp [[_ Hpath] _]].
  rewrite Hpath, locator_path in * by exact Hp.
  destruct (content_file_plain (self s) file_name (version r) Hv Hp) as [Hplain _].
  apply (read_bytes_keeps _ _ (disk s) w _ _ (spares_the_vault_keeps s w Hw)); auto.
  intros k' Hpre [H1 H2].
  rewrite content_file_key, content_key_eq in Hpre by assumption.
  apply prefix_comparable in Hpre. destruct Hpre; congruence.
Qed.

Lemma vault_key_step (c : call) (s s' : state) (o : outcome (bool * string)) :
  plain_vault (self s) ->
  catalog_shape (metadata (self s)) ->
  run json_dumps c s = (o, s') ->
  vault_key s' = vault_key s.
Proof.
  intros Hv Hm H. unfold vault_key.
  rewrite (run_vault_dir json_dumps c s s' o H).
  f_equal. apply start_same; [|reflexivity].
  apply (run_frame json_dumps c s s' o Hv Hm H).
Qed.

Lemma session_holds (s0 s : state)
      (file_name : string) (i : nat) (r : version_info) (B : list byte) :
  plain_vault (self s0) ->
  catalog_shape (metadata (self s0)) ->
  holds s0 file_name i r B ->
  session json_dumps (spares file_name) spares_the_vault s0 s ->
  plain_vault (self s) /\ catalog_shape (metadata (self s)) /\ holds s file_name i r B.
Proof.
  intros Hv Hm Hh Hs.
  induction Hs as [|s1 c o s2 Hs [Hv1 [Hm1 Hh1]] Hal Hrun|s1 w Hs [Hv1 [Hm1 Hh1]] Hout].
  - auto.
  - split; [|split].
    + unfold plain_vault. now rewrite (run_vault_dir json_dumps c s1 s2 o Hrun).
    + now apply (run_keeps_shape json_dumps c s1 s2 o).
    + now apply (holds_step c s1 s2 o).
  - split; [exact Hv1|]. split; [exact Hm1|]. now apply holds_outside.
Qed.

Lemma put_spares_the_vault (s : state) (k : Fs.key) (n : Fs.node) :
  Fs.is_prefix k (vault_key s) = false ->
  Fs.is_prefix (vault_key s) k = false ->
  spares_the_vault s (Fs.put k n (disk s)).
Proof.
  intros H1 H2. split; [reflexivity|].
  intros k' Hk. simpl.
  destruct (Fs.key_eqb k' k) eqn:E; [|reflexivity].
  apply key_eqb_eq in E. subst k'. destruct Hk; congruence.
Qed.

End Stored.

(* ================================================================== *)
(** ** The record of a successful [add_file] *)

Section Record.

Variable json_dumps : Json.value -> list byte.





End Record.

(* ================================================================== *)
(** ** Whole sessions *)

Section Sessions.

Variable json_dumps : Json.value -> list byte.

Lemma shape_maps (k : string) (l : list version_info) :
  forall a : nat,
    (forall i r, nth_error l i = Some r ->
                 version r = Z.of_nat (a + i) + 1 /\ path r = locator k (version r)) ->
    map version l = map Z.of_nat (seq (S a) (List.length l)) /\
    map path l = map (fun n => locator k (Z.of_nat n)) (seq (S a) (List.length l)).
Proof.
  induction l as [|r l IH]; intros a H; [split; reflexivity|].
  destruct (H 0%nat r eq_refl) as [Hv Hp].
  destruct (IH (S a)) as [IH1 IH2].
  { intros i r' Hn. replace (S a + i)%nat with (a + S i)%nat by lia. now apply H. }
  assert (Hv' : version r = Z.of_nat (S a)) by (rewrite Hv; lia).
  cbn [List.length seq map]. rewrite IH1, IH2, Hp, Hv'. split; reflexivity.
Qed.

Lemma session_shape (allowed : state -> call -> outcome (bool * string) -> Prop)
      (outside : state -> Fs.world -> Prop) (s0 s : state) :
  catalog_shape (metadata (self s0)) ->
  session json_dumps allowed outside s0 s ->
  catalog_shape (metadata (self s)).
Proof.
  intros Hm Hs. induction Hs as [|s1 c o s2 Hs IH Hal Hrun|s1 w Hs IH Hout]; auto.
  now apply (run_keeps_shape json_dumps c s1 s2 o).
Qed.

(** X1. However the calls end, and whatever happens to the file system in
    between, the catalog stays in shape: every key is a plain file name,
    every entry carries its key as [name], its records are numbered 1, 2,
    ... in order, and the record numbered [n] has the locator
    [files/<name>/v<n>/<name>]. *)
Theorem session_keeps_the_catalog_in_shape (s0 s : state) :
  catalog_shape (metadata (self s0)) ->
  session json_dumps any_call any_change s0 s ->
  forall file_name e,
    Dict.get file_name (metadata (self s)) = Some e ->
    Pathlib.plain file_name = true /\
    name e = file_name /\
    map version (versions e) = map Z.of_nat (seq 1 (List.length (versions e))) /\
    map path (versions e)
    = map (fun n => locator file_name (Z.of_nat n)) (seq 1 (List.length (versions e))).
Proof.
  intros Hm Hs file_name e He.
  destruct (session_shape _ _ s0 s Hm Hs file_name e He) as [Hp [Hn Hr]].
  split; [exact Hp|]. split; [exact Hn|].
  apply shape_maps with (a := 0%nat). intros i r Hi. now apply Hr.
Qed.

(** *** The pointer *)

Lemma pointers_set (k : string) (e : entry) (m : catalog) :
  pointers_in_range m ->
  0 <= current_version e < Z.of_nat (List.length (versions e)) ->
  pointers_in_range (Dict.set k e m).
Proof.
  intros Hm He k' e' Hget.
  destruct (string_dec k' k) as [->|Hne].
  - rewrite Dict_get_set_same in Hget. now inversion Hget; subst.
  - rewrite Dict_get_set_other in Hget by exact Hne. now apply (Hm k').
Qed.

Lemma run_keeps_pointers (c : call) (s s' : state) (res : bool * string) :
  pointers_in_range (metadata (self s)) ->
  run json_dumps c s = (Return res, s') ->
  pointers_in_range (metadata (self s')).
Proof.
  intros Hm H. destruct c as [ev src|ev fn j|ev fn dest|ev fn]; simpl in H.
  - apply add_file_inv in H.
    inversion H as [Hex|e Hex Hop|e content w srcp fn n Hex Hop Hflt
                    |content w1 w2 st_size rel o' w3 srcp fn m n r m'
                       Hex Hop Hmk Hcp Hst Hrel Hend]; subst; auto.
    simpl. apply pointers_set; auto.
    cbn [with_new_version versions current_version]. rewrite length_app. simpl. lia.
  - apply rollback_version_inv in H.
    destruct H as [->|[e [w [He [Hr ->]]]]]; auto.
    simpl. now apply pointers_set.
  - apply export_file_self in H. now rewrite H.
  - apply delete_file_inv in H. inversion H; subst; auto.
    unbind. simpl. intros k e Hget.
    destruct (string_dec k fn) as [->|Hne].
    + now rewrite Dict_get_del_same in Hget.
    + rewrite Dict_get_del_other in Hget by exact Hne. now apply (Hm k).
Qed.

(** X2. As long as no call raises, every entry has a current version: its
    [current_version] is the index of one of its records, and the lookup
    [versions[current_version]] of [export_file] finds that record, so
    that an exception that leaves [export_file] is never the [IndexError]
    of that lookup. *)
Theorem returning_session_keeps_a_current_version (s0 s : state) :
  pointers_in_range (metadata (self s0)) ->
  session json_dumps returns any_change s0 s ->
  (forall file_name,
     In file_name (get_file_list (self s)) ->
     0 <= get_current_version_index (self s) file_name
       < Z.of_nat (List.length (get_versions (self s) file_name)) /\
     exists r,
       py_index (get_versions (self s) file_name)
                (get_current_version_index (self s) file_name) = Return r) /\
  (forall ev file_name dest_path x s',
     export_file ev file_name dest_path s = (Raise x, s') ->
     exists r,
       py_index (get_versions (self s) file_name)
                (get_current_version_index (self s) file_name) = Return r).
Proof.
  intros Hm Hs.
  assert (Hp : pointers_in_range (metadata (self s))).
  { induction Hs as [|s1 c o s2 Hs IH Hal Hrun|s1 w Hs IH Hout]; auto.
    unfold returns in Hal. destruct o as [res|x]; [|discriminate].
    now apply (run_keeps_pointers c s1 s2 res). }
  assert (Hcur : forall file_name e,
             Dict.get file_name (metadata (self s)) = Some e ->
             exists r, py_index (versions e) (current_version e) = Return r).
  { intros file_name e He. pose proof (Hp _ _ He) as Hr.
    destruct (nth_error (versions e) (Z.to_nat (current_version e))) as [r|] eqn:Hn.
    - exists r. apply py_index_in_range in Hn. now rewrite Z2Nat.id in Hn by lia.
    - apply nth_error_None in Hn. lia. }
  split.
  - intros file_name Hin. apply Dict_get_In_keys in Hin. destruct Hin as [e He].
    unfold get_current_version_index, get_versions. rewrite He.
    split; [now apply (Hp file_name)|now apply (Hcur file_name)].
  - intros ev file_name dest_path x s' H. apply export_file_inv in H.
    unfold get_current_version_index, get_versions.
    inversion H as [|e He Hidx| |e r x' He Hidx Hex Hcp|]; subst.
    + destruct (Hcur _ _ He) as [r Hr]. congruence.
    + rewrite He. exists r. exact Hidx.
Qed.

End Sessions.

(* ================================================================== *)
(** ** Versions, once stored *)

Section Versions.

Variable json_dumps : Json.value -> list byte.


(** X4. What a call leaves alone on the file system. The working directory
    stays. No directory goes but those of the tree [delete_file] removes,
    and none is replaced by a file. No regular file goes or changes but
    those in that tree and those the call writes: the content file of the
    new version and the catalog document for [add_file], the document for
    [rollback_version] and [delete_file], the destination for
    [export_file]. *)
Theorem run_leaves_the_rest_alone (c : call) (s s' : state) (o : outcome (bool * string)) :
  plain_vault (self s) ->
  catalog_shape (metadata (self s)) ->
  run json_dumps c s = (o, s') ->
  Fs.cwd (disk s') = Fs.cwd (disk s) /\
  vault_dir (self s') = vault_dir (self s) /\
  (forall k, Fs.nodes (disk s) k = Some Fs.Dir -> ~ removes s c k ->
             Fs.nodes (disk s') k = Some Fs.Dir) /\
  (forall k b, Fs.nodes (disk s) k = Some (Fs.File b) -> ~ removes s c k ->
               ~ overwrites s c k ->
               Fs.nodes (disk s') k = Some (Fs.File b)).
Proof.
  intros Hv Hm H.
  destruct (run_frame json_dumps c s s' o Hv Hm H) as [C K].
  split; [exact C|]. split; [exact (run_vault_dir json_dumps c s s' o H)|]. split.
  - intros k Hn Hr. apply K; auto.
  - intros k b Hn Hr Hw. apply K; auto.
Qed.

(** X5. A version, once it is in the catalog with its content stored, stays:
    through any calls but [delete_file] of its name and [export_file]
    aimed into the vault, however they end, and through outside changes
    that leave the vault alone, the record at its index is the same record
    and its stored content reads as the same bytes. *)
Theorem stored_version_stays
        (s0 s : state) (file_name : string) (i : nat) (r : version_info) (B : list byte) :
  plain_vault (self s0) ->
  catalog_shape (metadata (self s0)) ->
  nth_error (get_versions (self s0) file_name) i = Some r ->
  Fs.read_bytes (disk s0) (vault_dir (self s0) / path r)%path = Return B ->
  session json_dumps (spares file_name) spares_the_vault s0 s ->
  nth_error (get_versions (self s) file_name) i = Some r /\
  Fs.read_bytes (disk s) (vault_dir (self s) / path r)%path = Return B.
Proof.
  intros Hv Hm Hn Hr Hs.
  destruct (session_holds json_dumps s0 s file_name i r B Hv Hm (conj Hn Hr) Hs)
    as [_ [_ Hh]].
  exact Hh.
Qed.




End Versions.

(* ================================================================== *)
(** * The further facts at work in the small world *)

Ltac conjs := repeat match goal with |- _ /\ _ => split end.


Lemma demo_empty_shape : catalog_shape (metadata (self Demo.fresh)).
Proof. intros k e H. discriminate H. Qed.

Lemma demo_run (c : call) (s : state) :
  run Json.dumps c s = (fst (run Json.dumps c s), snd (run Json.dumps c s)).
Proof. now destruct (run Json.dumps c s). Qed.

(** The user's edit of [report.txt] leaves the vault alone. *)
Lemma demo_edit_spares : spares_the_vault Demo.added (disk Demo.edited).
Proof.
  apply (put_spares_the_vault Demo.added ["home"; "report.txt"] (Demo.file "hello world"));
    vm_compute; reflexivity.
Qed.

(** A session in which one call raises: [report.txt] is added, then the
    copy of [empty.bin] runs out of disk space. *)
Lemma session_keeps_the_catalog_in_shape_witness :
  fst (add_file Json.dumps Demo.disk_full "empty.bin" Demo.added) = Raise OSError /\
  forall file_name e,
    Dict.get file_name
      (metadata (self (snd (add_file Json.dumps Demo.disk_full "empty.bin" Demo.added))))
    = Some e ->
    name e = file_name /\
    map version (versions e) = map Z.of_nat (seq 1 (List.length (versions e))).
Proof.
  split; [vm_compute; reflexivity|].
  intros file_name e He.
  assert (Hs : session Json.dumps any_call any_change Demo.fresh
                 (snd (add_file Json.dumps Demo.disk_full "empty.bin" Demo.added))).
  { apply session_call with (s1 := Demo.added) (c := AddFile Demo.disk_full "empty.bin")
                            (o := Raise OSError).
    - apply session_call with (s1 := Demo.fresh)
                              (c := AddFile (Demo.at_time "2024-01-01T10:00:00") "report.txt")
                              (o := Return (true, "File 'report.txt' added as version 1")).
      + apply session_start.
      + exact I.
      + vm_compute. reflexivity.
    - exact I.
    - vm_compute. reflexivity. }
  destruct (session_keeps_the_catalog_in_shape Json.dumps Demo.fresh _ demo_empty_shape Hs
              file_name e He) as [_ [Hn [Hv _]]].
  split; assumption.
Defined.

(** The session of the small world, none of whose calls raises. *)
Lemma demo_session (allowed : state -> call -> outcome (bool * string) -> Prop)
      (outside : state -> Fs.world -> Prop) :
  (forall s c res, allowed s c (Return res)) ->
  (forall s w, outside s w) ->
  session Json.dumps allowed outside Demo.fresh Demo.exported.
Proof.
  intros Hal Hout.
  apply session_call with (s1 := Demo.rolled_back)
                          (c := ExportFile (Demo.at_time "") "report.txt" "/home/out.txt")
                          (o := Return (true, "File exported to /home/out.txt"));
    [|apply Hal|vm_compute; reflexivity].
  apply session_call with (s1 := Demo.added_twice)
                          (c := RollbackVersion (Demo.at_time "") "report.txt" 0)
                          (o := Return (true, "Rolled back to version 1"));
    [|apply Hal|vm_compute; reflexivity].
  apply session_call with (s1 := Demo.edited)
                          (c := AddFile (Demo.at_time "2024-01-02T10:00:00") "/home/./report.txt")
                          (o := Return (true, "File 'report.txt' added as version 2"));
    [|apply Hal|vm_compute; reflexivity].
  apply (session_outside Json.dumps allowed outside Demo.fresh Demo.added (disk Demo.edited));
    [|apply Hout].
  apply session_call with (s1 := Demo.fresh)
                          (c := AddFile (Demo.at_time "2024-01-01T10:00:00") "report.txt")
                          (o := Return (true, "File 'report.txt' added as version 1"));
    [apply session_start|apply Hal|vm_compute; reflexivity].
Qed.

Lemma returning_session_keeps_a_current_version_witness :
  get_file_list (self Demo.exported) = ["report.txt"] /\
  get_current_version_index (self Demo.exported) "report.txt" = 0 /\
  exists r,
    py_index (get_versions (self Demo.exported) "report.txt")
             (get_current_version_index (self Demo.exported) "report.txt") = Return r.
Proof.
  assert (Hp : pointers_in_range (metadata (self Demo.fresh)))
    by (intros k e H; discriminate H).
  assert (Hs : session Json.dumps returns any_change Demo.fresh Demo.exported)
    by (apply demo_session; intros; exact eq_refl || exact I).
  destruct (returning_session_keeps_a_current_version Json.dumps Demo.fresh Demo.exported Hp Hs)
    as [Hcur _].
  assert (Hin : In "report.txt" (get_file_list (self Demo.exported)))
    by (vm_compute; left; reflexivity).
  destruct (Hcur "report.txt" Hin) as [_ Hr].
  split; [vm_compute; reflexivity|]. split; [vm_compute; reflexivity|exact Hr].
Defined.



Lemma demo_vault_plain (s : state) :
  vault_dir (self s) = Pathlib.Path "data_vault" -> plain_vault (self s).
Proof. intros H. unfold plain_vault. rewrite H. repeat constructor. Qed.

Lemma run_leaves_the_rest_alone_witness :
  Fs.nodes (disk Demo.exported) ["home"; "out.txt"] = Some (Demo.file "hello") /\
  Fs.nodes (disk Demo.deleted) ["home"; "out.txt"] = Some (Demo.file "hello") /\
  Fs.nodes (disk Demo.deleted) ["home"; "data_vault"; "files"] = Some Fs.Dir.
Proof.
  assert (Hm : catalog_shape (metadata (self Demo.exported))).
  { apply (session_shape Json.dumps any_call any_change Demo.fresh); [exact demo_empty_shape|].
    apply demo_session; intros; exact I. }
  assert (Hv : plain_vault (self Demo.exported))
    by (apply demo_vault_plain; vm_compute; reflexivity).
  assert (Hrun : run Json.dumps (DeleteFile (Demo.at_time "") "report.txt") Demo.exported
                 = (Return (true, "File 'report.txt' deleted"), Demo.deleted))
    by (vm_compute; reflexivity).
  destruct (run_leaves_the_rest_alone Json.dumps _ _ _ _ Hv Hm Hrun) as [_ [_ [Hd Hf]]].
  assert (H1 : Fs.nodes (disk Demo.exported) ["home"; "out.txt"] = Some (Demo.file "hello"))
    by (vm_compute; reflexivity).
  assert (H2 : Fs.nodes (disk Demo.exported) ["home"; "data_vault"; "files"] = Some Fs.Dir)
    by (vm_compute; reflexivity).
  split; [exact H1|]. split.
  - apply (Hf ["home"; "out.txt"] (list_byte_of_string "hello") H1);
      intros H; vm_compute in H; discriminate H.
  - apply (Hd ["home"; "data_vault"; "files"] H2). intros H; vm_compute in H; discriminate H.
Defined.

Lemma demo_out_is_outside (s : state) :
  Fs.cwd (disk s) = ["home"] ->
  vault_dir (self s) = Pathlib.Path "data_vault" ->
  outside_the_vault s "/home/out.txt".
Proof.
  intros C V k H. apply locate_plain in H; [|repeat constructor].
  subst k. unfold vault_key. rewrite V. unfold Fs.start. simpl. rewrite C. reflexivity.
Qed.

(** What a session may do when the versions of [report.txt] are to stay. *)
Lemma demo_sparing_session :
  session Json.dumps (spares "report.txt") spares_the_vault Demo.added Demo.exported.
Proof.
  apply session_call with (s1 := Demo.rolled_back)
                          (c := ExportFile (Demo.at_time "") "report.txt" "/home/out.txt")
                          (o := Return (true, "File exported to /home/out.txt"));
    [|apply demo_out_is_outside; vm_compute; reflexivity|vm_compute; reflexivity].
  apply session_call with (s1 := Demo.added_twice)
                          (c := RollbackVersion (Demo.at_time "") "report.txt" 0)
                          (o := Return (true, "Rolled back to version 1"));
    [|exact I|vm_compute; reflexivity].
  apply session_call with (s1 := Demo.edited)
                          (c := AddFile (Demo.at_time "2024-01-02T10:00:00") "/home/./report.txt")
                          (o := Return (true, "File 'report.txt' added as version 2"));
    [|exact I|vm_compute; reflexivity].
  apply (session_outside Json.dumps (spares "report.txt") spares_the_vault
           Demo.added Demo.added (disk Demo.edited));
    [apply session_start|exact demo_edit_spares].
Qed.


Lemma stored_version_stays_witness :
  Fs.read_bytes (disk Demo.added) (Pathlib.Path "data_vault/files/report.txt/v1/report.txt")
  = Return (list_byte_of_string "hello") /\
  Fs.read_bytes (disk Demo.exported) (Pathlib.Path "data_vault/files/report.txt/v1/report.txt")
  = Return (list_byte_of_string "hello") /\
  List.length (get_versions (self Demo.exported) "report.txt") = 2%nat.
Proof.
  assert (Hm : catalog_shape (metadata (self Demo.added))).
  { apply (run_keeps_shape Json.dumps
             (AddFile (Demo.at_time "2024-01-01T10:00:00") "report.txt") Demo.fresh Demo.added
             (Return (true, "File 'report.txt' added as version 1")) demo_empty_shape).
    vm_compute. reflexivity. }
  assert (Hv : plain_vault (self Demo.added))
    by (apply demo_vault_plain; vm_compute; reflexivity).
  set (r := {| version := 1;
               timestamp := "2024-01-01T10:00:00";
               size := 5;
               hash := "2cf24dba5fb0a30e";
               path := "files/report.txt/v1/report.txt" |}).
  assert (Hn : nth_error (get_versions (self Demo.added) "report.txt") 0 = Some r)
    by (vm_compute; reflexivity).
  assert (Hr : Fs.read_bytes (disk Demo.added) (vault_dir (self Demo.added) / path r)%path
               = Return (list_byte_of_string "hello"))
    by (vm_compute; reflexivity).
  destruct (stored_version_stays Json.dumps Demo.added Demo.exported "report.txt" 0 r _
              Hv Hm Hn Hr demo_sparing_session) as [_ Hkept].
  split; [vm_compute; reflexivity|]. split; [|vm_compute; reflexivity].
  vm_compute. vm_compute in Hkept. exact Hkept.
Defined.



